(** * Wrong-way detection: association tracker and direction classifier

    A shallow embedding of the tracking and direction logic of
    [Yolo.ipynb] ([calculate_centroid], [determine_direction] and the
    per-frame body of [process_video_for_wrong_way]), followed by the
    properties of that code.

    Conventions of the embedding.
    - Python integers are [Z]; centroids are pairs of [Z].
    - Bounding-box coordinates are the detector's float32 numbers. The
      geometry and the runs are modelled over exact rationals [Q] (no
      rounding, no overflow), with Python's [max]/[min] written out and
      division raising on a zero denominator. What depends on the side of
      [0.3] on which a computed IOU falls is stated over the model of
      [Numeric], which takes the arithmetic as a parameter and has the
      exact model as one instance.
    - The notebook's module-level variables are the fields of [globals];
      the constants a user tunes are the fields of [config].
    - A Python exception is the [Raise] outcome of the [py] type. *)

From Stdlib Require Import ZArith QArith Qround String List Lia Lqa.
From stdpp Require Import gmap strings list sorting.

Local Open Scope string_scope.
Local Open Scope Z_scope.
Local Open Scope list_scope.

(** ** Outcomes of Python code *)

Inductive exn : Type := TypeError | IndexError | ZeroDivisionError.

Inductive py (A : Type) : Type :=
| Ret (a : A)
| Raise (e : exn).
Arguments Ret {A} a.
Arguments Raise {A} e.

Definition py_bind {A B : Type} (m : py A) (k : A -> py B) : py B :=
  match m with
  | Ret a => k a
  | Raise e => Raise e
  end.

Notation "'do' x <- m 'in' k" := (py_bind m (fun x => k))
  (at level 10, x name, m at level 100, k at level 200).

(** ** Configuration (section 3 of the notebook) *)

Record config : Type := {
  HISTORY_BUFFER_SIZE : nat;
  MIN_MOVEMENT_PIXELS : Z;
  FLOW_TYPE : string;
  EXPECTED_DIRECTION : string
}.

(** The values the notebook assigns at lines 79-112. *)
Definition default_config : config :=
  {| HISTORY_BUFFER_SIZE := 10;
     MIN_MOVEMENT_PIXELS := 10;
     FLOW_TYPE := "vertical_flow";
     EXPECTED_DIRECTION := "down" |}.

(** ** [collections.deque(maxlen=n)] restricted to [append], [len],
    [d[0]] and [d[-1]] *)

Record deque : Type := {
  maxlen : nat;
  items : list (Z * Z)
}.

Definition deque_new (n : nat) : deque := {| maxlen := n; items := [] |}.

(** [append] puts the element on the right and then drops the leftmost one
    when the length went over [maxlen]. *)
Definition deque_append (d : deque) (x : Z * Z) : deque :=
  let l := items d ++ [x] in
  {| maxlen := maxlen d;
     items := if (maxlen d <? length l)%nat then tail l else l |}.

(** ** Module-level state *)

Record globals : Type := {
  object_centroid_history : gmap Z deque;
  object_direction_status : gmap Z string;
  DETECTION_LINE_Y : option Z;
  DETECTION_LINE_X : option Z
}.

(** The state [process_video_for_wrong_way] installs at lines 226-229. *)
Definition fresh_globals : globals :=
  {| object_centroid_history := ∅;
     object_direction_status := ∅;
     DETECTION_LINE_Y := None;
     DETECTION_LINE_X := None |}.

Definition set_history (g : globals) (h : gmap Z deque) : globals :=
  {| object_centroid_history := h;
     object_direction_status := object_direction_status g;
     DETECTION_LINE_Y := DETECTION_LINE_Y g;
     DETECTION_LINE_X := DETECTION_LINE_X g |}.

Definition set_status (g : globals) (s : gmap Z string) : globals :=
  {| object_centroid_history := object_centroid_history g;
     object_direction_status := s;
     DETECTION_LINE_Y := DETECTION_LINE_Y g;
     DETECTION_LINE_X := DETECTION_LINE_X g |}.

Definition set_line_y (g : globals) (y : Z) : globals :=
  {| object_centroid_history := object_centroid_history g;
     object_direction_status := object_direction_status g;
     DETECTION_LINE_Y := Some y;
     DETECTION_LINE_X := DETECTION_LINE_X g |}.

Definition set_line_x (g : globals) (x : Z) : globals :=
  {| object_centroid_history := object_centroid_history g;
     object_direction_status := object_direction_status g;
     DETECTION_LINE_Y := DETECTION_LINE_Y g;
     DETECTION_LINE_X := Some x |}.

(** ** [determine_direction] *)

(** [int(n * 0.5)] for an integer [n]: the product is exact and [int]
    truncates toward zero. *)
Definition half (n : Z) : Z := Z.quot n 2.

Definition is_None {A : Type} (o : option A) : bool :=
  match o with
  | None => true
  | Some _ => false
  end.

(** Lines 150-153: the detection line is set once, on the configured axis. *)
Definition init_detection_line (cfg : config) (frame_width frame_height : Z)
    (g : globals) : globals :=
  if String.eqb (FLOW_TYPE cfg) "vertical_flow" && is_None (DETECTION_LINE_Y g)
  then set_line_y g (half frame_height)
  else if String.eqb (FLOW_TYPE cfg) "horizontal_flow" && is_None (DETECTION_LINE_X g)
  then set_line_x g (half frame_width)
  else g.

(** [c < line] and [c > line]; comparing an integer with [None] raises. *)
Definition lt_line (c : Z) (line : option Z) : py bool :=
  match line with
  | Some l => Ret (c <? l)
  | None => Raise TypeError
  end.

Definition gt_line (c : Z) (line : option Z) : py bool :=
  match line with
  | Some l => Ret (c >? l)
  | None => Raise TypeError
  end.

(** The [if ... elif ...] of lines 165-169 and 181-185. [a and b and c]
    evaluates [c] only when [a] and [b] hold. *)
Definition wrong_way_test (cfg : config) (direction : string)
    (towards against : string) (c : Z) (line : option Z) : py bool :=
  do first <- (if String.eqb (EXPECTED_DIRECTION cfg) towards && String.eqb direction against
               then lt_line c line else Ret false) in
  if first then Ret true
  else if String.eqb (EXPECTED_DIRECTION cfg) against && String.eqb direction towards
       then gt_line c line else Ret false.

(** Lines 145-185: the pair [(direction, is_wrong_way)]. *)
Definition classify_motion (cfg : config) (dx dy : Z) (current_centroid : Z * Z)
    (g : globals) : py (option string * bool) :=
  if String.eqb (FLOW_TYPE cfg) "vertical_flow" then
    if Z.abs dy >? MIN_MOVEMENT_PIXELS cfg then
      let direction := if dy >? 0 then "down" else "up" in
      do w <- wrong_way_test cfg direction "down" "up" (snd current_centroid)
                (DETECTION_LINE_Y g) in
      Ret (Some direction, w)
    else Ret (None, false)
  else if String.eqb (FLOW_TYPE cfg) "horizontal_flow" then
    if Z.abs dx >? MIN_MOVEMENT_PIXELS cfg then
      let direction := if dx >? 0 then "right" else "left" in
      do w <- wrong_way_test cfg direction "right" "left" (fst current_centroid)
                (DETECTION_LINE_X g) in
      Ret (Some direction, w)
    else Ret (None, false)
  else Ret (None, false).

(** Truth value of [direction] in [... if direction else None]. *)
Definition truthy (direction : option string) : bool :=
  match direction with
  | None => false
  | Some s => negb (String.eqb s "")
  end.

(** Line 187. *)
Definition verdict (direction : option string) (is_wrong_way : bool) : option string :=
  if is_wrong_way then Some "wrong"
  else if truthy direction then Some "correct"
  else None.

(** Lines 129-131: the history of [object_id] after the append. *)
Definition appended_history (cfg : config) (object_id : Z) (current_centroid : Z * Z)
    (g : globals) : deque :=
  deque_append
    (match object_centroid_history g !! object_id with
     | Some d => d
     | None => deque_new (HISTORY_BUFFER_SIZE cfg)
     end)
    current_centroid.

Definition determine_direction (cfg : config) (object_id : Z) (current_centroid : Z * Z)
    (frame_width frame_height : Z) (g : globals) : py (option string) * globals :=
  let history := appended_history cfg object_id current_centroid g in
  let g1 := set_history g (<[object_id := history]> (object_centroid_history g)) in
  if (length (items history) <? 2)%nat then (Ret None, g1)
  else
    match head (items history), last (items history) with
    | Some old_centroid, Some current_centroid =>
        let dx := fst current_centroid - fst old_centroid in
        let dy := snd current_centroid - snd old_centroid in
        let g2 := init_detection_line cfg frame_width frame_height g1 in
        (do r <- classify_motion cfg dx dy current_centroid g2 in
         Ret (verdict (fst r) (snd r)), g2)
    | _, _ => (Raise IndexError, g1)
    end.

(** A sequence of classifier calls, each on the state the previous one
    left; the run stops at the first exception. *)
Record call : Type := {
  call_id : Z;
  call_centroid : Z * Z;
  call_width : Z;
  call_height : Z
}.

Definition do_call (cfg : config) (c : call) (g : globals) : py (option string) * globals :=
  determine_direction cfg (call_id c) (call_centroid c) (call_width c) (call_height c) g.

Fixpoint run_calls (cfg : config) (cs : list call) (g : globals)
    : py (list (option string)) * globals :=
  match cs with
  | [] => (Ret [], g)
  | c :: cs' =>
      match do_call cfg c g with
      | (Ret v, g') =>
          match run_calls cfg cs' g' with
          | (Ret vs, g'') => (Ret (v :: vs), g'')
          | (Raise e, g'') => (Raise e, g'')
          end
      | (Raise e, g') => (Raise e, g')
      end
  end.

(** ** Geometry *)

(** A box [[x1, y1, x2, y2]]; [bbox[0]] is [bx1], ..., [bbox[3]] is [by2]. *)
Record bbox : Type := {
  bx1 : Q;
  by1 : Q;
  bx2 : Q;
  by2 : Q
}.

Definition Qltb (a b : Q) : bool := negb (Qle_bool b a).

(** Python's [max(a, b)] and [min(a, b)]: the first argument is kept unless
    the second is strictly larger (smaller). *)
Definition py_max (a b : Q) : Q := if Qltb a b then b else a.
Definition py_min (a b : Q) : Q := if Qltb b a then b else a.

(** [a / b]. *)
Definition py_div (a b : Q) : py Q :=
  if Qeq_bool b 0 then Raise ZeroDivisionError else Ret (a / b)%Q.

(** [int(x)]: truncation toward zero. *)
Definition py_int (x : Q) : Z := Z.quot (Qnum x) (Zpos (Qden x)).

(** [calculate_centroid], lines 114-122. *)
Definition calculate_centroid (b : bbox) : Z * Z :=
  let x1 := py_int (bx1 b) in
  let y1 := py_int (by1 b) in
  let x2 := py_int (bx2 b) in
  let y2 := py_int (by2 b) in
  let cx := (x1 + x2) / 2 in
  let cy := (y1 + y2) / 2 in
  (cx, cy).

(** Lines 274-281. *)
Definition intersection_area (bbox1 bbox2 : bbox) : Q :=
  let x_overlap_min := py_max (bx1 bbox1) (bx1 bbox2) in
  let y_overlap_min := py_max (by1 bbox1) (by1 bbox2) in
  let x_overlap_max := py_min (bx2 bbox1) (bx2 bbox2) in
  let y_overlap_max := py_min (by2 bbox1) (by2 bbox2) in
  let overlap_width := py_max 0 (x_overlap_max - x_overlap_min) in
  let overlap_height := py_max 0 (y_overlap_max - y_overlap_min) in
  (overlap_width * overlap_height)%Q.

(** [(bbox[2] - bbox[0]) * (bbox[3] - bbox[1])], lines 283-284. *)
Definition box_area (b : bbox) : Q :=
  ((bx2 b - bx1 b) * (by2 b - by1 b))%Q.

(** Line 285. *)
Definition union_area (bbox1 bbox2 : bbox) : Q :=
  (box_area bbox1 + box_area bbox2 - intersection_area bbox1 bbox2)%Q.

(** Line 287. *)
Definition iou (bbox1 bbox2 : bbox) : py Q :=
  if Qltb 0 (union_area bbox1 bbox2)
  then py_div (intersection_area bbox1 bbox2) (union_area bbox1 bbox2)
  else Ret 0%Q.

(** ** Detections and tracks *)

(** One box of the detector's result (lines 245-247). *)
Record yolo_box : Type := {
  xyxy : bbox;
  box_conf : Q;
  box_cls : Z
}.

(** An entry of [current_frame_detections] (lines 249-254). *)
Record detection : Type := {
  det_bbox : bbox;
  det_conf : Q;
  det_cls : Z;
  det_centroid : Z * Z
}.

Definition detection_of_box (b : yolo_box) : detection :=
  {| det_bbox := xyxy b;
     det_conf := box_conf b;
     det_cls := box_cls b;
     det_centroid := calculate_centroid (xyxy b) |}.

(** A value of [tracked_objects]. Every place that builds one sets the four
    keys, so the ['centroid' not in obj_data] test of line 324 never holds. *)
Record obj_data : Type := {
  obj_bbox : bbox;
  obj_centroid : Z * Z;
  obj_cls : Z;
  last_seen_frame : Z
}.

(** The value stored for an object seen as detection [d] in frame
    [frame_idx] (lines 295-300 and 312-317). *)
Definition obj_of_detection (frame_idx : Z) (d : detection) : obj_data :=
  {| obj_bbox := det_bbox d;
     obj_centroid := det_centroid d;
     obj_cls := det_cls d;
     last_seen_frame := frame_idx |}.

(** A [dict] with integer keys, in insertion order. *)
Definition dict (V : Type) : Type := list (Z * V).

(** [d[k] = v]: an existing key keeps its place, a new key goes last. *)
Fixpoint dict_set {V : Type} (k : Z) (v : V) (d : dict V) : dict V :=
  match d with
  | [] => [(k, v)]
  | (k', v') :: d' => if k' =? k then (k', v) :: d' else (k', v') :: dict_set k v d'
  end.

Definition dict_keys {V : Type} (d : dict V) : list Z := map fst d.

(** [l[i]] for a Python list. *)
Definition py_index {A : Type} (l : list A) (i : Z) : py A :=
  let n := Z.of_nat (length l) in
  let j := if i <? 0 then i + n else i in
  if (j <? 0) || (n <=? j) then Raise IndexError
  else match l !! Z.to_nat j with
       | Some a => Ret a
       | None => Raise IndexError
       end.

(** ** Association (lines 259-319) *)

(** The inner loop, lines 266-291, from index [i] on; [best] is the pair
    [(best_match_idx, max_iou)]. *)
Fixpoint scan_detections (bbox1 : bbox) (matched_current_indices : gset Z)
    (dets : list detection) (i : Z) (best : Z * Q) : py (Z * Q) :=
  match dets with
  | [] => Ret best
  | current_det :: rest =>
      if bool_decide (i ∈ matched_current_indices)
      then scan_detections bbox1 matched_current_indices rest (i + 1) best
      else
        do v <- iou bbox1 (det_bbox current_det) in
        scan_detections bbox1 matched_current_indices rest (i + 1)
          (if Qltb (snd best) v then (i, v) else best)
  end.

(** Lines 263-264 and the loop. *)
Definition best_match (bbox1 : bbox) (matched_current_indices : gset Z)
    (dets : list detection) : py (Z * Q) :=
  scan_detections bbox1 matched_current_indices dets 0 (-1, 0%Q).

Definition match_threshold : Q := 3 # 10.
Definition grace_period : Z := 5.

(** The state of the outer loop. *)
Definition assoc_state : Type := dict obj_data * gset Z.

(** The body of the outer loop, lines 263-306, for one tracked object. *)
Definition associate_track (frame_idx : Z) (dets : list detection)
    (entry : Z * obj_data) (acc : assoc_state) : py assoc_state :=
  let obj_id := fst entry in
  let data := snd entry in
  let new_tracked_objects := fst acc in
  let matched_current_indices := snd acc in
  do best <- best_match (obj_bbox data) matched_current_indices dets in
  let best_match_idx := fst best in
  let max_iou := snd best in
  if negb (best_match_idx =? -1) && Qltb match_threshold max_iou then
    do d <- py_index dets best_match_idx in
    Ret (dict_set obj_id (obj_of_detection frame_idx d) new_tracked_objects,
         {[best_match_idx]} ∪ matched_current_indices)
  else if frame_idx - last_seen_frame data <? grace_period then
    Ret (dict_set obj_id data new_tracked_objects, matched_current_indices)
  else Ret (new_tracked_objects, matched_current_indices).

(** The outer loop, line 262: the entries of [tracked_objects] in order. *)
Fixpoint associate_tracks (frame_idx : Z) (dets : list detection)
    (tracks : dict obj_data) (acc : assoc_state) : py assoc_state :=
  match tracks with
  | [] => Ret acc
  | entry :: rest =>
      do acc' <- associate_track frame_idx dets entry acc in
      associate_tracks frame_idx dets rest acc'
  end.

(** Lines 310-318, from index [i] on; the state is
    [(new_tracked_objects, next_object_id)]. *)
Fixpoint spawn_tracks (frame_idx : Z) (matched_current_indices : gset Z)
    (dets : list detection) (i : Z) (acc : dict obj_data * Z) : dict obj_data * Z :=
  match dets with
  | [] => acc
  | current_det :: rest =>
      if bool_decide (i ∈ matched_current_indices)
      then spawn_tracks frame_idx matched_current_indices rest (i + 1) acc
      else
        spawn_tracks frame_idx matched_current_indices rest (i + 1)
          (dict_set (snd acc) (obj_of_detection frame_idx current_det) (fst acc),
           snd acc + 1)
  end.

(** The tracker's local variables (lines 221-222). *)
Record tracker : Type := {
  next_object_id : Z;
  tracked_objects : dict obj_data
}.

Definition new_tracker : tracker :=
  {| next_object_id := 0; tracked_objects := [] |}.

(** Lines 259-319: one frame of association. *)
Definition advance (frame_idx : Z) (dets : list detection) (t : tracker) : py tracker :=
  do acc <- associate_tracks frame_idx dets (tracked_objects t) ([], ∅) in
  let spawned := spawn_tracks frame_idx (snd acc) dets 0 (fst acc, next_object_id t) in
  Ret {| next_object_id := snd spawned; tracked_objects := fst spawned |}.

(** ** Direction of the tracked objects (lines 323-334) *)

(** What the drawing code reads for one tracked object. *)
Record track_report : Type := {
  track_id : Z;
  report_data : obj_data;
  report_verdict : option string
}.

Fixpoint classify_tracks (cfg : config) (frame_width frame_height : Z)
    (tracks : dict obj_data) (g : globals) : py (list track_report * globals) :=
  match tracks with
  | [] => Ret ([], g)
  | (obj_id, data) :: rest =>
      match determine_direction cfg obj_id (obj_centroid data) frame_width frame_height g with
      | (Raise e, _) => Raise e
      | (Ret direction_status, g1) =>
          let g2 :=
            match direction_status with
            | Some s =>
                if truthy direction_status
                then set_status g1 (<[obj_id := s]> (object_direction_status g1))
                else g1
            | None => g1
            end in
          do r <- classify_tracks cfg frame_width frame_height rest g2 in
          Ret ({| track_id := obj_id;
                  report_data := data;
                  report_verdict := object_direction_status g2 !! obj_id |} :: fst r,
               snd r)
      end
  end.

(** ** The frame loop (lines 221-334) *)

Definition run_state : Type := tracker * globals.

(** The body of the loop for the frame [frame_idx] whose detector result is
    [boxes]. *)
Definition process_frame (cfg : config) (frame_width frame_height : Z)
    (frame_idx : Z) (boxes : list yolo_box) (st : run_state)
    : py (list track_report * run_state) :=
  let current_frame_detections := map detection_of_box boxes in
  do t <- advance frame_idx current_frame_detections (fst st) in
  do r <- classify_tracks cfg frame_width frame_height (tracked_objects t) (snd st) in
  Ret (fst r, (t, snd r)).

Fixpoint process_frames (cfg : config) (frame_width frame_height : Z)
    (frame_idx : Z) (frames : list (list yolo_box)) (st : run_state)
    : py (list (list track_report) * run_state) :=
  match frames with
  | [] => Ret ([], st)
  | boxes :: rest =>
      do r <- process_frame cfg frame_width frame_height frame_idx boxes st in
      do r' <- process_frames cfg frame_width frame_height (frame_idx + 1) rest (snd r) in
      Ret (fst r :: fst r', snd r')
  end.

(** [process_video_for_wrong_way] on the detector results of the frames
    read; [ambient] is the module state at the time of the call, which
    lines 226-229 replace. *)
Definition process_video_for_wrong_way (cfg : config) (frame_width frame_height : Z)
    (frames : list (list yolo_box)) (ambient : globals)
    : py (list (list track_report) * run_state) :=
  process_frames cfg frame_width frame_height 0 frames (new_tracker, fresh_globals).

(** ** Sample data *)

Definition scenario_call (c : Z * Z) : call :=
  {| call_id := 0; call_centroid := c; call_width := 400; call_height := 300 |}.

Definition box (x1 y1 x2 y2 : Z) : yolo_box :=
  {| xyxy := {| bx1 := inject_Z x1; by1 := inject_Z y1;
                bx2 := inject_Z x2; by2 := inject_Z y2 |};
     box_conf := 9 # 10;
     box_cls := 2 |}.

(** ** Association over the detector's own numbers

    The boxes that reach lines 259-319 hold NumPy float32 scalars, and the
    code mixes them with the Python literals [0], [0.0] and [0.3]. What
    [+], [-], [*], [/], [>] and [<] do on such numbers is not code of the
    notebook: below it is a parameter, and the association is written once
    more over it, operator by operator. The definitions above are the
    instance in which the numbers are exact rationals. *)

Record arithmetic : Type := {
  num : Type;
  int_0 : num;                      (* the literal 0 *)
  float_0 : num;                    (* the literal 0.0 *)
  float_0_3 : num;                  (* the literal 0.3 *)
  add : num -> num -> num;
  sub : num -> num -> num;
  mul : num -> num -> num;
  div : num -> num -> py num;
  gt : num -> num -> bool;
  lt : num -> num -> bool
}.

Module Numeric.

Section Association.

Variable A : arithmetic.

(** A box [[x1, y1, x2, y2]]. *)
Record bbox : Type := {
  bx1 : num A;
  by1 : num A;
  bx2 : num A;
  by2 : num A
}.

(** An entry of [current_frame_detections]. *)
Record detection : Type := {
  det_bbox : bbox;
  det_conf : num A;
  det_cls : Z;
  det_centroid : Z * Z
}.

(** A value of [tracked_objects]. *)
Record obj_data : Type := {
  obj_bbox : bbox;
  obj_centroid : Z * Z;
  obj_cls : Z;
  last_seen_frame : Z
}.

Definition obj_of_detection (frame_idx : Z) (d : detection) : obj_data :=
  {| obj_bbox := det_bbox d;
     obj_centroid := det_centroid d;
     obj_cls := det_cls d;
     last_seen_frame := frame_idx |}.

(** [max(a, b)] keeps [a] unless [b > a]; [min(a, b)] keeps [a] unless
    [b < a]. *)
Definition py_max (a b : num A) : num A := if gt A b a then b else a.
Definition py_min (a b : num A) : num A := if lt A b a then b else a.

(** Lines 274-281. *)
Definition intersection_area (bbox1 bbox2 : bbox) : num A :=
  let x_overlap_min := py_max (bx1 bbox1) (bx1 bbox2) in
  let y_overlap_min := py_max (by1 bbox1) (by1 bbox2) in
  let x_overlap_max := py_min (bx2 bbox1) (bx2 bbox2) in
  let y_overlap_max := py_min (by2 bbox1) (by2 bbox2) in
  let overlap_width := py_max (int_0 A) (sub A x_overlap_max x_overlap_min) in
  let overlap_height := py_max (int_0 A) (sub A y_overlap_max y_overlap_min) in
  mul A overlap_width overlap_height.

(** Lines 283-284. *)
Definition box_area (b : bbox) : num A :=
  mul A (sub A (bx2 b) (bx1 b)) (sub A (by2 b) (by1 b)).

(** Line 285. *)
Definition union_area (bbox1 bbox2 : bbox) : num A :=
  sub A (add A (box_area bbox1) (box_area bbox2)) (intersection_area bbox1 bbox2).

(** Line 287. *)
Definition iou (bbox1 bbox2 : bbox) : py (num A) :=
  if gt A (union_area bbox1 bbox2) (int_0 A)
  then div A (intersection_area bbox1 bbox2) (union_area bbox1 bbox2)
  else Ret (int_0 A).

(** The inner loop, lines 266-291, from index [i] on. *)
Fixpoint scan_detections (bbox1 : bbox) (matched_current_indices : gset Z)
    (dets : list detection) (i : Z) (best : Z * num A) : py (Z * num A) :=
  match dets with
  | [] => Ret best
  | current_det :: rest =>
      if bool_decide (i ∈ matched_current_indices)
      then scan_detections bbox1 matched_current_indices rest (i + 1) best
      else
        do v <- iou bbox1 (det_bbox current_det) in
        scan_detections bbox1 matched_current_indices rest (i + 1)
          (if gt A v (snd best) then (i, v) else best)
  end.

(** Lines 263-264 and the loop. *)
Definition best_match (bbox1 : bbox) (matched_current_indices : gset Z)
    (dets : list detection) : py (Z * num A) :=
  scan_detections bbox1 matched_current_indices dets 0 (-1, float_0 A).

(** The test of line 293. *)
Definition is_match (best : Z * num A) : bool :=
  negb (fst best =? -1) && gt A (snd best) (float_0_3 A).

(** The body of the outer loop, lines 263-306. *)
Definition associate_track (frame_idx : Z) (dets : list detection)
    (entry : Z * obj_data) (acc : dict obj_data * gset Z) : py (dict obj_data * gset Z) :=
  let obj_id := fst entry in
  let data := snd entry in
  let new_tracked_objects := fst acc in
  let matched_current_indices := snd acc in
  do best <- best_match (obj_bbox data) matched_current_indices dets in
  let best_match_idx := fst best in
  if is_match best then
    do d <- py_index dets best_match_idx in
    Ret (dict_set obj_id (obj_of_detection frame_idx d) new_tracked_objects,
         {[best_match_idx]} ∪ matched_current_indices)
  else if frame_idx - last_seen_frame data <? grace_period then
    Ret (dict_set obj_id data new_tracked_objects, matched_current_indices)
  else Ret (new_tracked_objects, matched_current_indices).

(** The outer loop, line 262. *)
Fixpoint associate_tracks (frame_idx : Z) (dets : list detection)
    (tracks : dict obj_data) (acc : dict obj_data * gset Z)
    : py (dict obj_data * gset Z) :=
  match tracks with
  | [] => Ret acc
  | entry :: rest =>
      do acc' <- associate_track frame_idx dets entry acc in
      associate_tracks frame_idx dets rest acc'
  end.

(** Lines 310-318, from index [i] on. *)
Fixpoint spawn_tracks (frame_idx : Z) (matched_current_indices : gset Z)
    (dets : list detection) (i : Z) (acc : dict obj_data * Z) : dict obj_data * Z :=
  match dets with
  | [] => acc
  | current_det :: rest =>
      if bool_decide (i ∈ matched_current_indices)
      then spawn_tracks frame_idx matched_current_indices rest (i + 1) acc
      else
        spawn_tracks frame_idx matched_current_indices rest (i + 1)
          (dict_set (snd acc) (obj_of_detection frame_idx current_det) (fst acc),
           snd acc + 1)
  end.

Record tracker : Type := {
  next_object_id : Z;
  tracked_objects : dict obj_data
}.

(** Lines 259-319. *)
Definition advance (frame_idx : Z) (dets : list detection) (t : tracker) : py tracker :=
  do acc <- associate_tracks frame_idx dets (tracked_objects t) ([], ∅) in
  let spawned := spawn_tracks frame_idx (snd acc) dets 0 (fst acc, next_object_id t) in
  Ret {| next_object_id := snd spawned; tracked_objects := fst spawned |}.

End Association.

End Numeric.

Arguments Numeric.Build_bbox {A} _ _ _ _.
Arguments Numeric.bx1 {A} _.
Arguments Numeric.by1 {A} _.
Arguments Numeric.bx2 {A} _.
Arguments Numeric.by2 {A} _.
Arguments Numeric.Build_detection {A} _ _ _ _.
Arguments Numeric.det_bbox {A} _.
Arguments Numeric.det_conf {A} _.
Arguments Numeric.det_cls {A} _.
Arguments Numeric.det_centroid {A} _.
Arguments Numeric.Build_obj_data {A} _ _ _ _.
Arguments Numeric.obj_bbox {A} _.
Arguments Numeric.obj_centroid {A} _.
Arguments Numeric.obj_cls {A} _.
Arguments Numeric.last_seen_frame {A} _.
Arguments Numeric.obj_of_detection {A} _ _.
Arguments Numeric.py_max {A} _ _.
Arguments Numeric.py_min {A} _ _.
Arguments Numeric.intersection_area {A} _ _.
Arguments Numeric.box_area {A} _.
Arguments Numeric.union_area {A} _ _.
Arguments Numeric.iou {A} _ _.
Arguments Numeric.scan_detections {A} _ _ _ _ _.
Arguments Numeric.best_match {A} _ _ _.
Arguments Numeric.is_match {A} _.
Arguments Numeric.associate_track {A} _ _ _ _.
Arguments Numeric.associate_tracks {A} _ _ _ _.
Arguments Numeric.spawn_tracks {A} _ _ _ _ _.
Arguments Numeric.Build_tracker {A} _ _.
Arguments Numeric.next_object_id {A} _.
Arguments Numeric.tracked_objects {A} _.
Arguments Numeric.advance {A} _ _ _.

(** The exact arithmetic of the definitions above. *)
Definition exact_arithmetic : arithmetic :=
  {| num := Q;
     int_0 := 0%Q;
     float_0 := 0%Q;
     float_0_3 := match_threshold;
     add := Qplus;
     sub := Qminus;
     mul := Qmult;
     div := py_div;
     gt := fun a b => Qltb b a;
     lt := Qltb |}.

(** ** Vocabulary of the statements about the classifier *)

(** [history[0]] and [history[-1]]. *)
Definition oldest (l : list (Z * Z)) : Z * Z := default (0, 0) (l !! 0%nat).
Definition newest (l : list (Z * Z)) : Z * Z := default (0, 0) (l !! (length l - 1)%nat).

Definition is_vertical (cfg : config) : bool := String.eqb (FLOW_TYPE cfg) "vertical_flow".
Definition is_horizontal (cfg : config) : bool := String.eqb (FLOW_TYPE cfg) "horizontal_flow".

(** The coordinate of a centroid along the configured flow axis. *)
Definition along (cfg : config) (c : Z * Z) : Z :=
  if is_vertical cfg then snd c else fst c.

(** Newest minus oldest retained centroid, along the flow axis. *)
Definition displacement (cfg : config) (l : list (Z * Z)) : Z :=
  along cfg (newest l) - along cfg (oldest l).

(** The raw direction: the sign of the displacement, named by the axis. *)
Definition raw_direction (cfg : config) (l : list (Z * Z)) : string :=
  if is_vertical cfg
  then (if 0 <? displacement cfg l then "down" else "up")
  else (if 0 <? displacement cfg l then "right" else "left").

Definition opposite (d : string) : string :=
  if String.eqb d "down" then "up"
  else if String.eqb d "up" then "down"
  else if String.eqb d "right" then "left"
  else if String.eqb d "left" then "right"
  else "".

(** The position of the detection line on the flow axis once it is fixed:
    the value already stored, or half the frame's extent. *)
Definition boundary_line (cfg : config) (frame_width frame_height : Z) (g : globals) : Z :=
  if is_vertical cfg
  then default (half frame_height) (DETECTION_LINE_Y g)
  else default (half frame_width) (DETECTION_LINE_X g).

(** The side of the line traffic in direction [expected] comes from:
    before the line for [down] and [right], after it for [up] and [left]. *)
Definition on_origin_side (expected : string) (pos line : Z) : bool :=
  if String.eqb expected "down" || String.eqb expected "right" then pos <? line
  else if String.eqb expected "up" || String.eqb expected "left" then line <? pos
  else false.

(** The stored items of an identity's history ([[]] when it has none). *)
Definition history_items (g : globals) (object_id : Z) : list (Z * Z) :=
  match object_centroid_history g !! object_id with
  | Some d => items d
  | None => []
  end.

(** The capacity bound on every stored history. *)
Definition history_bounded (cfg : config) (g : globals) : Prop :=
  forall object_id d,
    object_centroid_history g !! object_id = Some d ->
    maxlen d = HISTORY_BUFFER_SIZE cfg /\ (length (items d) <= maxlen d)%nat.

(** The verdict the statements speak of: [wrong] when the raw direction is
    the opposite of the expected one and the current centroid is on the
    origin side of the line, [correct] otherwise. *)
Definition wrong_way_condition (cfg : config) (l : list (Z * Z)) (line : Z) : bool :=
  String.eqb (opposite (raw_direction cfg l)) (EXPECTED_DIRECTION cfg)
  && on_origin_side (EXPECTED_DIRECTION cfg) (along cfg (newest l)) line.

(** The two runs of the classifier the specification describes: vertical
    flow, expected [down], a 400x300 frame, threshold 10. *)
Definition scenario_verdicts (centroids : list (Z * Z)) : py (list (option string)) :=
  fst (run_calls default_config (map scenario_call centroids) fresh_globals).

Definition scenario_line (centroids : list (Z * Z)) : option Z :=
  DETECTION_LINE_Y (snd (run_calls default_config (map scenario_call centroids) fresh_globals)).


(** ** Vocabulary of the statements about the tracker *)

(** The value [iou] returns. *)
Definition iou_value (bbox1 bbox2 : bbox) : Q :=
  match iou bbox1 bbox2 with
  | Ret q => q
  | Raise _ => 0%Q
  end.

(** The pair [(best_match_idx, max_iou)] the inner loop ends with. *)
Definition best_of (bbox1 : bbox) (m : gset Z) (dets : list detection) : Z * Q :=
  match best_match bbox1 m dets with
  | Ret r => r
  | Raise _ => (-1, 0%Q)
  end.

(** One turn of the inner loop, with the IOU as a value. *)
Definition scan_step (bbox1 : bbox) (m : gset Z) (d : detection) (i : Z) (best : Z * Q)
    : Z * Q :=
  if bool_decide (i ∈ m) then best
  else if Qltb (snd best) (iou_value bbox1 (det_bbox d)) then (i, iou_value bbox1 (det_bbox d))
  else best.

(** The index of the detection a track consumes at its turn, when the
    consumed indices so far are [m]: its best candidate, if that one passes
    the threshold. *)
Definition claim (dets : list detection) (data : obj_data) (m : gset Z) : option Z :=
  let r := best_of (obj_bbox data) m dets in
  if negb (fst r =? -1) && Qltb match_threshold (snd r) then Some (fst r) else None.

Definition consume (c : option Z) (m : gset Z) : gset Z :=
  match c with
  | Some i => {[i]} ∪ m
  | None => m
  end.


(** The consumed indices once [tracks] have had their turn. *)
Fixpoint consumed (dets : list detection) (tracks : dict obj_data) (m : gset Z) : gset Z :=
  match tracks with
  | [] => m
  | (obj_id, data) :: rest => consumed dets rest (consume (claim dets data m) m)
  end.

(** What is stored for a track after its turn: the claimed detection, the
    old value within the grace period, nothing after it. *)
Definition track_outcome (frame_idx : Z) (dets : list detection) (data : obj_data)
    (c : option Z) : option obj_data :=
  match c with
  | Some idx => obj_of_detection frame_idx <$> (dets !! Z.to_nat idx)
  | None => if frame_idx - last_seen_frame data <? grace_period then Some data else None
  end.

(** The entries the outer loop stores, in order. *)
Fixpoint survivors (frame_idx : Z) (dets : list detection) (tracks : dict obj_data)
    (m : gset Z) : dict obj_data :=
  match tracks with
  | [] => []
  | (obj_id, data) :: rest =>
      match track_outcome frame_idx dets data (claim dets data m) with
      | Some data' => [(obj_id, data')]
      | None => []
      end ++ survivors frame_idx dets rest (consume (claim dets data m) m)
  end.

(** The entries the last loop adds for the detections from index [i] on
    that [m] leaves unconsumed, numbered from [next]. *)
Fixpoint spawned (frame_idx : Z) (m : gset Z) (dets : list detection) (i next : Z)
    : dict obj_data :=
  match dets with
  | [] => []
  | d :: rest =>
      if bool_decide (i ∈ m) then spawned frame_idx m rest (i + 1) next
      else (next, obj_of_detection frame_idx d) :: spawned frame_idx m rest (i + 1) (next + 1)
  end.

Definition zero_area (b : bbox) : Prop := (box_area b == 0)%Q.

(** Identities in use are distinct and below the counter. *)
Definition tracker_wf (t : tracker) : Prop :=
  NoDup (dict_keys (tracked_objects t)) /\
  Forall (fun k => 0 <= k < next_object_id t) (dict_keys (tracked_objects t)) /\
  0 <= next_object_id t.

(** The number of tracks a frame spawns. *)
Definition births (frame_idx : Z) (dets : list detection) (t : tracker) : Z :=
  Z.of_nat (length (spawned frame_idx (consumed dets (tracked_objects t) ∅) dets 0
                      (next_object_id t))).

Definition live_tracks (r : py (list (list track_report) * run_state))
    : option (dict obj_data) :=
  match r with
  | Ret (_, (t, _)) => Some (tracked_objects t)
  | Raise _ => None
  end.

Definition live_ids (r : py (list (list track_report) * run_state)) : option (list Z) :=
  match r with
  | Ret (_, (t, _)) => Some (dict_keys (tracked_objects t))
  | Raise _ => None
  end.

Definition final_tracker (r : py (list (list track_report) * run_state)) : option tracker :=
  match r with
  | Ret (_, (t, _)) => Some t
  | Raise _ => None
  end.

(** The tracker's part of the frame loop. *)
Fixpoint advance_frames (frame_idx : Z) (frames : list (list yolo_box)) (t : tracker)
    : py tracker :=
  match frames with
  | [] => Ret t
  | boxes :: rest =>
      do t' <- advance frame_idx (map detection_of_box boxes) t in
      advance_frames (frame_idx + 1) rest t'
  end.

(** A tracked object whose box is [(x1, y1, x2, y2)], last seen in frame 0. *)
Definition track_at (x1 y1 x2 y2 : Z) : obj_data :=
  obj_of_detection 0 (detection_of_box (box x1 y1 x2 y2)).

(** Two tracks that overlap the same detection, the later one better. *)
Definition contested_tracks : dict obj_data :=
  [(0, track_at 0 0 10 8); (1, track_at 0 0 10 10)].

Definition contested_dets : list detection :=
  [detection_of_box (box 0 0 10 10)].



(** ** Vocabulary of the further properties *)

(** Every live track was last seen in the frame [frame_idx] or one of the
    four before it. *)
Definition recently_seen (frame_idx : Z) (t : tracker) : Prop :=
  Forall (fun e => frame_idx - grace_period < last_seen_frame (snd e) <= frame_idx)
    (tracked_objects t).

(** The last [n] elements of a list (the whole list when it is shorter). *)
Definition last_n {A : Type} (n : nat) (l : list A) : list A :=
  drop (length l - n) l.

(** The centroids the calls of [cs] pass for the identity [object_id]. *)
Definition centroids_of (object_id : Z) (cs : list call) : list (Z * Z) :=
  map call_centroid (filter (fun c => call_id c = object_id) cs).

(** The verdict as a function of the stored centroids and the position of
    the line. *)
Definition decision (cfg : config) (h : list (Z * Z)) (line : Z) : option string :=
  if (length h <? 2)%nat then None
  else if Z.abs (displacement cfg h) <=? MIN_MOVEMENT_PIXELS cfg then None
  else if is_vertical cfg || is_horizontal cfg
       then Some (if wrong_way_condition cfg h line then "wrong" else "correct")
       else None.

(** The results of the calls of [cs] made for the identity [object_id]. *)
Definition results_for (object_id : Z) (cs : list call) (rs : list (option string))
    : list (option string) :=
  map snd (filter (fun p => call_id (fst p) = object_id) (zip cs rs)).

(** The calls of [cs] made for the identity [object_id]. *)
Definition calls_for (object_id : Z) (cs : list call) : list call :=
  filter (fun c => call_id c = object_id) cs.

(** Each line is unset or at half the extent of a [fw] x [fh] frame. *)
Definition lines_for_frame (fw fh : Z) (g : globals) : Prop :=
  (DETECTION_LINE_Y g = None \/ DETECTION_LINE_Y g = Some (half fh)) /\
  (DETECTION_LINE_X g = None \/ DETECTION_LINE_X g = Some (half fw)).

(** The verdicts a report can carry. *)
Definition report_ok (r : track_report) : Prop :=
  report_verdict r = None \/ report_verdict r = Some "correct"
  \/ report_verdict r = Some "wrong".

(** Every stored verdict is [correct] or [wrong]. *)
Definition status_sound (g : globals) : Prop :=
  forall object_id s,
    object_direction_status g !! object_id = Some s -> s = "correct" \/ s = "wrong".

(** Histories and verdicts exist only for identities already handed out. *)
Definition known_below (st : run_state) : Prop :=
  forall object_id,
    is_Some (object_centroid_history (snd st) !! object_id)
    \/ is_Some (object_direction_status (snd st) !! object_id) ->
    object_id < next_object_id (fst st).

Definition run_invariant (st : run_state) : Prop :=
  tracker_wf (fst st) /\ known_below st /\ status_sound (snd st).

(** The state after the turn of one track in the direction loop. *)
Definition after_turn (cfg : config) (frame_width frame_height : Z) (obj_id : Z)
    (data : obj_data) (g : globals) : globals :=
  let r := determine_direction cfg obj_id (obj_centroid data) frame_width frame_height g in
  match decision cfg (items (appended_history cfg obj_id (obj_centroid data) g))
          (boundary_line cfg frame_width frame_height g) with
  | Some s =>
      if negb (String.eqb s "")
      then set_status (snd r) (<[obj_id := s]> (object_direction_status (snd r)))
      else snd r
  | None => snd r
  end.

(** The stored centroid of every track is the centroid of its stored box. *)
Definition centroids_in_step (tracks : dict obj_data) : Prop :=
  Forall (fun e => obj_centroid (snd e) = calculate_centroid (obj_bbox (snd e))) tracks.

(** ** Vocabulary of the statements over any arithmetic *)

(** The one fact about the numbers the statements rest on: a division by a
    number that passed the test [> 0] of line 287 returns. *)
Definition division_guarded (A : arithmetic) : Prop :=
  forall a b : num A, gt A b (int_0 A) = true -> exists q, div A a b = Ret q.

(** Identities in use are distinct and below the counter. *)
Definition numeric_wf {A : arithmetic} (t : Numeric.tracker A) : Prop :=
  NoDup (dict_keys (Numeric.tracked_objects t)) /\
  Forall (fun k => 0 <= k < Numeric.next_object_id t) (dict_keys (Numeric.tracked_objects t)) /\
  0 <= Numeric.next_object_id t.

(** The entries the last loop adds for the detections from index [i] on
    that [m] leaves unconsumed, numbered from [next]. *)
Fixpoint numeric_spawned {A : arithmetic} (frame_idx : Z) (m : gset Z)
    (dets : list (Numeric.detection A)) (i next : Z) : list (Z * Numeric.obj_data A) :=
  match dets with
  | [] => []
  | d :: rest =>
      if bool_decide (i ∈ m) then numeric_spawned frame_idx m rest (i + 1) next
      else (next, Numeric.obj_of_detection frame_idx d)
             :: numeric_spawned frame_idx m rest (i + 1) (next + 1)
  end.

(** The tracks the grace period keeps when none of them is matched. *)
Definition numeric_within_grace {A : arithmetic} (frame_idx : Z)
    (tracks : list (Z * Numeric.obj_data A)) : list (Z * Numeric.obj_data A) :=
  filter (fun e => frame_idx - Numeric.last_seen_frame (snd e) < grace_period) tracks.

(** The entries for one new track per detection, numbered from [next]. *)
Definition numeric_all_spawned {A : arithmetic} (frame_idx : Z)
    (dets : list (Numeric.detection A)) (next : Z) : list (Z * Numeric.obj_data A) :=
  zip (seqZ next (Z.of_nat (length dets))) (map (Numeric.obj_of_detection frame_idx) dets).

(** A box, a detection and a track with integer corners in the exact
    arithmetic. *)
Definition exact_box (x1 y1 x2 y2 : Z) : Numeric.bbox exact_arithmetic :=
  Numeric.Build_bbox (A := exact_arithmetic)
    (inject_Z x1) (inject_Z y1) (inject_Z x2) (inject_Z y2).

Definition exact_detection (x1 y1 x2 y2 : Z) : Numeric.detection exact_arithmetic :=
  Numeric.Build_detection (A := exact_arithmetic) (exact_box x1 y1 x2 y2) (9 # 10) 2
    (calculate_centroid (xyxy (box x1 y1 x2 y2))).

Definition exact_track (x1 y1 x2 y2 : Z) : Numeric.obj_data exact_arithmetic :=
  Numeric.obj_of_detection 0 (exact_detection x1 y1 x2 y2).

(** The boxes, detections, tracks and trackers of the exact model as
    values over [exact_arithmetic]. *)
Definition exact_of_bbox (b : bbox) : Numeric.bbox exact_arithmetic :=
  Numeric.Build_bbox (A := exact_arithmetic) (bx1 b) (by1 b) (bx2 b) (by2 b).

Definition exact_of_detection (d : detection) : Numeric.detection exact_arithmetic :=
  Numeric.Build_detection (A := exact_arithmetic)
    (exact_of_bbox (det_bbox d)) (det_conf d) (det_cls d) (det_centroid d).

Definition exact_of_obj (data : obj_data) : Numeric.obj_data exact_arithmetic :=
  Numeric.Build_obj_data (A := exact_arithmetic)
    (exact_of_bbox (obj_bbox data)) (obj_centroid data) (obj_cls data)
    (last_seen_frame data).

Definition exact_of_tracks (tracks : list (Z * obj_data))
    : list (Z * Numeric.obj_data exact_arithmetic) :=
  map (fun e => (fst e, exact_of_obj (snd e))) tracks.

Definition exact_of_tracker (t : tracker) : Numeric.tracker exact_arithmetic :=
  Numeric.Build_tracker (A := exact_arithmetic)
    (next_object_id t) (exact_of_tracks (tracked_objects t)).

Definition py_map {X Y : Type} (f : X -> Y) (m : py X) : py Y :=
  match m with
  | Ret x => Ret (f x)
  | Raise e => Raise e
  end.
(** * Properties *)

Example scenario_wrong :
  fst (run_calls default_config (map scenario_call [(50,200); (50,150); (50,90)]) fresh_globals)
  = Ret [None; Some "correct"; Some "wrong"].
Proof. vm_compute. reflexivity. Qed.

(** The correct-way scenario of the specification. *)
Example scenario_correct :
  fst (run_calls default_config (map scenario_call [(50,50); (50,110); (50,180)]) fresh_globals)
  = Ret [None; Some "correct"; Some "correct"].
Proof. vm_compute. reflexivity. Qed.

(** Boxes without area: the guard of line 287 answers, no division. *)
Example iou_of_points : iou (xyxy (box 5 5 5 5)) (xyxy (box 5 5 5 5)) = Ret 0%Q.
Proof. reflexivity. Qed.

Example iou_of_mirrored_box : iou (xyxy (box 10 0 0 10)) (xyxy (box 0 0 10 10)) = Ret 0%Q.
Proof. reflexivity. Qed.

(** A detection without area matches no track and spawns one. *)
Example degenerate_detection_spawns :
  live_ids (process_video_for_wrong_way default_config 400 300
     [[box 0 0 10 10]; [box 3 3 3 9]] fresh_globals)
  = Some [0; 1].
Proof. vm_compute. reflexivity. Qed.

(** Two tracks over one detection: the earlier one takes it although the
    later one overlaps it more. *)
Example contested_run :
  live_tracks (process_video_for_wrong_way default_config 400 300
     [[box 0 0 10 8; box 0 0 10 10]; [box 0 0 10 10]] fresh_globals)
  = Some [(0, obj_of_detection 1 (detection_of_box (box 0 0 10 10)));
          (1, obj_of_detection 0 (detection_of_box (box 0 0 10 10)))].
Proof. vm_compute. reflexivity. Qed.

Example iou_scenario :
  live_ids (process_video_for_wrong_way default_config 400 300
     [[box 0 0 10 10]; [box 0 0 10 10; box 100 100 110 110]] fresh_globals)
  = Some [0; 1].
Proof. vm_compute. reflexivity. Qed.


(** ** The classifier *)

Section Classifier.

Variable cfg : config.

Lemma head_oldest (l : list (Z * Z)) :
  (2 <= length l)%nat -> head l = Some (oldest l).
Proof.
  unfold oldest. destruct l as [|a l]; simpl; [lia | reflexivity].
Qed.

Lemma last_newest (l : list (Z * Z)) :
  (2 <= length l)%nat -> last l = Some (newest l).
Proof.
  intros Hl. unfold newest. rewrite last_lookup.
  replace (length l - 1)%nat with (Nat.pred (length l)) by lia.
  destruct (l !! Nat.pred (length l)) eqn:E; [reflexivity|].
  apply lookup_ge_None in E. lia.
Qed.

(** With fewer than two stored centroids the call returns [None]. *)
Lemma determine_direction_short object_id c fw fh g :
  (length (items (appended_history cfg object_id c g)) < 2)%nat ->
  fst (determine_direction cfg object_id c fw fh g) = Ret None.
Proof.
  intros Hl. unfold determine_direction.
  apply Nat.ltb_lt in Hl. rewrite Hl. reflexivity.
Qed.

(** With two or more, the result is the verdict of [classify_motion] on the
    oldest and newest stored centroid. *)
Lemma determine_direction_long object_id c fw fh g :
  let h := items (appended_history cfg object_id c g) in
  let g1 := set_history g (<[object_id := appended_history cfg object_id c g]>
                             (object_centroid_history g)) in
  (2 <= length h)%nat ->
  fst (determine_direction cfg object_id c fw fh g) =
    (do r <- classify_motion cfg (fst (newest h) - fst (oldest h))
               (snd (newest h) - snd (oldest h)) (newest h)
               (init_detection_line cfg fw fh g1) in
     Ret (verdict (fst r) (snd r))).
Proof.
  intros h g1 Hl. unfold determine_direction.
  fold h. destruct (length h <? 2)%nat eqn:E.
  - apply Nat.ltb_lt in E. lia.
  - rewrite (head_oldest h Hl), (last_newest h Hl). reflexivity.
Qed.

Lemma init_line_vertical fw fh g h :
  is_vertical cfg = true ->
  DETECTION_LINE_Y (init_detection_line cfg fw fh (set_history g h))
  = Some (boundary_line cfg fw fh g).
Proof.
  unfold is_vertical, init_detection_line, boundary_line, is_vertical. intros ->.
  simpl. destruct (DETECTION_LINE_Y g) eqn:E; simpl.
  - destruct (String.eqb (FLOW_TYPE cfg) "horizontal_flow" && is_None (DETECTION_LINE_X g));
      simpl; assumption.
  - reflexivity.
Qed.

Lemma init_line_horizontal fw fh g h :
  is_vertical cfg = false -> is_horizontal cfg = true ->
  DETECTION_LINE_X (init_detection_line cfg fw fh (set_history g h))
  = Some (boundary_line cfg fw fh g).
Proof.
  unfold is_vertical, is_horizontal, init_detection_line, boundary_line, is_vertical.
  intros -> ->. simpl. destruct (DETECTION_LINE_X g) eqn:E; simpl.
  - assumption.
  - reflexivity.
Qed.

(** Below or at the threshold no direction is derived. *)
Lemma classify_motion_still dx dy c g :
  (is_vertical cfg = true -> Z.abs dy <= MIN_MOVEMENT_PIXELS cfg) ->
  (is_vertical cfg = false -> Z.abs dx <= MIN_MOVEMENT_PIXELS cfg) ->
  classify_motion cfg dx dy c g = Ret (None, false).
Proof.
  unfold classify_motion, is_vertical. intros Hv Hh.
  destruct (String.eqb (FLOW_TYPE cfg) "vertical_flow").
  - specialize (Hv eq_refl).
    destruct (Z.abs dy >? MIN_MOVEMENT_PIXELS cfg) eqn:E; [|reflexivity].
    apply Z.gtb_lt in E. lia.
  - specialize (Hh eq_refl).
    destruct (String.eqb (FLOW_TYPE cfg) "horizontal_flow"); [|reflexivity].
    destruct (Z.abs dx >? MIN_MOVEMENT_PIXELS cfg) eqn:E; [|reflexivity].
    apply Z.gtb_lt in E. lia.
Qed.

(** The wrong-way test against a line that is set. *)
Lemma wrong_way_test_set direction towards against c line :
  wrong_way_test cfg direction towards against c (Some line) =
  Ret ((String.eqb (EXPECTED_DIRECTION cfg) towards && String.eqb direction against
          && (c <? line))
       || (String.eqb (EXPECTED_DIRECTION cfg) against && String.eqb direction towards
             && (c >? line))).
Proof.
  unfold wrong_way_test.
  destruct (String.eqb (EXPECTED_DIRECTION cfg) towards && String.eqb direction against);
    simpl.
  - destruct (c <? line); simpl; [reflexivity|].
    destruct (String.eqb (EXPECTED_DIRECTION cfg) against && String.eqb direction towards);
      reflexivity.
  - destruct (String.eqb (EXPECTED_DIRECTION cfg) against && String.eqb direction towards);
      reflexivity.
Qed.

Ltac split_expected :=
  destruct (String.eqb_spec (EXPECTED_DIRECTION cfg) "down") as [->|?];
  [|destruct (String.eqb_spec (EXPECTED_DIRECTION cfg) "up") as [->|?];
    [|destruct (String.eqb_spec (EXPECTED_DIRECTION cfg) "right") as [->|?];
      [|destruct (String.eqb_spec (EXPECTED_DIRECTION cfg) "left") as [->|?]]]].

Lemma eqb_literal_false (a b : string) : a <> b -> String.eqb b a = false.
Proof. intros H. apply String.eqb_neq. congruence. Qed.

Lemma wrong_way_vertical (dy c line : Z) :
  (String.eqb (EXPECTED_DIRECTION cfg) "down"
     && String.eqb (if dy >? 0 then "down" else "up") "up" && (c <? line))
  || (String.eqb (EXPECTED_DIRECTION cfg) "up"
        && String.eqb (if dy >? 0 then "down" else "up") "down" && (c >? line))
  = String.eqb (opposite (if 0 <? dy then "down" else "up")) (EXPECTED_DIRECTION cfg)
    && on_origin_side (EXPECTED_DIRECTION cfg) c line.
Proof.
  rewrite Z.gtb_ltb, (Z.gtb_ltb c line). unfold on_origin_side.
  split_expected;
    (destruct (0 <? dy);
     [change (opposite "down") with "up" | change (opposite "up") with "down"]);
    repeat match goal with
           | H : EXPECTED_DIRECTION cfg <> _ |- _ =>
               rewrite ?(eqb_literal_false _ _ H), ?(proj2 (String.eqb_neq _ _) H);
               clear H
           end; simpl;
    destruct (c <? line), (line <? c); reflexivity.
Qed.

Lemma wrong_way_horizontal (dx c line : Z) :
  (String.eqb (EXPECTED_DIRECTION cfg) "right"
     && String.eqb (if dx >? 0 then "right" else "left") "left" && (c <? line))
  || (String.eqb (EXPECTED_DIRECTION cfg) "left"
        && String.eqb (if dx >? 0 then "right" else "left") "right" && (c >? line))
  = String.eqb (opposite (if 0 <? dx then "right" else "left")) (EXPECTED_DIRECTION cfg)
    && on_origin_side (EXPECTED_DIRECTION cfg) c line.
Proof.
  rewrite Z.gtb_ltb, (Z.gtb_ltb c line). unfold on_origin_side.
  split_expected;
    (destruct (0 <? dx);
     [change (opposite "right") with "left" | change (opposite "left") with "right"]);
    repeat match goal with
           | H : EXPECTED_DIRECTION cfg <> _ |- _ =>
               rewrite ?(eqb_literal_false _ _ H), ?(proj2 (String.eqb_neq _ _) H);
               clear H
           end; simpl;
    destruct (c <? line), (line <? c); reflexivity.
Qed.

(** A call that has two stored centroids and a displacement above the
    threshold decides, and decides by [wrong_way_condition]. *)
Lemma determine_direction_decides object_id c fw fh g :
  let h := items (appended_history cfg object_id c g) in
  (2 <= length h)%nat ->
  is_vertical cfg = true \/ is_horizontal cfg = true ->
  MIN_MOVEMENT_PIXELS cfg < Z.abs (displacement cfg h) ->
  fst (determine_direction cfg object_id c fw fh g) =
    Ret (Some (if wrong_way_condition cfg h (boundary_line cfg fw fh g)
               then "wrong" else "correct")).
Proof.
  intros h Hl Hflow Hmove.
  rewrite determine_direction_long by exact Hl. fold h.
  unfold wrong_way_condition, raw_direction, displacement, along in *.
  unfold classify_motion. fold (is_vertical cfg). fold (is_horizontal cfg).
  destruct (is_vertical cfg) eqn:Ev.
  - apply Z.gtb_lt in Hmove. rewrite Hmove.
    rewrite init_line_vertical by exact Ev.
    rewrite wrong_way_test_set. simpl. rewrite wrong_way_vertical.
    unfold verdict.
    match goal with |- context [if ?b then Some "wrong" else _] => destruct b end;
      [reflexivity|].
    destruct (snd (newest h) - snd (oldest h) >? 0); reflexivity.
  - destruct Hflow as [Hflow|Hflow]; [discriminate|]. rewrite Hflow.
    apply Z.gtb_lt in Hmove. rewrite Hmove.
    rewrite init_line_horizontal by assumption.
    rewrite wrong_way_test_set. simpl. rewrite wrong_way_horizontal.
    unfold verdict.
    match goal with |- context [if ?b then Some "wrong" else _] => destruct b end;
      [reflexivity|].
    destruct (fst (newest h) - fst (oldest h) >? 0); reflexivity.
Qed.

(** A call whose displacement does not exceed the threshold abstains. *)
Lemma determine_direction_still object_id c fw fh g :
  let h := items (appended_history cfg object_id c g) in
  Z.abs (displacement cfg h) <= MIN_MOVEMENT_PIXELS cfg ->
  fst (determine_direction cfg object_id c fw fh g) = Ret None.
Proof.
  intros h Hmove.
  destruct (Nat.lt_ge_cases (length h) 2) as [Hl|Hl].
  - apply determine_direction_short. exact Hl.
  - rewrite determine_direction_long by exact Hl. fold h.
    unfold displacement, along in Hmove.
    rewrite classify_motion_still; [reflexivity| |]; intros Ev; rewrite Ev in Hmove;
      exact Hmove.
Qed.

(** The classifier raises no exception. *)
Lemma determine_direction_total object_id c fw fh g :
  exists v, fst (determine_direction cfg object_id c fw fh g) = Ret v.
Proof.
  set (h := items (appended_history cfg object_id c g)).
  destruct (Nat.lt_ge_cases (length h) 2) as [Hl|Hl].
  { eexists. apply determine_direction_short. exact Hl. }
  destruct (Z.le_gt_cases (Z.abs (displacement cfg h)) (MIN_MOVEMENT_PIXELS cfg)) as [Hm|Hm].
  { eexists. apply determine_direction_still. exact Hm. }
  destruct (is_vertical cfg) eqn:Ev.
  { eexists. apply determine_direction_decides; auto. }
  destruct (is_horizontal cfg) eqn:Eh.
  { eexists. apply determine_direction_decides; auto. }
  exists None. rewrite determine_direction_long by exact Hl.
  unfold classify_motion. fold (is_vertical cfg). fold (is_horizontal cfg).
  rewrite Ev, Eh. reflexivity.
Qed.

End Classifier.

(** ** The bounded history *)

Section History.

Variable cfg : config.

Lemma deque_append_maxlen d x : maxlen (deque_append d x) = maxlen d.
Proof. reflexivity. Qed.

Lemma deque_append_length d x :
  (length (items d) <= maxlen d)%nat ->
  (length (items (deque_append d x)) <= maxlen d)%nat.
Proof.
  intros Hd. unfold deque_append. simpl.
  destruct (maxlen d <? length (items d ++ [x]))%nat eqn:E.
  - destruct (items d ++ [x]) as [|a l] eqn:El.
    + simpl. lia.
    + assert (Hlen : length (items d ++ [x]) = S (length l)) by (rewrite El; reflexivity).
      rewrite length_app in Hlen. simpl in *. lia.
  - apply Nat.ltb_ge in E. exact E.
Qed.

(** Append below capacity, slide at capacity. *)
Lemma deque_append_items d x :
  (length (items d) <= maxlen d)%nat ->
  items (deque_append d x) =
    if (length (items d) <? maxlen d)%nat then items d ++ [x] else tail (items d ++ [x]).
Proof.
  intros Hd. unfold deque_append. simpl. rewrite length_app. simpl.
  destruct (length (items d) <? maxlen d)%nat eqn:E.
  - apply Nat.ltb_lt in E.
    destruct (maxlen d <? length (items d) + 1)%nat eqn:E'; [|reflexivity].
    apply Nat.ltb_lt in E'. lia.
  - apply Nat.ltb_ge in E.
    destruct (maxlen d <? length (items d) + 1)%nat eqn:E'; [reflexivity|].
    apply Nat.ltb_ge in E'. lia.
Qed.

Lemma init_line_history fw fh g :
  object_centroid_history (init_detection_line cfg fw fh g) = object_centroid_history g.
Proof.
  unfold init_detection_line.
  destruct (String.eqb (FLOW_TYPE cfg) "vertical_flow" && is_None (DETECTION_LINE_Y g));
    [reflexivity|].
  destruct (String.eqb (FLOW_TYPE cfg) "horizontal_flow" && is_None (DETECTION_LINE_X g));
    reflexivity.
Qed.

(** The only change a call makes to the histories. *)
Lemma determine_direction_history object_id c fw fh g :
  object_centroid_history (snd (determine_direction cfg object_id c fw fh g)) =
    <[object_id := appended_history cfg object_id c g]> (object_centroid_history g).
Proof.
  unfold determine_direction.
  destruct (length (items (appended_history cfg object_id c g)) <? 2)%nat; [reflexivity|].
  destruct (head (items (appended_history cfg object_id c g))); [|reflexivity].
  destruct (last (items (appended_history cfg object_id c g))); [|reflexivity].
  simpl. rewrite init_line_history. reflexivity.
Qed.

Lemma appended_history_bounded object_id c g :
  history_bounded cfg g ->
  maxlen (appended_history cfg object_id c g) = HISTORY_BUFFER_SIZE cfg /\
  (length (items (appended_history cfg object_id c g))
   <= maxlen (appended_history cfg object_id c g))%nat.
Proof.
  intros Hg. unfold appended_history.
  destruct (object_centroid_history g !! object_id) as [d|] eqn:E.
  - destruct (Hg _ _ E) as [Hm Hl]. rewrite deque_append_maxlen. split; [exact Hm|].
    apply deque_append_length. exact Hl.
  - rewrite deque_append_maxlen. split; [reflexivity|].
    apply deque_append_length. simpl. lia.
Qed.

Lemma determine_direction_bounded object_id c fw fh g :
  history_bounded cfg g ->
  history_bounded cfg (snd (determine_direction cfg object_id c fw fh g)).
Proof.
  intros Hg k d. rewrite determine_direction_history.
  destruct (decide (object_id = k)) as [->|Hne].
  - rewrite lookup_insert_eq. intros [= <-]. apply appended_history_bounded. exact Hg.
  - rewrite lookup_insert_ne by exact Hne. apply Hg.
Qed.

Lemma fresh_globals_bounded : history_bounded cfg fresh_globals.
Proof. intros k d. simpl. rewrite lookup_empty. discriminate. Qed.

Lemma run_calls_bounded cs : forall g,
  history_bounded cfg g -> history_bounded cfg (snd (run_calls cfg cs g)).
Proof.
  induction cs as [|c cs IH]; intros g Hg; simpl; [exact Hg|].
  pose proof (determine_direction_bounded (call_id c) (call_centroid c)
                (call_width c) (call_height c) g Hg) as Hstep.
  unfold do_call. destruct (determine_direction _ _ _ _ _ g) as [[v|e] g']; simpl in *.
  - specialize (IH g' Hstep).
    destruct (run_calls cfg cs g') as [[vs|e] g'']; exact IH.
  - exact Hstep.
Qed.

Lemma history_items_bounded g object_id :
  history_bounded cfg g -> (length (history_items g object_id) <= HISTORY_BUFFER_SIZE cfg)%nat.
Proof.
  intros Hg. unfold history_items.
  destruct (object_centroid_history g !! object_id) as [d|] eqn:E; [|simpl; lia].
  destruct (Hg _ _ E) as [Hm Hl]. lia.
Qed.

Lemma appended_history_items object_id c g :
  history_bounded cfg g ->
  items (appended_history cfg object_id c g) =
    if (length (history_items g object_id) <? HISTORY_BUFFER_SIZE cfg)%nat
    then history_items g object_id ++ [c]
    else tail (history_items g object_id ++ [c]).
Proof.
  intros Hg. unfold appended_history, history_items.
  destruct (object_centroid_history g !! object_id) as [d|] eqn:E.
  - destruct (Hg _ _ E) as [Hm Hl]. rewrite deque_append_items by exact Hl.
    rewrite Hm. reflexivity.
  - rewrite deque_append_items by (simpl; lia). reflexivity.
Qed.

End History.

(** C7. Whatever calls the classifier has served since the histories were
    reset, every identity's history holds at most [HISTORY_BUFFER_SIZE]
    centroids. The next call stores, for its identity, the old history with
    the new centroid at the end while the old history is below capacity,
    and otherwise the same without its oldest entry; the stored history is
    again within the capacity, and the histories of the other identities
    are as they were. *)
Theorem history_capacity_invariant (cfg : config) (cs : list call) (object_id : Z)
    (c : Z * Z) (fw fh : Z) :
  let g := snd (run_calls cfg cs fresh_globals) in
  let g' := snd (determine_direction cfg object_id c fw fh g) in
  let old := history_items g object_id in
  (forall id, (length (history_items g id) <= HISTORY_BUFFER_SIZE cfg)%nat) /\
  history_items g' object_id =
    (if (length old <? HISTORY_BUFFER_SIZE cfg)%nat
     then old ++ [c] else tail (old ++ [c])) /\
  (length (history_items g' object_id) <= HISTORY_BUFFER_SIZE cfg)%nat /\
  (forall id, id <> object_id -> history_items g' id = history_items g id).
Proof.
  intros g g' old.
  assert (Hg : history_bounded cfg g)
    by (apply run_calls_bounded, fresh_globals_bounded).
  assert (Hstored : history_items g' object_id
                    = items (appended_history cfg object_id c g)).
  { unfold history_items, g'.
    rewrite determine_direction_history, lookup_insert_eq. reflexivity. }
  split; [intros id; apply history_items_bounded; exact Hg|].
  split; [rewrite Hstored; apply appended_history_items; exact Hg|].
  split.
  - apply history_items_bounded, determine_direction_bounded, Hg.
  - intros id Hne. unfold history_items, g'.
    rewrite determine_direction_history, lookup_insert_ne by congruence. reflexivity.
Qed.

(** C9. The classifier abstains when, after the append, the history holds
    fewer than two centroids, whatever the centroid, and when the absolute
    displacement along the flow axis is strictly below
    [MIN_MOVEMENT_PIXELS], whatever the length of the history. *)
Theorem abstains_when_short_or_still (cfg : config) (object_id : Z) (c : Z * Z)
    (fw fh : Z) (g : globals) :
  let h := items (appended_history cfg object_id c g) in
  (length h < 2)%nat \/ Z.abs (displacement cfg h) < MIN_MOVEMENT_PIXELS cfg ->
  fst (determine_direction cfg object_id c fw fh g) = Ret None.
Proof.
  intros h [Hshort|Hstill].
  - apply determine_direction_short. exact Hshort.
  - apply determine_direction_still. fold h. lia.
Qed.

Lemma abstains_when_short_or_still_witness :
  let g := snd (run_calls default_config
                  (map scenario_call (repeat (50, 100) 10)) fresh_globals) in
  length (history_items g 0) = HISTORY_BUFFER_SIZE default_config /\
  fst (determine_direction default_config 0 (50, 105) 400 300 g) = Ret None.
Proof.
  intros g. split; [vm_compute; reflexivity|].
  apply abstains_when_short_or_still. right. vm_compute. reflexivity.
Defined.

(** C1. When a call decides (two or more stored centroids, displacement
    along the flow axis above the threshold), it returns [wrong] exactly
    when the raw direction is the opposite of [EXPECTED_DIRECTION] and the
    current centroid is on the origin side of the detection line, and
    [correct] in every other case. On the history (50,200), (50,150),
    (50,90) of the 400x300 scenario the line is at 150 and the last verdict
    is [wrong]; on (50,50), (50,110), (50,180) it is [correct]. *)
Theorem wrong_way_rule (cfg : config) (object_id : Z) (c : Z * Z) (fw fh : Z)
    (g : globals) :
  let h := items (appended_history cfg object_id c g) in
  let result := fst (determine_direction cfg object_id c fw fh g) in
  let against_flow := opposite (raw_direction cfg h) = EXPECTED_DIRECTION cfg in
  let before_line :=
    on_origin_side (EXPECTED_DIRECTION cfg) (along cfg (newest h))
      (boundary_line cfg fw fh g) = true in
  (2 <= length h)%nat ->
  is_vertical cfg = true \/ is_horizontal cfg = true ->
  MIN_MOVEMENT_PIXELS cfg < Z.abs (displacement cfg h) ->
  (result = Ret (Some "wrong") <-> against_flow /\ before_line) /\
  (result = Ret (Some "correct") <-> ~ (against_flow /\ before_line)) /\
  scenario_line [(50, 200); (50, 150); (50, 90)] = Some 150 /\
  scenario_verdicts [(50, 200); (50, 150); (50, 90)]
    = Ret [None; Some "correct"; Some "wrong"] /\
  scenario_verdicts [(50, 50); (50, 110); (50, 180)]
    = Ret [None; Some "correct"; Some "correct"].
Proof.
  intros h result against_flow before_line Hl Hflow Hmove.
  assert (Hres : result = Ret (Some (if wrong_way_condition cfg h (boundary_line cfg fw fh g)
                                      then "wrong" else "correct")))
    by (apply determine_direction_decides; assumption).
  assert (Hcond : wrong_way_condition cfg h (boundary_line cfg fw fh g) = true
                  <-> against_flow /\ before_line).
  { unfold wrong_way_condition, against_flow, before_line.
    rewrite andb_true_iff, String.eqb_eq. reflexivity. }
  rewrite Hres.
  split; [|split; [|repeat split; vm_compute; reflexivity]];
    destruct (wrong_way_condition cfg h (boundary_line cfg fw fh g)); split.
  - intros _. apply Hcond. reflexivity.
  - reflexivity.
  - discriminate.
  - intros Hc. apply Hcond in Hc. discriminate.
  - discriminate.
  - intros Hn. exfalso. apply Hn, Hcond. reflexivity.
  - intros _ Hc. apply Hcond in Hc. discriminate.
  - reflexivity.
Qed.

Lemma wrong_way_rule_witness :
  let g := snd (run_calls default_config
                  (map scenario_call [(50, 200); (50, 150)]) fresh_globals) in
  fst (determine_direction default_config 0 (50, 90) 400 300 g) = Ret (Some "wrong")
  <-> opposite (raw_direction default_config
                  (items (appended_history default_config 0 (50, 90) g)))
      = EXPECTED_DIRECTION default_config
      /\ on_origin_side (EXPECTED_DIRECTION default_config)
           (along default_config
              (newest (items (appended_history default_config 0 (50, 90) g))))
           (boundary_line default_config 400 300 g) = true.
Proof.
  intros g.
  refine (proj1 (wrong_way_rule default_config 0 (50, 90) 400 300 g _ _ _)).
  - vm_compute. lia.
  - left. reflexivity.
  - vm_compute. reflexivity.
Defined.

(** C3. The code and its own comments disagree at the boundary. The
    comments of lines 80 and 471 call [MIN_MOVEMENT_PIXELS] the minimum
    movement for a decision, but lines 156 and 172 test
    [abs(d) > MIN_MOVEMENT_PIXELS]: a call with two or more stored
    centroids whose absolute displacement along the flow axis equals the
    minimum returns [None]. *)
Theorem abstains_at_exact_threshold (cfg : config) (object_id : Z) (c : Z * Z)
    (fw fh : Z) (g : globals) :
  let h := items (appended_history cfg object_id c g) in
  (2 <= length h)%nat ->
  Z.abs (displacement cfg h) = MIN_MOVEMENT_PIXELS cfg ->
  fst (determine_direction cfg object_id c fw fh g) = Ret None.
Proof.
  intros h _ Heq. apply determine_direction_still. fold h. lia.
Qed.

(** With the default configuration (vertical flow, minimum 10), the
    history (50,100), (50,110) has a displacement of exactly 10 pixels and
    the call returns [None]. *)
Lemma abstains_at_exact_threshold_witness :
  let g := snd (run_calls default_config [scenario_call (50, 100)] fresh_globals) in
  items (appended_history default_config 0 (50, 110) g) = [(50, 100); (50, 110)] /\
  Z.abs (displacement default_config [(50, 100); (50, 110)])
    = MIN_MOVEMENT_PIXELS default_config /\
  fst (determine_direction default_config 0 (50, 110) 400 300 g) = Ret None.
Proof.
  intros g. split; [reflexivity|]. split; [reflexivity|].
  apply (abstains_at_exact_threshold default_config 0 (50, 110) 400 300 g).
  - vm_compute. lia.
  - reflexivity.
Defined.

(** ** Geometry *)

Section Geometry.

Local Open Scope Q_scope.

Lemma Qltb_lt (a b : Q) : Qltb a b = true <-> a < b.
Proof.
  unfold Qltb. rewrite negb_true_iff. split.
  - intros H. apply Qnot_le_lt. intros Hle. apply Qle_bool_iff in Hle. congruence.
  - intros H. destruct (Qle_bool b a) eqn:E; [|reflexivity].
    apply Qle_bool_iff in E. lra.
Qed.

Lemma Qltb_ge (a b : Q) : Qltb a b = false <-> b <= a.
Proof.
  split.
  - intros H. apply Qnot_lt_le. intros Hlt. apply Qltb_lt in Hlt. congruence.
  - intros H. destruct (Qltb a b) eqn:E; [|reflexivity]. apply Qltb_lt in E. lra.
Qed.

Lemma py_max_bounds (a b : Q) : a <= py_max a b /\ b <= py_max a b.
Proof.
  unfold py_max. destruct (Qltb a b) eqn:E.
  - apply Qltb_lt in E. lra.
  - apply Qltb_ge in E. lra.
Qed.

Lemma py_min_bounds (a b : Q) : py_min a b <= a /\ py_min a b <= b.
Proof.
  unfold py_min. destruct (Qltb b a) eqn:E.
  - apply Qltb_lt in E. lra.
  - apply Qltb_ge in E. lra.
Qed.

(** [max(0, x)] is the integer [0] itself when [x] is not positive. *)
Lemma py_max_0_nonpos (x : Q) : x <= 0 -> py_max 0 x = 0.
Proof. intros H. unfold py_max. apply Qltb_ge in H. rewrite H. reflexivity. Qed.

Lemma py_max_0_nonneg (x : Q) : 0 <= py_max 0 x.
Proof. apply py_max_bounds. Qed.

(** The division of line 287 is reached with a positive denominator only,
    so [iou] returns. *)
Lemma iou_total (bbox1 bbox2 : bbox) : iou bbox1 bbox2 = Ret (iou_value bbox1 bbox2).
Proof.
  unfold iou_value, iou, py_div.
  destruct (Qltb 0 (union_area bbox1 bbox2)) eqn:E; [|reflexivity].
  apply Qltb_lt in E.
  destruct (Qeq_bool (union_area bbox1 bbox2) 0) eqn:E0; [|reflexivity].
  apply Qeq_bool_iff in E0. lra.
Qed.

Lemma iou_guard (bbox1 bbox2 : bbox) :
  union_area bbox1 bbox2 <= 0 -> iou bbox1 bbox2 = Ret 0.
Proof. intros H. unfold iou. apply Qltb_ge in H. rewrite H. reflexivity. Qed.

Lemma zero_area_sides (b : bbox) : zero_area b -> bx1 b == bx2 b \/ by1 b == by2 b.
Proof.
  unfold zero_area, box_area. intros H.
  destruct (Qmult_integral _ _ H) as [H0|H0]; [left | right]; lra.
Qed.

Lemma intersection_zero_l (bbox1 bbox2 : bbox) :
  zero_area bbox1 -> intersection_area bbox1 bbox2 == 0.
Proof.
  intros H. unfold intersection_area. cbv zeta.
  pose proof (py_max_bounds (bx1 bbox1) (bx1 bbox2)) as [Hx1 _].
  pose proof (py_min_bounds (bx2 bbox1) (bx2 bbox2)) as [Hx2 _].
  pose proof (py_max_bounds (by1 bbox1) (by1 bbox2)) as [Hy1 _].
  pose proof (py_min_bounds (by2 bbox1) (by2 bbox2)) as [Hy2 _].
  destruct (zero_area_sides _ H) as [Hs|Hs].
  - rewrite (py_max_0_nonpos (py_min (bx2 bbox1) (bx2 bbox2) - py_max (bx1 bbox1) (bx1 bbox2)))
      by lra. ring.
  - rewrite (py_max_0_nonpos (py_min (by2 bbox1) (by2 bbox2) - py_max (by1 bbox1) (by1 bbox2)))
      by lra. ring.
Qed.

Lemma intersection_zero_r (bbox1 bbox2 : bbox) :
  zero_area bbox2 -> intersection_area bbox1 bbox2 == 0.
Proof.
  intros H. unfold intersection_area. cbv zeta.
  pose proof (py_max_bounds (bx1 bbox1) (bx1 bbox2)) as [_ Hx1].
  pose proof (py_min_bounds (bx2 bbox1) (bx2 bbox2)) as [_ Hx2].
  pose proof (py_max_bounds (by1 bbox1) (by1 bbox2)) as [_ Hy1].
  pose proof (py_min_bounds (by2 bbox1) (by2 bbox2)) as [_ Hy2].
  destruct (zero_area_sides _ H) as [Hs|Hs].
  - rewrite (py_max_0_nonpos (py_min (bx2 bbox1) (bx2 bbox2) - py_max (bx1 bbox1) (bx1 bbox2)))
      by lra. ring.
  - rewrite (py_max_0_nonpos (py_min (by2 bbox1) (by2 bbox2) - py_max (by1 bbox1) (by1 bbox2)))
      by lra. ring.
Qed.

Lemma iou_value_no_overlap (bbox1 bbox2 : bbox) :
  intersection_area bbox1 bbox2 == 0 -> iou_value bbox1 bbox2 == 0.
Proof.
  intros H. unfold iou_value, iou, py_div.
  destruct (Qltb 0 (union_area bbox1 bbox2)); [|reflexivity].
  destruct (Qeq_bool (union_area bbox1 bbox2) 0); [reflexivity|].
  unfold Qdiv. rewrite H. ring.
Qed.

(** A box without area has IOU zero with every box. *)
Lemma iou_zero_area (bbox1 bbox2 : bbox) :
  zero_area bbox1 \/ zero_area bbox2 -> iou_value bbox1 bbox2 == 0.
Proof.
  intros [H|H]; apply iou_value_no_overlap.
  - apply intersection_zero_l. exact H.
  - apply intersection_zero_r. exact H.
Qed.

End Geometry.

(** ** The inner loop *)

Section Scan.

Variable bbox1 : bbox.
Variable m : gset Z.

Lemma not_consumed_false (i : Z) : i ∉ m -> bool_decide (i ∈ m) = false.
Proof. intros H. apply bool_decide_eq_false. exact H. Qed.

Lemma scan_detections_cons d rest i best :
  scan_detections bbox1 m (d :: rest) i best =
  scan_detections bbox1 m rest (i + 1) (scan_step bbox1 m d i best).
Proof.
  unfold scan_step. simpl. destruct (bool_decide (i ∈ m)); [reflexivity|].
  rewrite iou_total. reflexivity.
Qed.

Lemma scan_step_mono d i best : (snd best <= snd (scan_step bbox1 m d i best))%Q.
Proof.
  unfold scan_step. destruct (bool_decide (i ∈ m)); [lra|].
  destruct (Qltb (snd best) (iou_value bbox1 (det_bbox d))) eqn:E; [|lra].
  apply Qltb_lt in E. simpl. lra.
Qed.

Lemma scan_detections_total dets : forall i best,
  exists r, scan_detections bbox1 m dets i best = Ret r.
Proof.
  induction dets as [|d rest IH]; intros i best.
  - exists best. reflexivity.
  - rewrite scan_detections_cons. apply IH.
Qed.

(** The result is the initial pair or an unconsumed detection that beats it. *)
Lemma scan_detections_result dets : forall i best r,
  scan_detections bbox1 m dets i best = Ret r ->
  r = best \/
  exists k d, dets !! k = Some d /\ fst r = i + Z.of_nat k /\ (fst r ∉ m) /\
              snd r = iou_value bbox1 (det_bbox d) /\ (snd best < snd r)%Q.
Proof.
  induction dets as [|d rest IH]; intros i best r Hr.
  - simpl in Hr. injection Hr as <-. left. reflexivity.
  - rewrite scan_detections_cons in Hr.
    pose proof (scan_step_mono d i best) as Hmono.
    destruct (IH _ _ _ Hr) as [->|(k & d' & Hk & Hidx & Hnm & Hv & Hlt)].
    + unfold scan_step in *. destruct (bool_decide (i ∈ m)) eqn:Em; [left; reflexivity|].
      destruct (Qltb (snd best) (iou_value bbox1 (det_bbox d))) eqn:E; [|left; reflexivity].
      right. exists 0%nat, d. simpl. apply Qltb_lt in E.
      apply bool_decide_eq_false in Em.
      repeat split; [lia | exact Em | exact E].
    + right. exists (S k), d'. repeat split; try assumption; [lia | lra].
Qed.

(** No unconsumed detection has a larger IOU than the result. *)
Lemma scan_detections_max dets : forall i best r,
  scan_detections bbox1 m dets i best = Ret r ->
  (snd best <= snd r)%Q /\
  forall k d, dets !! k = Some d -> i + Z.of_nat k ∉ m -> (iou_value bbox1 (det_bbox d) <= snd r)%Q.
Proof.
  induction dets as [|d rest IH]; intros i best r Hr.
  - simpl in Hr. injection Hr as <-. split; [lra|]. intros k d Hk. discriminate.
  - rewrite scan_detections_cons in Hr.
    pose proof (scan_step_mono d i best) as Hmono.
    destruct (IH _ _ _ Hr) as [Hle Hall]. split; [lra|].
    intros [|k] d' Hk Hnm; simpl in Hk.
    + injection Hk as <-. replace (i + Z.of_nat 0) with i in Hnm by lia.
      apply not_consumed_false in Hnm.
      unfold scan_step in Hle. rewrite Hnm in Hle.
      destruct (Qltb (snd best) (iou_value bbox1 (det_bbox d))) eqn:E; simpl in Hle; [exact Hle|].
      apply Qltb_ge in E. lra.
    + apply (Hall k d' Hk). replace (i + 1 + Z.of_nat k) with (i + Z.of_nat (S k)) by lia.
      exact Hnm.
Qed.

(** A pair no unconsumed detection beats stays. *)
Lemma scan_detections_keeps dets : forall i best,
  (forall k d, dets !! k = Some d -> i + Z.of_nat k ∉ m -> (iou_value bbox1 (det_bbox d) <= snd best)%Q) ->
  scan_detections bbox1 m dets i best = Ret best.
Proof.
  induction dets as [|d rest IH]; intros i best Hall; [reflexivity|].
  rewrite scan_detections_cons.
  assert (Hstep : scan_step bbox1 m d i best = best).
  { unfold scan_step. destruct (bool_decide (i ∈ m)) eqn:Em; [reflexivity|].
    apply bool_decide_eq_false in Em.
    assert (Hv : (iou_value bbox1 (det_bbox d) <= snd best)%Q).
    { apply (Hall 0%nat d); [reflexivity|]. replace (i + Z.of_nat 0) with i by lia. exact Em. }
    apply Qltb_ge in Hv. rewrite Hv. reflexivity. }
  rewrite Hstep. apply IH. intros k d' Hk Hnm.
  apply (Hall (S k) d' Hk). replace (i + Z.of_nat (S k)) with (i + 1 + Z.of_nat k) by lia.
  exact Hnm.
Qed.

(** The first unconsumed detection of largest IOU is the one selected. *)
Lemma scan_detections_picks dets : forall i best k d,
  dets !! k = Some d ->
  i + Z.of_nat k ∉ m ->
  (snd best < iou_value bbox1 (det_bbox d))%Q ->
  (forall j d', dets !! j = Some d' -> i + Z.of_nat j ∉ m ->
     ((j < k)%nat -> (iou_value bbox1 (det_bbox d') < iou_value bbox1 (det_bbox d))%Q) /\ ((k < j)%nat -> (iou_value bbox1 (det_bbox d') <= iou_value bbox1 (det_bbox d))%Q)) ->
  scan_detections bbox1 m dets i best = Ret (i + Z.of_nat k, iou_value bbox1 (det_bbox d)).
Proof.
  induction dets as [|d0 rest IH]; intros i best k d Hk Hnm Hbest Hall; [discriminate|].
  rewrite scan_detections_cons. destruct k as [|k]; simpl in Hk.
  - injection Hk as ->. replace (i + Z.of_nat 0) with i in * by lia.
    unfold scan_step. apply not_consumed_false in Hnm. rewrite Hnm.
    apply Qltb_lt in Hbest. rewrite Hbest.
    apply scan_detections_keeps. intros j d' Hj Hnj. simpl.
    apply (Hall (S j) d' Hj); [|lia].
    replace (i + Z.of_nat (S j)) with (i + 1 + Z.of_nat j) by lia. exact Hnj.
  - replace (i + Z.of_nat (S k)) with (i + 1 + Z.of_nat k) in * by lia.
    apply IH.
    + exact Hk.
    + exact Hnm.
    + unfold scan_step. destruct (bool_decide (i ∈ m)) eqn:Em; [exact Hbest|].
      destruct (Qltb (snd best) (iou_value bbox1 (det_bbox d0))); [|exact Hbest]. simpl.
      apply bool_decide_eq_false in Em.
      apply (Hall 0%nat d0); [reflexivity | | lia].
      replace (i + Z.of_nat 0) with i by lia. exact Em.
    + intros j d' Hj Hnj.
      destruct (Hall (S j) d' Hj) as [Hlt Hle].
      { replace (i + Z.of_nat (S j)) with (i + 1 + Z.of_nat j) by lia. exact Hnj. }
      split; intros Hjk; [apply Hlt | apply Hle]; lia.
Qed.

End Scan.

(** ** The turn of one track *)

Section Turn.

Variable frame_idx : Z.
Variable dets : list detection.

Lemma best_match_total (bbox1 : bbox) (m : gset Z) :
  best_match bbox1 m dets = Ret (best_of bbox1 m dets).
Proof.
  unfold best_of, best_match.
  destruct (scan_detections_total bbox1 m dets 0 (-1, 0%Q)) as [r Hr].
  rewrite Hr. reflexivity.
Qed.

Lemma threshold_positive : (0 < match_threshold)%Q.
Proof. reflexivity. Qed.

Lemma py_index_lookup {A : Type} (l : list A) (k : nat) (a : A) :
  l !! k = Some a -> py_index l (Z.of_nat k) = Ret a.
Proof.
  intros Hk. pose proof (lookup_lt_Some _ _ _ Hk) as Hlt. unfold py_index.
  destruct (Z.of_nat k <? 0) eqn:E; [apply Z.ltb_lt in E; lia|]. rewrite E. simpl.
  destruct (Z.of_nat (length l) <=? Z.of_nat k) eqn:E'; [apply Z.leb_le in E'; lia|].
  rewrite Nat2Z.id, Hk. reflexivity.
Qed.

(** A claimed index is an unconsumed detection whose IOU with the track's
    box is above the threshold and not below that of any other unconsumed
    detection. *)
Lemma claim_Some (data : obj_data) (m : gset Z) (idx : Z) :
  claim dets data m = Some idx ->
  exists k d, idx = Z.of_nat k /\ dets !! k = Some d /\ (idx ∉ m) /\
    (match_threshold < iou_value (obj_bbox data) (det_bbox d))%Q /\
    forall j d', dets !! j = Some d' -> Z.of_nat j ∉ m ->
      (iou_value (obj_bbox data) (det_bbox d') <= iou_value (obj_bbox data) (det_bbox d))%Q.
Proof.
  unfold claim. cbv zeta. intros Hc.
  pose proof (best_match_total (obj_bbox data) m) as Hr. unfold best_match in Hr.
  destruct (negb (fst (best_of (obj_bbox data) m dets) =? -1)
            && Qltb match_threshold (snd (best_of (obj_bbox data) m dets))) eqn:E;
    [|discriminate].
  injection Hc as <-. apply andb_true_iff in E as [Hne Hthr].
  apply negb_true_iff, Z.eqb_neq in Hne. apply Qltb_lt in Hthr.
  destruct (scan_detections_result _ _ _ _ _ _ Hr) as [Hb|(k & d & Hk & Hidx & Hnm & Hv & _)].
  - rewrite Hb in Hne. simpl in Hne. lia.
  - exists k, d. rewrite Hidx, <- Hv. repeat split; try assumption.
    + rewrite <- Hidx. exact Hnm.
    + intros j d' Hj Hnj. destruct (scan_detections_max _ _ _ _ _ _ Hr) as [_ Hall].
      apply (Hall j d' Hj). exact Hnj.
Qed.

(** No claim: no unconsumed detection is above the threshold. *)
Lemma claim_None (data : obj_data) (m : gset Z) :
  claim dets data m = None <->
  forall j d', dets !! j = Some d' -> Z.of_nat j ∉ m ->
    (iou_value (obj_bbox data) (det_bbox d') <= match_threshold)%Q.
Proof.
  split.
  - unfold claim. cbv zeta. intros Hc j d' Hj Hnj.
    pose proof (best_match_total (obj_bbox data) m) as Hr. unfold best_match in Hr.
    destruct (scan_detections_max _ _ _ _ _ _ Hr) as [_ Hall].
    specialize (Hall j d' Hj Hnj).
    destruct (negb (fst (best_of (obj_bbox data) m dets) =? -1)) eqn:Hne; simpl in Hc.
    + destruct (Qltb match_threshold (snd (best_of (obj_bbox data) m dets))) eqn:Hthr;
        [discriminate|]. apply Qltb_ge in Hthr. lra.
    + apply negb_false_iff, Z.eqb_eq in Hne.
      destruct (scan_detections_result _ _ _ _ _ _ Hr) as [Hb|(k & d & _ & Hidx & _)];
        [|lia].
      rewrite Hb in Hall. simpl in Hall. pose proof threshold_positive. lra.
  - intros Hall. destruct (claim dets data m) as [idx|] eqn:Hc; [|reflexivity].
    destruct (claim_Some _ _ _ Hc) as (k & d & -> & Hk & Hnm & Hthr & _).
    specialize (Hall k d Hk Hnm). lra.
Qed.

(** The body of the outer loop, through [claim] and [track_outcome]. *)
Lemma associate_track_spec (obj_id : Z) (data : obj_data) (nt : dict obj_data)
    (m : gset Z) :
  associate_track frame_idx dets (obj_id, data) (nt, m) =
  Ret (match track_outcome frame_idx dets data (claim dets data m) with
       | Some data' => dict_set obj_id data' nt
       | None => nt
       end,
       consume (claim dets data m) m).
Proof.
  unfold associate_track. simpl. rewrite best_match_total. simpl.
  destruct (claim dets data m) as [idx|] eqn:Hc.
  - destruct (claim_Some _ _ _ Hc) as (k & d & -> & Hk & _).
    unfold claim in Hc. cbv zeta in Hc.
    destruct (negb (fst (best_of (obj_bbox data) m dets) =? -1)
              && Qltb match_threshold (snd (best_of (obj_bbox data) m dets)));
      [|discriminate].
    injection Hc as Hc. rewrite Hc, (py_index_lookup _ _ _ Hk). simpl.
    rewrite Nat2Z.id, Hk. reflexivity.
  - unfold claim in Hc. cbv zeta in Hc.
    destruct (negb (fst (best_of (obj_bbox data) m dets) =? -1)
              && Qltb match_threshold (snd (best_of (obj_bbox data) m dets)));
      [discriminate|].
    simpl. destruct (frame_idx - last_seen_frame data <? grace_period); reflexivity.
Qed.

End Turn.

(** ** One frame of association *)

Section Frame.

Variable frame_idx : Z.
Variable dets : list detection.

Lemma dict_set_fresh {V : Type} (k : Z) (v : V) (d : dict V) :
  k ∉ dict_keys d -> dict_set k v d = d ++ [(k, v)].
Proof.
  induction d as [|[k' v'] d IH]; intros Hk; [reflexivity|].
  simpl in *. apply not_elem_of_cons in Hk as [Hne Hk].
  destruct (k' =? k) eqn:E; [apply Z.eqb_eq in E; congruence|].
  rewrite IH by exact Hk. reflexivity.
Qed.

Lemma dict_keys_app {V : Type} (d1 d2 : dict V) :
  dict_keys (d1 ++ d2) = dict_keys d1 ++ dict_keys d2.
Proof. unfold dict_keys. apply map_app. Qed.

(** The outer loop returns, and consumes what [consumed] says. *)
Lemma associate_tracks_total (tracks : dict obj_data) : forall acc,
  exists nt', associate_tracks frame_idx dets tracks acc
              = Ret (nt', consumed dets tracks (snd acc)).
Proof.
  induction tracks as [|[obj_id data] rest IH]; intros [nt m].
  - exists nt. reflexivity.
  - simpl. rewrite associate_track_spec. simpl. apply IH.
Qed.

Lemma survivors_keys (tracks : dict obj_data) : forall m,
  dict_keys (survivors frame_idx dets tracks m) `sublist_of` dict_keys tracks.
Proof.
  induction tracks as [|[obj_id data] rest IH]; intros m; simpl; [constructor|].
  destruct (track_outcome frame_idx dets data (claim dets data m)); simpl.
  - apply sublist_skip, IH.
  - apply sublist_cons, IH.
Qed.

(** With distinct identities every store of the outer loop appends. *)
Lemma associate_tracks_spec (tracks : dict obj_data) : forall nt m,
  NoDup (dict_keys nt ++ dict_keys tracks) ->
  associate_tracks frame_idx dets tracks (nt, m) =
  Ret (nt ++ survivors frame_idx dets tracks m, consumed dets tracks m).
Proof.
  induction tracks as [|[obj_id data] rest IH]; intros nt m Hnd.
  - simpl. rewrite app_nil_r. reflexivity.
  - simpl. rewrite associate_track_spec. simpl.
    simpl in Hnd. apply NoDup_app in Hnd as (Hnt & Hdisj & Hrest).
    apply NoDup_cons in Hrest as [Hid Hrest].
    assert (Hfresh : obj_id ∉ dict_keys nt).
    { intros Hin. apply (Hdisj _ Hin). left. }
    destruct (track_outcome frame_idx dets data (claim dets data m)) as [data'|].
    + rewrite dict_set_fresh by exact Hfresh. rewrite IH.
      * rewrite <- app_assoc. reflexivity.
      * rewrite dict_keys_app. simpl. apply NoDup_app. split; [|split].
        -- apply NoDup_app. split; [exact Hnt|]. split; [|apply NoDup_singleton].
           intros x Hx Hx'. apply list_elem_of_singleton in Hx'. subst. contradiction.
        -- intros x Hx Hx'. apply elem_of_app in Hx as [Hx|Hx].
           ++ apply (Hdisj _ Hx). right. exact Hx'.
           ++ apply list_elem_of_singleton in Hx. subst. contradiction.
        -- exact Hrest.
    + rewrite IH; [reflexivity|].
      apply NoDup_app. split; [exact Hnt|]. split; [|exact Hrest].
      intros x Hx Hx'. apply (Hdisj _ Hx). right. exact Hx'.
Qed.

Lemma spawned_keys (m : gset Z) (ds : list detection) : forall i next,
  dict_keys (spawned frame_idx m ds i next)
  = seqZ next (Z.of_nat (length (spawned frame_idx m ds i next))).
Proof.
  induction ds as [|d rest IH]; intros i next; [reflexivity|].
  simpl. destruct (bool_decide (i ∈ m)); [apply IH|].
  simpl length. rewrite seqZ_cons by lia. simpl. f_equal.
  rewrite IH. f_equal; lia.
Qed.

(** With every identity in use below the counter, the last loop appends. *)
Lemma spawn_tracks_spec (m : gset Z) (ds : list detection) : forall i nt next,
  Forall (fun k => k < next) (dict_keys nt) ->
  spawn_tracks frame_idx m ds i (nt, next) =
  (nt ++ spawned frame_idx m ds i next,
   next + Z.of_nat (length (spawned frame_idx m ds i next))).
Proof.
  induction ds as [|d rest IH]; intros i nt next Hlt.
  - simpl. rewrite app_nil_r. f_equal. lia.
  - simpl. destruct (bool_decide (i ∈ m)); [apply IH; exact Hlt|].
    simpl fst. simpl snd. rewrite dict_set_fresh.
    + rewrite IH.
      * rewrite <- app_assoc. simpl. f_equal. lia.
      * rewrite dict_keys_app. apply Forall_app. split.
        -- eapply Forall_impl; [exact Hlt|]. simpl. intros; lia.
        -- simpl. constructor; [lia|constructor].
    + intros Hin. rewrite Forall_forall in Hlt. specialize (Hlt _ Hin). simpl in Hlt. lia.
Qed.

Lemma advance_total (t : tracker) : exists t', advance frame_idx dets t = Ret t'.
Proof.
  unfold advance.
  destruct (associate_tracks_total (tracked_objects t) ([], ∅)) as [nt' Hnt].
  rewrite Hnt. simpl. eexists. reflexivity.
Qed.

(** One frame of association on a well-formed tracker: the survivors in
    their old order, then the spawned tracks. *)
Lemma advance_spec (t : tracker) :
  tracker_wf t ->
  advance frame_idx dets t =
  Ret {| next_object_id := next_object_id t + births frame_idx dets t;
         tracked_objects :=
           survivors frame_idx dets (tracked_objects t) ∅
           ++ spawned frame_idx (consumed dets (tracked_objects t) ∅) dets 0
                (next_object_id t) |}.
Proof.
  intros (Hnd & Hlt & Hpos). unfold advance.
  rewrite associate_tracks_spec by exact Hnd. simpl.
  rewrite spawn_tracks_spec; [reflexivity|].
  rewrite Forall_forall in *. intros k Hk.
  assert (Hin : k ∈ dict_keys (tracked_objects t))
    by (eapply elem_of_sublist; [exact Hk | apply survivors_keys]).
  specialize (Hlt _ Hin). simpl in Hlt. lia.
Qed.

Lemma advance_wf (t t' : tracker) :
  tracker_wf t -> advance frame_idx dets t = Ret t' -> tracker_wf t'.
Proof.
  intros Hwf Ht'. rewrite advance_spec in Ht' by exact Hwf. injection Ht' as <-.
  destruct Hwf as (Hnd & Hlt & Hpos). rewrite Forall_forall in Hlt.
  assert (Hsurv : forall k, k ∈ dict_keys (survivors frame_idx dets (tracked_objects t) ∅) ->
                            0 <= k < next_object_id t).
  { intros k Hk. apply Hlt. eapply elem_of_sublist; [exact Hk | apply survivors_keys]. }
  unfold tracker_wf, births. simpl. rewrite dict_keys_app, spawned_keys.
  split; [|split].
  - apply NoDup_app. split; [|split].
    + eapply sublist_NoDup; [exact Hnd | apply survivors_keys].
    + intros k Hk Hk'. apply elem_of_seqZ in Hk'. specialize (Hsurv _ Hk). lia.
    + apply NoDup_seqZ.
  - apply Forall_app. split; apply Forall_forall; intros k Hk.
    + specialize (Hsurv _ Hk). lia.
    + apply elem_of_seqZ in Hk. lia.
  - lia.
Qed.

Lemma new_tracker_wf : tracker_wf new_tracker.
Proof. repeat split; simpl; [constructor | constructor | lia]. Qed.

End Frame.

(** ** The frame loop *)

Section Run.

Variable cfg : config.
Variables frame_width frame_height : Z.

Lemma classify_tracks_total (tracks : dict obj_data) : forall g,
  exists reports g', classify_tracks cfg frame_width frame_height tracks g = Ret (reports, g')
                     /\ map track_id reports = dict_keys tracks.
Proof.
  induction tracks as [|[obj_id data] rest IH]; intros g.
  - exists [], g. split; reflexivity.
  - simpl.
    destruct (determine_direction_total cfg obj_id (obj_centroid data)
                frame_width frame_height g) as [v Hv].
    destruct (determine_direction cfg obj_id (obj_centroid data) frame_width frame_height g)
      as [r g1]. simpl in Hv. subst r.
    match goal with |- context [classify_tracks _ _ _ rest ?g2] =>
      destruct (IH g2) as (reports & g' & Hr & Hids); rewrite Hr end.
    simpl. eexists _, _. split; [reflexivity|]. simpl. rewrite Hids. reflexivity.
Qed.

(** A frame is processed without exception; its tracker is the one
    [advance] returns and its reports list the live tracks in order. *)
Lemma process_frame_total (frame_idx : Z) (boxes : list yolo_box) (t : tracker)
    (g : globals) :
  exists reports t' g',
    process_frame cfg frame_width frame_height frame_idx boxes (t, g)
      = Ret (reports, (t', g')) /\
    advance frame_idx (map detection_of_box boxes) t = Ret t' /\
    map track_id reports = dict_keys (tracked_objects t').
Proof.
  unfold process_frame. simpl.
  destruct (advance_total frame_idx (map detection_of_box boxes) t) as [t' Ht'].
  rewrite Ht'. simpl.
  destruct (classify_tracks_total (tracked_objects t') g) as (reports & g' & Hr & Hids).
  rewrite Hr. simpl. exists reports, t', g'. auto.
Qed.

Lemma process_frames_total (frames : list (list yolo_box)) : forall frame_idx t g,
  exists reports t' g',
    process_frames cfg frame_width frame_height frame_idx frames (t, g)
      = Ret (reports, (t', g')) /\
    advance_frames frame_idx frames t = Ret t' /\
    length reports = length frames.
Proof.
  induction frames as [|boxes rest IH]; intros frame_idx t g.
  - exists [], t, g. repeat split.
  - simpl.
    destruct (process_frame_total frame_idx boxes t g) as (r1 & t1 & g1 & Hf & Ha & _).
    rewrite Hf, Ha. simpl.
    destruct (IH (frame_idx + 1) t1 g1) as (rs & t' & g' & Hfs & Has & Hlen).
    rewrite Hfs. simpl. exists (r1 :: rs), t', g'. repeat split; [exact Has|].
    simpl. rewrite Hlen. reflexivity.
Qed.

Lemma advance_frames_total (frames : list (list yolo_box)) (frame_idx : Z) (t : tracker) :
  exists t', advance_frames frame_idx frames t = Ret t'.
Proof.
  destruct (process_frames_total frames frame_idx t fresh_globals) as (_ & t' & _ & _ & H & _).
  exists t'. exact H.
Qed.

Lemma advance_frames_app (frames1 frames2 : list (list yolo_box)) : forall frame_idx t,
  advance_frames frame_idx (frames1 ++ frames2) t =
  (do t1 <- advance_frames frame_idx frames1 t in
   advance_frames (frame_idx + Z.of_nat (length frames1)) frames2 t1).
Proof.
  induction frames1 as [|boxes rest IH]; intros frame_idx t.
  - simpl app. simpl length. replace (frame_idx + Z.of_nat 0) with frame_idx by lia.
    reflexivity.
  - simpl app. simpl length. cbn [advance_frames].
    destruct (advance frame_idx (map detection_of_box boxes) t) as [t1|e];
      simpl py_bind; [|reflexivity].
    rewrite IH. replace (frame_idx + 1 + Z.of_nat (length rest))
      with (frame_idx + Z.of_nat (S (length rest))) by lia.
    reflexivity.
Qed.

Lemma process_frames_app (frames1 frames2 : list (list yolo_box)) : forall frame_idx st,
  process_frames cfg frame_width frame_height frame_idx (frames1 ++ frames2) st =
  (do r1 <- process_frames cfg frame_width frame_height frame_idx frames1 st in
   do r2 <- process_frames cfg frame_width frame_height
              (frame_idx + Z.of_nat (length frames1)) frames2 (snd r1) in
   Ret (fst r1 ++ fst r2, snd r2)).
Proof.
  induction frames1 as [|boxes rest IH]; intros frame_idx st.
  - simpl app. simpl length. replace (frame_idx + Z.of_nat 0) with frame_idx by lia.
    cbn [process_frames py_bind fst snd].
    destruct (process_frames cfg frame_width frame_height frame_idx frames2 st)
      as [[reports st']|e]; reflexivity.
  - simpl app. simpl length. cbn [process_frames].
    destruct (process_frame cfg frame_width frame_height frame_idx boxes st)
      as [[r st1]|e]; simpl py_bind; [|reflexivity].
    rewrite IH. replace (frame_idx + 1 + Z.of_nat (length rest))
      with (frame_idx + Z.of_nat (S (length rest))) by lia.
    cbn [fst snd].
    destruct (process_frames cfg frame_width frame_height (frame_idx + 1) rest st1)
      as [[rs st2]|e]; simpl py_bind; [|reflexivity].
    cbn [fst snd].
    destruct (process_frames cfg frame_width frame_height
                (frame_idx + Z.of_nat (S (length rest))) frames2 st2)
      as [[rs' st3]|e]; reflexivity.
Qed.

End Run.

(** ** Identities *)

(** Over one frame: the counter does not decrease, the identities in use
    stay distinct and below it, and an identity in use afterwards was in
    use before or is at least the old counter. *)
Lemma advance_ids (frame_idx : Z) (dets : list detection) (t t' : tracker) :
  tracker_wf t -> advance frame_idx dets t = Ret t' ->
  exists kept,
    kept `sublist_of` dict_keys (tracked_objects t) /\
    dict_keys (tracked_objects t')
      = kept ++ seqZ (next_object_id t) (births frame_idx dets t) /\
    next_object_id t' = next_object_id t + births frame_idx dets t.
Proof.
  intros Hwf Ht'. rewrite advance_spec in Ht' by exact Hwf. injection Ht' as <-.
  exists (dict_keys (survivors frame_idx dets (tracked_objects t) ∅)). simpl.
  split; [apply survivors_keys|]. split; [|reflexivity].
  rewrite dict_keys_app, spawned_keys. reflexivity.
Qed.

Lemma births_nonneg (frame_idx : Z) (dets : list detection) (t : tracker) :
  0 <= births frame_idx dets t.
Proof. unfold births. lia. Qed.

Lemma advance_frames_ids (frames : list (list yolo_box)) : forall frame_idx t t',
  tracker_wf t -> advance_frames frame_idx frames t = Ret t' ->
  tracker_wf t' /\
  next_object_id t <= next_object_id t' /\
  forall k, k ∈ dict_keys (tracked_objects t') ->
            k ∈ dict_keys (tracked_objects t) \/ next_object_id t <= k.
Proof.
  induction frames as [|boxes rest IH]; intros frame_idx t t' Hwf Hrun.
  - simpl in Hrun. injection Hrun as <-. split; [exact Hwf|]. split; [lia|]. auto.
  - simpl in Hrun.
    destruct (advance frame_idx (map detection_of_box boxes) t) as [t1|e] eqn:Ha;
      simpl in Hrun; [|discriminate].
    pose proof (advance_wf _ _ _ _ Hwf Ha) as Hwf1.
    destruct (advance_ids _ _ _ _ Hwf Ha) as (kept & Hsub & Hkeys & Hnext).
    pose proof (births_nonneg frame_idx (map detection_of_box boxes) t) as Hb.
    destruct (IH _ _ _ Hwf1 Hrun) as (Hwf' & Hle & Hin).
    split; [exact Hwf'|]. split; [lia|].
    intros k Hk. destruct (Hin k Hk) as [Hk1|Hk1]; [|right; lia].
    rewrite Hkeys in Hk1. apply elem_of_app in Hk1 as [Hk1|Hk1].
    + left. eapply elem_of_sublist; [exact Hk1 | exact Hsub].
    + right. apply elem_of_seqZ in Hk1. lia.
Qed.

Lemma final_tracker_video (cfg : config) (fw fh : Z) (frames : list (list yolo_box))
    (ambient : globals) :
  exists t, advance_frames 0 frames new_tracker = Ret t /\
            final_tracker (process_video_for_wrong_way cfg fw fh frames ambient) = Some t.
Proof.
  unfold process_video_for_wrong_way.
  destruct (process_frames_total cfg fw fh frames 0 new_tracker fresh_globals)
    as (reports & t & g & Hrun & Ha & _).
  exists t. rewrite Hrun. auto.
Qed.

(** C6. Identities come from a counter that never decreases: the tracks a
    frame spawns get the consecutive identities from the counter's value on,
    each above every identity handed out before, behind the surviving
    tracks; identities in use are distinct; and an identity that was handed
    out and is no longer in the live set does not come back in any later
    frame. *)
Theorem identities_fresh_never_reused (cfg : config) (fw fh : Z)
    (frames1 : list (list yolo_box)) (boxes : list yolo_box)
    (frames2 : list (list yolo_box)) (ambient : globals) :
  exists t1 t2 t3 kept,
    final_tracker (process_video_for_wrong_way cfg fw fh frames1 ambient) = Some t1 /\
    final_tracker (process_video_for_wrong_way cfg fw fh (frames1 ++ [boxes]) ambient)
      = Some t2 /\
    final_tracker
      (process_video_for_wrong_way cfg fw fh ((frames1 ++ [boxes]) ++ frames2) ambient)
      = Some t3 /\
    kept `sublist_of` dict_keys (tracked_objects t1) /\
    Forall (fun k => 0 <= k < next_object_id t1) kept /\
    dict_keys (tracked_objects t2)
      = kept ++ seqZ (next_object_id t1) (next_object_id t2 - next_object_id t1) /\
    0 <= next_object_id t1 <= next_object_id t2 /\
    next_object_id t2 <= next_object_id t3 /\
    NoDup (dict_keys (tracked_objects t2)) /\
    NoDup (dict_keys (tracked_objects t3)) /\
    forall k, 0 <= k < next_object_id t2 ->
              k ∉ dict_keys (tracked_objects t2) -> k ∉ dict_keys (tracked_objects t3).
Proof.
  destruct (final_tracker_video cfg fw fh frames1 ambient) as (t1 & Ha1 & Hf1).
  destruct (final_tracker_video cfg fw fh (frames1 ++ [boxes]) ambient) as (t2 & Ha2 & Hf2).
  destruct (final_tracker_video cfg fw fh ((frames1 ++ [boxes]) ++ frames2) ambient)
    as (t3 & Ha3 & Hf3).
  rewrite advance_frames_app, Ha2 in Ha3. simpl in Ha3.
  rewrite advance_frames_app, Ha1 in Ha2. simpl in Ha2.
  destruct (advance (0 + Z.of_nat (length frames1)) (map detection_of_box boxes) t1)
    as [t2'|e] eqn:Hstep; simpl in Ha2; [|discriminate].
  injection Ha2 as ->.
  destruct (advance_frames_ids _ _ _ _ new_tracker_wf Ha1) as (Hwf1 & _ & _).
  pose proof (advance_wf _ _ _ _ Hwf1 Hstep) as Hwf2.
  destruct (advance_ids _ _ _ _ Hwf1 Hstep) as (kept & Hsub & Hkeys & Hnext).
  destruct (advance_frames_ids _ _ _ _ Hwf2 Ha3) as (Hwf3 & Hle3 & Hin3).
  pose proof (births_nonneg (0 + Z.of_nat (length frames1)) (map detection_of_box boxes) t1).
  exists t1, t2, t3, kept.
  destruct Hwf1 as (Hnd1 & Hlt1 & Hpos1).
  repeat split; try assumption; try lia.
  - rewrite Forall_forall in *. intros k Hk. apply Hlt1.
    eapply elem_of_sublist; [exact Hk | exact Hsub].
  - rewrite Hkeys. do 2 f_equal. lia.
  - apply Hwf2.
  - apply Hwf3.
  - intros k Hk Hout Hin. destruct (Hin3 k Hin) as [Hk2|Hk2]; [contradiction | lia].
Qed.

Lemma spawned_lookup (frame_idx : Z) (m : gset Z) (dets : list detection) :
  forall i next k d,
    dets !! k = Some d -> i + Z.of_nat k ∉ m ->
    exists id, next <= id < next + Z.of_nat (length (spawned frame_idx m dets i next)) /\
               (id, obj_of_detection frame_idx d) ∈ spawned frame_idx m dets i next.
Proof.
  induction dets as [|d0 rest IH]; intros i next k d Hk Hnm; [discriminate|].
  simpl. destruct k as [|k]; simpl in Hk.
  - injection Hk as ->. replace (i + Z.of_nat 0) with i in Hnm by lia.
    apply not_consumed_false in Hnm. rewrite Hnm.
    exists next. split; [simpl length; lia | left].
  - replace (i + Z.of_nat (S k)) with (i + 1 + Z.of_nat k) in Hnm by lia.
    destruct (bool_decide (i ∈ m)).
    + apply (IH (i + 1) next k d Hk Hnm).
    + destruct (IH (i + 1) (next + 1) k d Hk Hnm) as (id & Hid & Hin).
      exists id. split; [simpl length; lia | right; exact Hin].
Qed.

(** C8. The IOU of two boxes is always returned: the division is reached
    with a positive union area only, and a union area that is not positive
    gives 0. A box without area has IOU zero with every box, which is not
    above the match threshold, so such a detection is claimed by no track
    and such a track claims no detection; one frame of association returns
    a tracker whatever the boxes are. *)
Theorem iou_guarded_and_degenerate_safe (frame_idx : Z) (dets : list detection)
    (t : tracker) (bbox1 bbox2 : bbox) :
  (exists q, iou bbox1 bbox2 = Ret q /\
             ((union_area bbox1 bbox2 <= 0)%Q -> q = 0%Q) /\
             (zero_area bbox1 \/ zero_area bbox2 ->
              (q == 0)%Q /\ Qltb match_threshold q = false)) /\
  (forall data m k d,
     dets !! k = Some d ->
     zero_area (obj_bbox data) \/ zero_area (det_bbox d) ->
     claim dets data m <> Some (Z.of_nat k)) /\
  (exists t', advance frame_idx dets t = Ret t').
Proof.
  split; [|split].
  - exists (iou_value bbox1 bbox2). split; [apply iou_total|]. split.
    + intros Hu. pose proof (iou_guard _ _ Hu) as Hg. rewrite iou_total in Hg.
      injection Hg as Hg. exact Hg.
    + intros Hz. pose proof (iou_zero_area _ _ Hz) as H0. split; [exact H0|].
      apply Qltb_ge. pose proof threshold_positive. lra.
  - intros data m k d Hk Hz Hc.
    destruct (claim_Some _ _ _ _ Hc) as (k' & d' & Hkk & Hk' & _ & Hthr & _).
    apply Nat2Z.inj in Hkk. subst k'. rewrite Hk in Hk'. injection Hk' as <-.
    pose proof (iou_zero_area _ _ Hz) as H0. pose proof threshold_positive. lra.
  - apply advance_total.
Qed.

(** ** Claims within a frame *)

Section Claims.

Variable frame_idx : Z.
Variable dets : list detection.

Lemma consumed_app (l1 l2 : dict obj_data) : forall m,
  consumed dets (l1 ++ l2) m = consumed dets l2 (consumed dets l1 m).
Proof.
  induction l1 as [|[obj_id data] rest IH]; intros m; [reflexivity|].
  simpl. apply IH.
Qed.

Lemma survivors_app (l1 l2 : dict obj_data) : forall m,
  survivors frame_idx dets (l1 ++ l2) m =
  survivors frame_idx dets l1 m ++ survivors frame_idx dets l2 (consumed dets l1 m).
Proof.
  induction l1 as [|[obj_id data] rest IH]; intros m; [reflexivity|].
  simpl. rewrite IH, app_assoc. reflexivity.
Qed.

Lemma associate_tracks_app (l1 l2 : dict obj_data) : forall acc,
  associate_tracks frame_idx dets (l1 ++ l2) acc =
  (do acc1 <- associate_tracks frame_idx dets l1 acc in
   associate_tracks frame_idx dets l2 acc1).
Proof.
  induction l1 as [|entry rest IH]; intros acc; [reflexivity|].
  simpl. destruct (associate_track frame_idx dets entry acc) as [acc'|e]; simpl;
    [apply IH | reflexivity].
Qed.

End Claims.


(** ** Frames without detections *)

Lemma claim_no_detections (data : obj_data) (m : gset Z) : claim [] data m = None.
Proof. reflexivity. Qed.

(** Without detections the tracks last seen in frame 0 all stay through
    frame 4 and all go from frame 5 on. *)
Lemma survivors_no_detections (frame_idx : Z) (tracks : dict obj_data) : forall m,
  Forall (fun e => last_seen_frame (snd e) = 0) tracks ->
  survivors frame_idx [] tracks m = if frame_idx <? grace_period then tracks else [].
Proof.
  induction tracks as [|[obj_id data] rest IH]; intros m Hseen.
  - simpl. destruct (frame_idx <? grace_period); reflexivity.
  - apply Forall_cons in Hseen as [Hd Hrest]. simpl in Hd.
    cbn [survivors]. rewrite claim_no_detections. cbn [track_outcome consume].
    rewrite Hd, Z.sub_0_r, (IH _ Hrest).
    destruct (frame_idx <? grace_period); reflexivity.
Qed.

Lemma advance_no_detections (frame_idx : Z) (t : tracker) :
  tracker_wf t ->
  Forall (fun e => last_seen_frame (snd e) = 0) (tracked_objects t) ->
  advance frame_idx [] t =
  Ret {| next_object_id := next_object_id t;
         tracked_objects := if frame_idx <? grace_period then tracked_objects t else [] |}.
Proof.
  intros Hwf Hseen. rewrite advance_spec by exact Hwf.
  unfold births. simpl. rewrite survivors_no_detections by exact Hseen.
  rewrite Z.add_0_r, app_nil_r. reflexivity.
Qed.

Lemma gap_wf (t : tracker) (b : bool) :
  tracker_wf t ->
  tracker_wf {| next_object_id := next_object_id t;
                tracked_objects := if b then tracked_objects t else [] |}.
Proof.
  intros Hwf. destruct b; [exact Hwf|].
  destruct Hwf as (_ & _ & Hpos). repeat split; simpl; [constructor | constructor | lia].
Qed.

Lemma advance_frames_gap (n : nat) : forall frame_idx t,
  tracker_wf t ->
  Forall (fun e => last_seen_frame (snd e) = 0) (tracked_objects t) ->
  advance_frames frame_idx (repeat [] n) t =
  Ret {| next_object_id := next_object_id t;
         tracked_objects :=
           if (n =? 0)%nat || (frame_idx + Z.of_nat n - 1 <? grace_period)
           then tracked_objects t else [] |}.
Proof.
  induction n as [|n IH]; intros frame_idx t Hwf Hseen.
  - simpl. destruct t; reflexivity.
  - cbn [repeat advance_frames map]. rewrite advance_no_detections by assumption.
    simpl py_bind. rewrite IH.
    + simpl next_object_id. simpl tracked_objects. f_equal. f_equal.
      replace (frame_idx + 1 + Z.of_nat n - 1) with (frame_idx + Z.of_nat n) by lia.
      replace (frame_idx + Z.of_nat (S n) - 1) with (frame_idx + Z.of_nat n) by lia.
      change (S n =? 0)%nat with false. simpl orb.
      unfold grace_period.
      destruct n as [|n].
      * simpl orb. replace (frame_idx + Z.of_nat 0) with frame_idx by lia. reflexivity.
      * change (S n =? 0)%nat with false. simpl orb.
        destruct (frame_idx + Z.of_nat (S n) <? 5) eqn:E; [|reflexivity].
        apply Z.ltb_lt in E.
        destruct (frame_idx <? 5) eqn:E'; [reflexivity|].
        apply Z.ltb_ge in E'. lia.
    + apply gap_wf. exact Hwf.
    + simpl. destruct (frame_idx <? grace_period); [exact Hseen | constructor].
Qed.

Lemma spawned_last_seen (frame_idx : Z) (m : gset Z) (dets : list detection) :
  forall i next,
    Forall (fun e => last_seen_frame (snd e) = frame_idx) (spawned frame_idx m dets i next).
Proof.
  induction dets as [|d rest IH]; intros i next; simpl; [constructor|].
  destruct (bool_decide (i ∈ m)); [apply IH|]. constructor; [reflexivity | apply IH].
Qed.

Lemma live_tracks_final (r : py (list (list track_report) * run_state)) :
  live_tracks r = tracked_objects <$> final_tracker r.
Proof. destruct r as [[reports [t g]]|e]; reflexivity. Qed.

(** A track spawned in frame 0 and followed by [n] frames without
    detections is live exactly when [n < 5]. *)
Lemma unmatched_run (cfg : config) (fw fh : Z) (boxes : list yolo_box) (n : nat)
    (ambient : globals) :
  live_tracks (process_video_for_wrong_way cfg fw fh (boxes :: repeat [] n) ambient)
  = Some (if (n <? 5)%nat then spawned 0 ∅ (map detection_of_box boxes) 0 0 else []).
Proof.
  rewrite live_tracks_final.
  destruct (final_tracker_video cfg fw fh (boxes :: repeat [] n) ambient) as (t & Ha & ->).
  simpl. f_equal. cbn [advance_frames] in Ha.
  set (dets := map detection_of_box boxes) in *.
  assert (H0 : advance 0 dets new_tracker =
               Ret {| next_object_id := 0 + births 0 dets new_tracker;
                      tracked_objects := spawned 0 ∅ dets 0 0 |})
    by (rewrite advance_spec by apply new_tracker_wf; reflexivity).
  rewrite H0 in Ha. simpl py_bind in Ha.
  rewrite advance_frames_gap in Ha.
  - injection Ha as <-. simpl tracked_objects.
    destruct n as [|n]; [reflexivity|].
    change (S n =? 0)%nat with false. simpl orb. unfold grace_period.
    destruct (S n <? 5)%nat eqn:E.
    + apply Nat.ltb_lt in E.
      destruct (0 + 1 + Z.of_nat (S n) - 1 <? 5) eqn:E'; [reflexivity|].
      apply Z.ltb_ge in E'. lia.
    + apply Nat.ltb_ge in E.
      destruct (0 + 1 + Z.of_nat (S n) - 1 <? 5) eqn:E'; [|reflexivity].
      apply Z.ltb_lt in E'. lia.
  - apply (advance_wf 0 dets new_tracker _ new_tracker_wf H0).
  - simpl. apply spawned_last_seen.
Qed.

(** C2. The code and its own comment disagree at the boundary. The comment
    of line 305 says a track is kept for 5 frames without detection, but
    the test [frame_idx - last_seen_frame < 5] keeps it for four: a track
    spawned in frame 0 is live after [n] frames that leave it unmatched
    exactly when [n < 5], so it is still live after the fourth such frame
    and is removed in the fifth, whether these frames hold no detection or
    a detection elsewhere in the image. *)
Theorem grace_drops_on_fifth_unmatched_frame (cfg : config) (fw fh : Z)
    (boxes : list yolo_box) (n : nat) (ambient : globals) :
  live_tracks (process_video_for_wrong_way cfg fw fh (boxes :: repeat [] n) ambient)
  = Some (if (n <? 5)%nat then spawned 0 ∅ (map detection_of_box boxes) 0 0 else []) /\
  live_ids (process_video_for_wrong_way default_config 400 300
              ([box 0 0 10 10] :: repeat [] 4) fresh_globals) = Some [0] /\
  live_ids (process_video_for_wrong_way default_config 400 300
              ([box 0 0 10 10] :: repeat [] 5) fresh_globals) = Some [] /\
  live_ids (process_video_for_wrong_way default_config 400 300
              ([box 0 0 10 10] :: repeat [box 100 100 110 110] 4) fresh_globals)
  = Some [0; 1] /\
  live_ids (process_video_for_wrong_way default_config 400 300
              ([box 0 0 10 10] :: repeat [box 100 100 110 110] 5) fresh_globals)
  = Some [1].
Proof.
  split; [apply unmatched_run|].
  repeat split; vm_compute; reflexivity.
Qed.

(** * Further properties of the code *)

(** ** [calculate_centroid] and the IOU *)

Section MoreGeometry.

Local Open Scope Q_scope.

(** [int] is monotone. *)
Lemma py_int_mono (x y : Q) : x <= y -> (py_int x <= py_int y)%Z.
Proof.
  unfold Qle, py_int. intros H.
  rewrite <- (Z.quot_mul_cancel_r (Qnum x) (Zpos (Qden x)) (Zpos (Qden y))) by lia.
  rewrite <- (Z.quot_mul_cancel_r (Qnum y) (Zpos (Qden y)) (Zpos (Qden x))) by lia.
  rewrite (Z.mul_comm (Zpos (Qden y)) (Zpos (Qden x))).
  apply Z.quot_le_mono; lia.
Qed.

Lemma py_int_below (x : Q) : 0 <= x -> inject_Z (py_int x) <= x.
Proof.
  intros Hx. unfold py_int. rewrite Z.quot_div_nonneg.
  - destruct x as [n d]. apply (Qfloor_le (n # d)).
  - unfold Qle in Hx. simpl in Hx. lia.
  - reflexivity.
Qed.

Lemma midpoint_between (a b : Z) : (a <= b -> a <= (a + b) / 2 <= b)%Z.
Proof.
  intros H. split.
  - apply Z.div_le_lower_bound; lia.
  - apply Z.div_le_upper_bound; lia.
Qed.

(** The centroid of a box whose corners are in order lies between the
    truncated corners; when the box is in the non-negative quadrant it is
    not beyond the box's far corner. *)
Theorem centroid_within_box (b : bbox) :
  bx1 b <= bx2 b -> by1 b <= by2 b ->
  (py_int (bx1 b) <= fst (calculate_centroid b) <= py_int (bx2 b))%Z /\
  (py_int (by1 b) <= snd (calculate_centroid b) <= py_int (by2 b))%Z /\
  (0 <= bx1 b -> 0 <= by1 b ->
   (0 <= fst (calculate_centroid b))%Z /\ (0 <= snd (calculate_centroid b))%Z /\
   inject_Z (fst (calculate_centroid b)) <= bx2 b /\
   inject_Z (snd (calculate_centroid b)) <= by2 b).
Proof.
  intros Hx Hy. unfold calculate_centroid. cbv zeta. cbn [fst snd].
  pose proof (midpoint_between _ _ (py_int_mono _ _ Hx)) as Hcx.
  pose proof (midpoint_between _ _ (py_int_mono _ _ Hy)) as Hcy.
  split; [exact Hcx|]. split; [exact Hcy|].
  intros Hx0 Hy0.
  assert (H0x : (0 <= py_int (bx1 b))%Z) by (apply (py_int_mono 0 _ Hx0)).
  assert (H0y : (0 <= py_int (by1 b))%Z) by (apply (py_int_mono 0 _ Hy0)).
  split; [lia|]. split; [lia|]. split.
  - apply Qle_trans with (inject_Z (py_int (bx2 b))).
    + rewrite <- Zle_Qle. apply Hcx.
    + apply py_int_below. lra.
  - apply Qle_trans with (inject_Z (py_int (by2 b))).
    + rewrite <- Zle_Qle. apply Hcy.
    + apply py_int_below. lra.
Qed.

Lemma centroid_within_box_witness :
  (py_int 2 <= fst (calculate_centroid (xyxy (box 2 3 11 8))) <= py_int 11)%Z.
Proof.
  refine (proj1 (centroid_within_box (xyxy (box 2 3 11 8)) _ _)); vm_compute; discriminate.
Defined.

Lemma py_max_compat (a a' b b' : Q) : a == a' -> b == b' -> py_max a b == py_max a' b'.
Proof.
  intros Ha Hb. unfold py_max.
  destruct (Qltb a b) eqn:E; destruct (Qltb a' b') eqn:E';
    try apply Qltb_lt in E; try apply Qltb_ge in E;
    try apply Qltb_lt in E'; try apply Qltb_ge in E'; lra.
Qed.

Lemma py_max_comm (a b : Q) : py_max a b == py_max b a.
Proof.
  unfold py_max.
  destruct (Qltb a b) eqn:E; destruct (Qltb b a) eqn:E';
    try apply Qltb_lt in E; try apply Qltb_ge in E;
    try apply Qltb_lt in E'; try apply Qltb_ge in E'; lra.
Qed.

Lemma py_min_comm (a b : Q) : py_min a b == py_min b a.
Proof.
  unfold py_min.
  destruct (Qltb a b) eqn:E; destruct (Qltb b a) eqn:E';
    try apply Qltb_lt in E; try apply Qltb_ge in E;
    try apply Qltb_lt in E'; try apply Qltb_ge in E'; lra.
Qed.

Lemma intersection_comm (bbox1 bbox2 : bbox) :
  intersection_area bbox1 bbox2 == intersection_area bbox2 bbox1.
Proof.
  unfold intersection_area. cbv zeta.
  rewrite (py_max_compat 0 0
             (py_min (bx2 bbox1) (bx2 bbox2) - py_max (bx1 bbox1) (bx1 bbox2))
             (py_min (bx2 bbox2) (bx2 bbox1) - py_max (bx1 bbox2) (bx1 bbox1)));
    [|reflexivity|rewrite py_min_comm, py_max_comm; reflexivity].
  rewrite (py_max_compat 0 0
             (py_min (by2 bbox1) (by2 bbox2) - py_max (by1 bbox1) (by1 bbox2))
             (py_min (by2 bbox2) (by2 bbox1) - py_max (by1 bbox2) (by1 bbox1)));
    [|reflexivity|rewrite py_min_comm, py_max_comm; reflexivity].
  reflexivity.
Qed.

Lemma union_comm (bbox1 bbox2 : bbox) : union_area bbox1 bbox2 == union_area bbox2 bbox1.
Proof. unfold union_area. rewrite intersection_comm. ring. Qed.

(** The value of [iou] through its guard. *)
Lemma iou_value_cases (bbox1 bbox2 : bbox) :
  (0 < union_area bbox1 bbox2 /\
   iou_value bbox1 bbox2 = intersection_area bbox1 bbox2 / union_area bbox1 bbox2) \/
  (union_area bbox1 bbox2 <= 0 /\ iou_value bbox1 bbox2 = 0).
Proof.
  unfold iou_value, iou, py_div.
  destruct (Qltb 0 (union_area bbox1 bbox2)) eqn:E.
  - apply Qltb_lt in E. left. split; [exact E|].
    destruct (Qeq_bool (union_area bbox1 bbox2) 0) eqn:E0; [|reflexivity].
    apply Qeq_bool_iff in E0. lra.
  - apply Qltb_ge in E. right. split; [exact E | reflexivity].
Qed.

(** The IOU does not depend on the order of the two boxes. *)
Theorem iou_symmetric (bbox1 bbox2 : bbox) :
  iou_value bbox1 bbox2 == iou_value bbox2 bbox1.
Proof.
  pose proof (union_comm bbox1 bbox2) as Hu.
  pose proof (intersection_comm bbox1 bbox2) as Hi.
  destruct (iou_value_cases bbox1 bbox2) as [[H1 ->]|[H1 ->]];
    destruct (iou_value_cases bbox2 bbox1) as [[H2 ->]|[H2 ->]]; try lra.
  rewrite Hu, Hi. reflexivity.
Qed.

Lemma intersection_nonneg (bbox1 bbox2 : bbox) : 0 <= intersection_area bbox1 bbox2.
Proof.
  unfold intersection_area. cbv zeta.
  apply Qmult_le_0_compat; apply py_max_0_nonneg.
Qed.

Lemma py_max_0_cases (x : Q) : (x <= 0 /\ py_max 0 x = 0) \/ (0 < x /\ py_max 0 x = x).
Proof.
  unfold py_max. destruct (Qltb 0 x) eqn:E.
  - apply Qltb_lt in E. right. auto.
  - apply Qltb_ge in E. left. auto.
Qed.

(** An intersection that is not empty is inside both boxes. *)
Lemma intersection_inside (bbox1 bbox2 : bbox) :
  intersection_area bbox1 bbox2 == 0 \/
  (0 < intersection_area bbox1 bbox2 /\
   intersection_area bbox1 bbox2 <= box_area bbox1 /\
   intersection_area bbox1 bbox2 <= box_area bbox2).
Proof.
  unfold intersection_area, box_area. cbv zeta.
  pose proof (py_max_bounds (bx1 bbox1) (bx1 bbox2)) as [Hx1 Hx1'].
  pose proof (py_min_bounds (bx2 bbox1) (bx2 bbox2)) as [Hx2 Hx2'].
  pose proof (py_max_bounds (by1 bbox1) (by1 bbox2)) as [Hy1 Hy1'].
  pose proof (py_min_bounds (by2 bbox1) (by2 bbox2)) as [Hy2 Hy2'].
  destruct (py_max_0_cases (py_min (bx2 bbox1) (bx2 bbox2) - py_max (bx1 bbox1) (bx1 bbox2)))
    as [[Hw ->]|[Hw ->]]; [left; ring|].
  destruct (py_max_0_cases (py_min (by2 bbox1) (by2 bbox2) - py_max (by1 bbox1) (by1 bbox2)))
    as [[Hh ->]|[Hh ->]]; [left; ring|].
  right. split; [nra|]. split; nra.
Qed.

Lemma iou_value_nonneg (bbox1 bbox2 : bbox) : 0 <= iou_value bbox1 bbox2.
Proof.
  destruct (iou_value_cases bbox1 bbox2) as [[Hu ->]|[Hu ->]]; [|lra].
  pose proof (intersection_nonneg bbox1 bbox2) as H0.
  apply Qle_shift_div_l; [exact Hu | lra].
Qed.

Lemma iou_value_le_1 (bbox1 bbox2 : bbox) : iou_value bbox1 bbox2 <= 1.
Proof.
  destruct (iou_value_cases bbox1 bbox2) as [[Hu ->]|[Hu ->]]; [|lra].
  pose proof (intersection_nonneg bbox1 bbox2) as H0.
  apply Qle_shift_div_r; [exact Hu|].
  unfold union_area in *.
  destruct (intersection_inside bbox1 bbox2) as [Hz|(Hp & H1 & H2)]; lra.
Qed.

(** The IOU of any two boxes, proper or not, is between 0 and 1. *)
Theorem iou_between_0_and_1 (bbox1 bbox2 : bbox) :
  0 <= iou_value bbox1 bbox2 <= 1.
Proof.
  split.
  - apply iou_value_nonneg.
  - apply iou_value_le_1.
Qed.

End MoreGeometry.

(** ** More on one frame of association *)

Section MoreFrame.

Variable frame_idx : Z.

(** The scan looks at the boxes only. *)
Lemma scan_detections_boxes (bbox1 : bbox) (m : gset Z) (dets : list detection) :
  forall dets' i best,
    map det_bbox dets = map det_bbox dets' ->
    scan_detections bbox1 m dets i best = scan_detections bbox1 m dets' i best.
Proof.
  induction dets as [|d rest IH]; intros [|d' rest'] i best Hb; try discriminate.
  - reflexivity.
  - simpl in Hb. injection Hb as Hd Hrest. simpl. rewrite Hd.
    destruct (bool_decide (i ∈ m)); [apply IH; exact Hrest|].
    destruct (iou bbox1 (det_bbox d')); simpl; [apply IH; exact Hrest | reflexivity].
Qed.

Lemma claim_boxes (dets dets' : list detection) (data data' : obj_data) (m : gset Z) :
  map det_bbox dets = map det_bbox dets' -> obj_bbox data = obj_bbox data' ->
  claim dets data m = claim dets' data' m.
Proof.
  intros Hb Hd. unfold claim, best_of, best_match. rewrite Hd.
  rewrite (scan_detections_boxes _ _ dets dets' _ _ Hb). reflexivity.
Qed.

Lemma consumed_boxes (dets dets' : list detection) (tracks : dict obj_data) :
  map det_bbox dets = map det_bbox dets' ->
  forall m, consumed dets tracks m = consumed dets' tracks m.
Proof.
  intros Hb. induction tracks as [|[obj_id data] rest IH]; intros m; [reflexivity|].
  simpl. rewrite (claim_boxes dets dets' data data m Hb eq_refl). apply IH.
Qed.

Lemma lookup_boxes (dets dets' : list detection) (k : nat) :
  map det_bbox dets = map det_bbox dets' ->
  det_bbox <$> (dets !! k) = det_bbox <$> (dets' !! k).
Proof.
  intros Hb. change (map det_bbox dets) with (det_bbox <$> dets) in Hb.
  change (map det_bbox dets') with (det_bbox <$> dets') in Hb.
  rewrite <- !list_lookup_fmap, Hb. reflexivity.
Qed.

Lemma survivors_boxes (dets dets' : list detection) (tracks : dict obj_data) :
  map det_bbox dets = map det_bbox dets' ->
  forall m,
    map (fun e => (fst e, obj_bbox (snd e))) (survivors frame_idx dets tracks m)
    = map (fun e => (fst e, obj_bbox (snd e))) (survivors frame_idx dets' tracks m).
Proof.
  intros Hb. induction tracks as [|[obj_id data] rest IH]; intros m; [reflexivity|].
  simpl. rewrite <- (claim_boxes dets dets' data data m Hb eq_refl).
  rewrite !map_app, IH. f_equal.
  destruct (claim dets data m) as [idx|]; simpl.
  - pose proof (lookup_boxes dets dets' (Z.to_nat idx) Hb) as Hl.
    destruct (dets !! Z.to_nat idx) as [d|], (dets' !! Z.to_nat idx) as [d'|];
      simpl in *; try discriminate; [|reflexivity].
    injection Hl as Hl. rewrite Hl. reflexivity.
  - destruct (frame_idx - last_seen_frame data <? grace_period); reflexivity.
Qed.

Lemma spawned_boxes (m : gset Z) (dets : list detection) :
  forall dets' i next,
    map det_bbox dets = map det_bbox dets' ->
    map (fun e => (fst e, obj_bbox (snd e))) (spawned frame_idx m dets i next)
    = map (fun e => (fst e, obj_bbox (snd e))) (spawned frame_idx m dets' i next).
Proof.
  induction dets as [|d rest IH]; intros [|d' rest'] i next Hb; try discriminate.
  - reflexivity.
  - simpl in Hb. injection Hb as Hd Hrest. simpl.
    destruct (bool_decide (i ∈ m)); [apply IH; exact Hrest|].
    simpl. rewrite Hd. f_equal. apply IH. exact Hrest.
Qed.

(** Association is blind to class and confidence: two detection lists with
    the same boxes give the same identities, on the same boxes, and the same
    counter. *)
Theorem association_ignores_class (dets dets' : list detection) (t : tracker) :
  tracker_wf t ->
  map det_bbox dets = map det_bbox dets' ->
  exists t1 t2,
    advance frame_idx dets t = Ret t1 /\
    advance frame_idx dets' t = Ret t2 /\
    next_object_id t1 = next_object_id t2 /\
    map (fun e => (fst e, obj_bbox (snd e))) (tracked_objects t1)
    = map (fun e => (fst e, obj_bbox (snd e))) (tracked_objects t2).
Proof.
  intros Hwf Hb. eexists _, _.
  split; [apply advance_spec; exact Hwf|]. split; [apply advance_spec; exact Hwf|].
  simpl. rewrite <- (consumed_boxes dets dets' _ Hb).
  pose proof (spawned_boxes (consumed dets (tracked_objects t) ∅) dets dets' 0
                (next_object_id t) Hb) as Hs.
  split.
  - unfold births. rewrite <- (consumed_boxes dets dets' _ Hb). f_equal. f_equal.
    rewrite <- (length_map (fun e => (fst e, obj_bbox (snd e)))), Hs, length_map.
    reflexivity.
  - rewrite !map_app, Hs, (survivors_boxes dets dets' _ Hb). reflexivity.
Qed.

End MoreFrame.

Lemma association_ignores_class_witness :
  exists t1 t2,
    advance 1 contested_dets {| next_object_id := 2; tracked_objects := contested_tracks |}
      = Ret t1 /\
    advance 1 [{| det_bbox := xyxy (box 0 0 10 10); det_conf := 1 # 2; det_cls := 7;
                  det_centroid := (5, 5) |}]
      {| next_object_id := 2; tracked_objects := contested_tracks |} = Ret t2 /\
    next_object_id t1 = next_object_id t2 /\
    map (fun e => (fst e, obj_bbox (snd e))) (tracked_objects t1)
    = map (fun e => (fst e, obj_bbox (snd e))) (tracked_objects t2).
Proof.
  apply association_ignores_class; [|reflexivity].
  unfold tracker_wf. simpl. split; [|split; [|lia]].
  - apply NoDup_cons. split; [|apply NoDup_singleton].
    intros H. apply list_elem_of_singleton in H. discriminate.
  - repeat constructor; lia.
Defined.

Section Births.

Variable frame_idx : Z.
Variable dets : list detection.

(** A consumed detection is carried by the track that claimed it. *)
Lemma consumed_carried (tracks : dict obj_data) : forall m i,
  i ∈ consumed dets tracks m ->
  i ∈ m \/
  exists obj_id k d,
    i = Z.of_nat k /\ dets !! k = Some d /\
    (obj_id, obj_of_detection frame_idx d) ∈ survivors frame_idx dets tracks m.
Proof.
  induction tracks as [|[obj_id data] rest IH]; intros m i Hi; [left; exact Hi|].
  simpl in Hi. simpl survivors.
  destruct (IH _ _ Hi) as [Hin|(id' & k & d & Hk & Hd & Hin)].
  - destruct (claim dets data m) as [idx|] eqn:Hc; simpl in Hin; [|left; exact Hin].
    apply elem_of_union in Hin as [Hin|Hin]; [|left; exact Hin].
    apply elem_of_singleton in Hin. subst idx.
    destruct (claim_Some _ _ _ _ Hc) as (k & d & -> & Hd & _).
    right. exists obj_id, k, d. split; [reflexivity|]. split; [exact Hd|].
    simpl. rewrite Nat2Z.id, Hd. simpl. left.
  - right. exists id', k, d. split; [exact Hk|]. split; [exact Hd|].
    apply elem_of_app. right. exact Hin.
Qed.

(** No detection is lost: after the frame every detection is the value of
    some live track, stamped with the frame's index. *)
Theorem no_detection_lost (t : tracker) (k : nat) (d : detection) :
  tracker_wf t ->
  dets !! k = Some d ->
  exists t' obj_id,
    advance frame_idx dets t = Ret t' /\
    (obj_id, obj_of_detection frame_idx d) ∈ tracked_objects t'.
Proof.
  intros Hwf Hk. eexists. 
  destruct (decide (Z.of_nat k ∈ consumed dets (tracked_objects t) ∅)) as [Hin|Hout].
  - destruct (consumed_carried _ _ _ Hin) as [Hempty|(obj_id & k' & d' & Hkk & Hd' & Hs)].
    { exfalso. exact (not_elem_of_empty _ Hempty). }
    apply Nat2Z.inj in Hkk. subst k'. rewrite Hk in Hd'. injection Hd' as <-.
    exists obj_id. split; [apply advance_spec; exact Hwf|].
    simpl. apply elem_of_app. left. exact Hs.
  - destruct (spawned_lookup frame_idx (consumed dets (tracked_objects t) ∅) dets 0
                (next_object_id t) k d Hk) as (id & _ & Hs).
    { simpl. exact Hout. }
    exists id. split; [apply advance_spec; exact Hwf|].
    simpl. apply elem_of_app. right. exact Hs.
Qed.

Lemma survivors_recent (tracks : dict obj_data) : forall m,
  Forall (fun e => last_seen_frame (snd e) < frame_idx) tracks ->
  Forall (fun e => frame_idx - grace_period < last_seen_frame (snd e) <= frame_idx)
    (survivors frame_idx dets tracks m).
Proof.
  induction tracks as [|[obj_id data] rest IH]; intros m Hold; [constructor|].
  apply Forall_cons in Hold as [Hd Hrest]. simpl in Hd. simpl survivors.
  apply Forall_app. split; [|apply IH; exact Hrest].
  destruct (claim dets data m) as [idx|]; simpl.
  - destruct (dets !! Z.to_nat idx) as [d|]; simpl; constructor; [|constructor].
    simpl. unfold grace_period. lia.
  - destruct (frame_idx - last_seen_frame data <? grace_period) eqn:E; constructor;
      [|constructor].
    apply Z.ltb_lt in E. simpl. lia.
Qed.

Lemma advance_recent (t t' : tracker) :
  tracker_wf t ->
  Forall (fun e => last_seen_frame (snd e) < frame_idx) (tracked_objects t) ->
  advance frame_idx dets t = Ret t' ->
  recently_seen frame_idx t'.
Proof.
  intros Hwf Hold Ht'. rewrite advance_spec in Ht' by exact Hwf. injection Ht' as <-.
  unfold recently_seen. simpl. apply Forall_app. split.
  - apply survivors_recent. exact Hold.
  - eapply Forall_impl; [apply spawned_last_seen|]. simpl. intros e ->.
    unfold grace_period. lia.
Qed.

End Births.

Lemma no_detection_lost_witness :
  exists t' obj_id,
    advance 1 contested_dets {| next_object_id := 2; tracked_objects := contested_tracks |}
      = Ret t' /\
    (obj_id, obj_of_detection 1 (detection_of_box (box 0 0 10 10))) ∈ tracked_objects t'.
Proof.
  apply (no_detection_lost 1 contested_dets
           {| next_object_id := 2; tracked_objects := contested_tracks |} 0%nat).
  - unfold tracker_wf. simpl. split; [|split; [|lia]].
    + apply NoDup_cons. split; [|apply NoDup_singleton].
      intros H. apply list_elem_of_singleton in H. discriminate.
    + repeat constructor; lia.
  - reflexivity.
Defined.

Lemma advance_frames_seen_before (frames : list (list yolo_box)) : forall frame_idx t t',
  tracker_wf t ->
  Forall (fun e => last_seen_frame (snd e) < frame_idx) (tracked_objects t) ->
  advance_frames frame_idx frames t = Ret t' ->
  tracker_wf t' /\
  Forall (fun e => last_seen_frame (snd e) < frame_idx + Z.of_nat (length frames))
    (tracked_objects t').
Proof.
  induction frames as [|boxes rest IH]; intros frame_idx t t' Hwf Hold Hrun.
  - simpl in Hrun. injection Hrun as <-. split; [exact Hwf|].
    eapply Forall_impl; [exact Hold|]. simpl. intros; lia.
  - cbn [advance_frames] in Hrun.
    destruct (advance frame_idx (map detection_of_box boxes) t) as [t1|e] eqn:Ha;
      simpl in Hrun; [|discriminate].
    pose proof (advance_wf _ _ _ _ Hwf Ha) as Hwf1.
    pose proof (advance_recent _ _ _ _ Hwf Hold Ha) as Hrec.
    destruct (IH (frame_idx + 1) t1 t' Hwf1) as [Hwf' Hlt]; [|exact Hrun|].
    + unfold recently_seen in Hrec. rewrite Forall_forall in *.
      intros x Hx. specialize (Hrec x Hx). simpl in Hrec. lia.
    + split; [exact Hwf'|]. rewrite Forall_forall in *.
      intros x Hx. specialize (Hlt x Hx). simpl in Hlt. simpl length. lia.
Qed.

(** After every frame of a run, each live track was matched or spawned in
    that frame or in one of the four frames before it. *)
Theorem live_tracks_recently_seen (cfg : config) (fw fh : Z)
    (frames : list (list yolo_box)) (boxes : list yolo_box) (ambient : globals) :
  exists t,
    final_tracker (process_video_for_wrong_way cfg fw fh (frames ++ [boxes]) ambient)
      = Some t /\
    recently_seen (Z.of_nat (length frames)) t.
Proof.
  destruct (final_tracker_video cfg fw fh (frames ++ [boxes]) ambient) as (t & Ha & Hf).
  exists t. split; [exact Hf|].
  rewrite advance_frames_app in Ha.
  destruct (advance_frames 0 frames new_tracker) as [t1|e] eqn:H1;
    cbn [py_bind advance_frames] in Ha; [|discriminate].
  destruct (advance_frames_seen_before frames 0 new_tracker t1 new_tracker_wf) as [Hwf1 Hold];
    [constructor | exact H1 |].
  change (0 + Z.of_nat (length frames)) with (Z.of_nat (length frames)) in *.
  destruct (advance (Z.of_nat (length frames)) (map detection_of_box boxes) t1)
    as [t2|e] eqn:H2; cbn [py_bind] in Ha; [|discriminate].
  injection Ha as ->.
  apply (advance_recent _ _ _ _ Hwf1 Hold H2).
Qed.

(** ** More on the classifier's state *)

Section MoreClassifier.

Variable cfg : config.

Lemma init_line_keeps (fw fh : Z) (g : globals) :
  (forall y, DETECTION_LINE_Y g = Some y ->
             DETECTION_LINE_Y (init_detection_line cfg fw fh g) = Some y) /\
  (forall x, DETECTION_LINE_X g = Some x ->
             DETECTION_LINE_X (init_detection_line cfg fw fh g) = Some x) /\
  (is_vertical cfg = true ->
   DETECTION_LINE_X (init_detection_line cfg fw fh g) = DETECTION_LINE_X g) /\
  (is_vertical cfg = false ->
   DETECTION_LINE_Y (init_detection_line cfg fw fh g) = DETECTION_LINE_Y g).
Proof.
  unfold init_detection_line, is_vertical.
  destruct (String.eqb (FLOW_TYPE cfg) "vertical_flow") eqn:Ev; simpl.
  - assert (Eh : String.eqb (FLOW_TYPE cfg) "horizontal_flow" = false).
    { apply String.eqb_eq in Ev. rewrite Ev. reflexivity. }
    rewrite Eh. simpl.
    destruct (DETECTION_LINE_Y g) eqn:Ey; simpl; repeat split; intros;
      try discriminate; auto; congruence.
  - destruct (String.eqb (FLOW_TYPE cfg) "horizontal_flow" && is_None (DETECTION_LINE_X g))
      eqn:E; simpl; repeat split; intros; try discriminate; auto.
    match goal with Hx : DETECTION_LINE_X g = Some _ |- _ => rewrite Hx in E end.
    rewrite andb_false_r in E. discriminate.
Qed.

Lemma determine_direction_lines (object_id : Z) (c : Z * Z) (fw fh : Z) (g : globals) :
  let g' := snd (determine_direction cfg object_id c fw fh g) in
  (forall y, DETECTION_LINE_Y g = Some y -> DETECTION_LINE_Y g' = Some y) /\
  (forall x, DETECTION_LINE_X g = Some x -> DETECTION_LINE_X g' = Some x) /\
  (is_vertical cfg = true -> DETECTION_LINE_X g' = DETECTION_LINE_X g) /\
  (is_vertical cfg = false -> DETECTION_LINE_Y g' = DETECTION_LINE_Y g).
Proof.
  unfold determine_direction.
  set (g1 := set_history g _).
  destruct (length (items (appended_history cfg object_id c g)) <? 2)%nat;
    [simpl; auto|].
  destruct (head (items (appended_history cfg object_id c g))); [|simpl; auto].
  destruct (last (items (appended_history cfg object_id c g))); [|simpl; auto].
  cbn [snd]. apply (init_line_keeps fw fh g1).
Qed.

Lemma run_calls_cons_state (c : call) (cs : list call) (g : globals) :
  snd (run_calls cfg (c :: cs) g) = snd (run_calls cfg cs (snd (do_call cfg c g))).
Proof.
  simpl. unfold do_call.
  destruct (determine_direction_total cfg (call_id c) (call_centroid c) (call_width c)
              (call_height c) g) as [v Hv].
  destruct (determine_direction cfg (call_id c) (call_centroid c) (call_width c)
              (call_height c) g) as [r g']. simpl in *. subst r.
  destruct (run_calls cfg cs g') as [[vs|e] g'']; reflexivity.
Qed.

(** The detection line is fixed once: a line that is set keeps its value
    through every later call, whatever frame size those calls pass, and the
    line of the other axis is never touched. *)
Theorem detection_line_fixed_once (cs : list call) (g : globals) :
  let g' := snd (run_calls cfg cs g) in
  (forall y, DETECTION_LINE_Y g = Some y -> DETECTION_LINE_Y g' = Some y) /\
  (forall x, DETECTION_LINE_X g = Some x -> DETECTION_LINE_X g' = Some x) /\
  (is_vertical cfg = true -> DETECTION_LINE_X g' = DETECTION_LINE_X g) /\
  (is_vertical cfg = false -> DETECTION_LINE_Y g' = DETECTION_LINE_Y g).
Proof.
  revert g. induction cs as [|c cs IH]; intros g; [simpl; auto|].
  cbv zeta. rewrite run_calls_cons_state.
  destruct (IH (snd (do_call cfg c g))) as (IHy & IHx & IHv & IHh).
  destruct (determine_direction_lines (call_id c) (call_centroid c) (call_width c)
              (call_height c) g) as (Hy & Hx & Hv & Hh).
  fold (do_call cfg c g) in Hy, Hx, Hv, Hh.
  repeat split.
  - intros y Ey. apply IHy, Hy, Ey.
  - intros x Ex. apply IHx, Hx, Ex.
  - intros Ev. rewrite IHv, Hv by exact Ev. reflexivity.
  - intros Ev. rewrite IHh, Hh by exact Ev. reflexivity.
Qed.

Lemma last_n_short {A : Type} (n : nat) (l : list A) :
  (length l <= n)%nat -> last_n n l = l.
Proof.
  intros H. unfold last_n. replace (length l - n)%nat with 0%nat by lia. reflexivity.
Qed.

Lemma last_n_app_l {A : Type} (n : nat) (l r : list A) :
  last_n n (last_n n l ++ r) = last_n n (l ++ r).
Proof.
  destruct (Nat.le_gt_cases (length l) n) as [H|H].
  - rewrite (last_n_short n l) by exact H. reflexivity.
  - unfold last_n. rewrite !length_app, length_drop.
    replace (length l - (length l - n) + length r - n)%nat with (length r) by lia.
    replace (length l + length r - n)%nat with ((length l - n) + length r)%nat by lia.
    rewrite <- drop_drop, (drop_app_le l r (length l - n)) by lia.
    reflexivity.
Qed.

Lemma appended_history_window (object_id : Z) (c : Z * Z) (g : globals) :
  history_bounded cfg g ->
  items (appended_history cfg object_id c g)
  = last_n (HISTORY_BUFFER_SIZE cfg) (history_items g object_id ++ [c]).
Proof.
  intros Hg. rewrite appended_history_items by exact Hg.
  pose proof (history_items_bounded cfg g object_id Hg) as Hlen.
  unfold last_n. rewrite length_app. simpl length.
  destruct (length (history_items g object_id) <? HISTORY_BUFFER_SIZE cfg)%nat eqn:E.
  - apply Nat.ltb_lt in E.
    replace (length (history_items g object_id) + 1 - HISTORY_BUFFER_SIZE cfg)%nat
      with 0%nat by lia.
    reflexivity.
  - apply Nat.ltb_ge in E.
    replace (length (history_items g object_id) + 1 - HISTORY_BUFFER_SIZE cfg)%nat
      with 1%nat by lia.
    destruct (history_items g object_id ++ [c]); reflexivity.
Qed.

Lemma history_items_after_call (object_id : Z) (c : call) (g : globals) :
  history_items (snd (do_call cfg c g)) object_id =
  if decide (call_id c = object_id)
  then items (appended_history cfg (call_id c) (call_centroid c) g)
  else history_items g object_id.
Proof.
  unfold history_items, do_call. rewrite determine_direction_history.
  destruct (decide (call_id c = object_id)) as [->|Hne].
  - rewrite lookup_insert_eq. reflexivity.
  - rewrite lookup_insert_ne by exact Hne. reflexivity.
Qed.

Lemma history_window_from (cs : list call) : forall g object_id,
  history_bounded cfg g ->
  history_items (snd (run_calls cfg cs g)) object_id
  = last_n (HISTORY_BUFFER_SIZE cfg) (history_items g object_id ++ centroids_of object_id cs).
Proof.
  induction cs as [|c cs IH]; intros g object_id Hg.
  - simpl. unfold centroids_of. simpl. rewrite app_nil_r.
    symmetry. apply last_n_short, history_items_bounded, Hg.
  - rewrite run_calls_cons_state, IH
      by (apply determine_direction_bounded; exact Hg).
    rewrite history_items_after_call. unfold centroids_of. rewrite filter_cons.
    destruct (decide (call_id c = object_id)) as [Heq|Hne].
    + rewrite Heq, appended_history_window by exact Hg.
      rewrite last_n_app_l, <- app_assoc. reflexivity.
    + reflexivity.
Qed.

(** The history of an identity is the last [HISTORY_BUFFER_SIZE] centroids
    passed for it, oldest first, whatever calls for other identities came in
    between. *)
Theorem history_is_recent_window (cs : list call) (object_id : Z) :
  history_items (snd (run_calls cfg cs fresh_globals)) object_id
  = last_n (HISTORY_BUFFER_SIZE cfg) (centroids_of object_id cs).
Proof.
  rewrite history_window_from by apply fresh_globals_bounded. reflexivity.
Qed.

Lemma determine_direction_capacity_1 (object_id : Z) (c : Z * Z) (fw fh : Z)
    (g : globals) :
  history_bounded cfg g -> (HISTORY_BUFFER_SIZE cfg <= 1)%nat ->
  fst (determine_direction cfg object_id c fw fh g) = Ret None.
Proof.
  intros Hg H1. apply determine_direction_short.
  destruct (appended_history_bounded cfg object_id c g Hg) as [Hm Hl]. lia.
Qed.

(** With a capacity of 0 or 1 the classifier never decides. *)
Theorem small_capacity_never_decides (cs : list call) :
  (HISTORY_BUFFER_SIZE cfg <= 1)%nat ->
  fst (run_calls cfg cs fresh_globals) = Ret (repeat None (length cs)).
Proof.
  intros H1.
  assert (Hgen : forall g, history_bounded cfg g ->
                           fst (run_calls cfg cs g) = Ret (repeat None (length cs))).
  { induction cs as [|c cs IH]; intros g Hg; [reflexivity|].
    simpl.
    pose proof (determine_direction_capacity_1 (call_id c) (call_centroid c)
                  (call_width c) (call_height c) g Hg H1) as Hn.
    pose proof (determine_direction_bounded cfg (call_id c) (call_centroid c)
                  (call_width c) (call_height c) g Hg) as Hb.
    unfold do_call.
    destruct (determine_direction cfg (call_id c) (call_centroid c) (call_width c)
                (call_height c) g) as [r g']. simpl in *. subst r.
    specialize (IH g' Hb).
    destruct (run_calls cfg cs g') as [[vs|e] g'']; simpl in IH; [|discriminate].
    injection IH as ->. reflexivity. }
  apply Hgen, fresh_globals_bounded.
Qed.

End MoreClassifier.

Lemma small_capacity_never_decides_witness :
  fst (run_calls {| HISTORY_BUFFER_SIZE := 1; MIN_MOVEMENT_PIXELS := 10;
                    FLOW_TYPE := "vertical_flow"; EXPECTED_DIRECTION := "down" |}
         (map scenario_call [(50, 200); (50, 150); (50, 90)]) fresh_globals)
  = Ret (repeat None 3).
Proof.
  apply (small_capacity_never_decides
           {| HISTORY_BUFFER_SIZE := 1; MIN_MOVEMENT_PIXELS := 10;
              FLOW_TYPE := "vertical_flow"; EXPECTED_DIRECTION := "down" |}
           (map scenario_call [(50, 200); (50, 150); (50, 90)])).
  simpl. lia.
Defined.

(** ** The verdict in closed form *)

Section Decision.

Variable cfg : config.

(** What a call returns is [decision] on the history after the append and
    the line after its lazy initialisation. *)
Lemma determine_direction_decision (object_id : Z) (c : Z * Z) (fw fh : Z) (g : globals) :
  fst (determine_direction cfg object_id c fw fh g) =
  Ret (decision cfg (items (appended_history cfg object_id c g))
         (boundary_line cfg fw fh g)).
Proof.
  unfold decision.
  set (h := items (appended_history cfg object_id c g)).
  destruct (length h <? 2)%nat eqn:El.
  { apply Nat.ltb_lt in El. apply determine_direction_short. exact El. }
  apply Nat.ltb_ge in El.
  destruct (Z.abs (displacement cfg h) <=? MIN_MOVEMENT_PIXELS cfg) eqn:Em.
  { apply Z.leb_le in Em. apply determine_direction_still. exact Em. }
  apply Z.leb_gt in Em.
  destruct (is_vertical cfg) eqn:Ev; simpl.
  { apply determine_direction_decides; auto. }
  destruct (is_horizontal cfg) eqn:Eh.
  { apply determine_direction_decides; auto. }
  rewrite determine_direction_long by exact El.
  unfold classify_motion. fold (is_vertical cfg). fold (is_horizontal cfg).
  rewrite Ev, Eh. reflexivity.
Qed.

Lemma wrong_way_condition_endpoints (h1 h2 : list (Z * Z)) (line : Z) :
  oldest h1 = oldest h2 -> newest h1 = newest h2 ->
  wrong_way_condition cfg h1 line = wrong_way_condition cfg h2 line /\
  displacement cfg h1 = displacement cfg h2.
Proof.
  intros Ho Hn. unfold wrong_way_condition, raw_direction, displacement.
  rewrite Ho, Hn. split; reflexivity.
Qed.

(** Only the oldest and the newest stored centroid count: two calls whose
    histories hold at least two centroids and agree on both ends, with the
    line at the same place, return the same verdict, whatever lies in
    between. *)
Theorem verdict_depends_on_endpoints (id1 id2 : Z) (c1 c2 : Z * Z) (fw1 fh1 fw2 fh2 : Z)
    (g1 g2 : globals) :
  let h1 := items (appended_history cfg id1 c1 g1) in
  let h2 := items (appended_history cfg id2 c2 g2) in
  (2 <= length h1)%nat -> (2 <= length h2)%nat ->
  oldest h1 = oldest h2 -> newest h1 = newest h2 ->
  boundary_line cfg fw1 fh1 g1 = boundary_line cfg fw2 fh2 g2 ->
  fst (determine_direction cfg id1 c1 fw1 fh1 g1)
  = fst (determine_direction cfg id2 c2 fw2 fh2 g2).
Proof.
  intros h1 h2 Hl1 Hl2 Ho Hn Hline.
  rewrite !determine_direction_decision. fold h1 h2. rewrite Hline.
  unfold decision.
  destruct (wrong_way_condition_endpoints h1 h2 (boundary_line cfg fw2 fh2 g2) Ho Hn)
    as [Hw Hd].
  rewrite Hw, Hd.
  apply Nat.ltb_ge in Hl1, Hl2. rewrite Hl1, Hl2. reflexivity.
Qed.

Lemma run_calls_cons (c : call) (cs : list call) (g : globals) :
  run_calls cfg (c :: cs) g =
  (match fst (run_calls cfg cs (snd (do_call cfg c g))) with
   | Ret vs =>
       Ret (decision cfg (items (appended_history cfg (call_id c) (call_centroid c) g))
              (boundary_line cfg (call_width c) (call_height c) g) :: vs)
   | Raise e => Raise e
   end,
   snd (run_calls cfg cs (snd (do_call cfg c g)))).
Proof.
  simpl.
  pose proof (determine_direction_decision (call_id c) (call_centroid c) (call_width c)
                (call_height c) g) as Hd.
  unfold do_call.
  destruct (determine_direction cfg (call_id c) (call_centroid c) (call_width c)
              (call_height c) g) as [r g']. simpl in *. subst r.
  destruct (run_calls cfg cs g') as [[vs|e] g'']; reflexivity.
Qed.

Lemma run_calls_total (cs : list call) : forall g,
  exists rs, fst (run_calls cfg cs g) = Ret rs /\ length rs = length cs.
Proof.
  induction cs as [|c cs IH]; intros g.
  - exists []. split; reflexivity.
  - rewrite run_calls_cons. destruct (IH (snd (do_call cfg c g))) as (vs & Hvs & Hlen).
    simpl. rewrite Hvs. eexists. split; [reflexivity|]. simpl. rewrite Hlen. reflexivity.
Qed.

Lemma boundary_line_for_frame (fw fh : Z) (g : globals) :
  lines_for_frame fw fh g ->
  boundary_line cfg fw fh g = if is_vertical cfg then half fh else half fw.
Proof.
  intros [[Hy|Hy] [Hx|Hx]]; unfold boundary_line; rewrite Hy, Hx; reflexivity.
Qed.

Lemma init_line_for_frame (fw fh : Z) (g : globals) :
  lines_for_frame fw fh g -> lines_for_frame fw fh (init_detection_line cfg fw fh g).
Proof.
  intros [Hy Hx]. unfold init_detection_line, lines_for_frame.
  destruct (String.eqb (FLOW_TYPE cfg) "vertical_flow" && is_None (DETECTION_LINE_Y g));
    [simpl; auto|].
  destruct (String.eqb (FLOW_TYPE cfg) "horizontal_flow" && is_None (DETECTION_LINE_X g));
    simpl; auto.
Qed.

Lemma do_call_for_frame (fw fh : Z) (c : call) (g : globals) :
  call_width c = fw -> call_height c = fh ->
  lines_for_frame fw fh g -> lines_for_frame fw fh (snd (do_call cfg c g)).
Proof.
  intros <- <- Hg. unfold do_call, determine_direction.
  set (g1 := set_history g _).
  assert (Hg1 : lines_for_frame (call_width c) (call_height c) g1) by exact Hg.
  destruct (length (items (appended_history cfg (call_id c) (call_centroid c) g)) <? 2)%nat;
    [exact Hg1|].
  destruct (head (items (appended_history cfg (call_id c) (call_centroid c) g)));
    [|exact Hg1].
  destruct (last (items (appended_history cfg (call_id c) (call_centroid c) g)));
    [|exact Hg1].
  cbn [snd]. apply init_line_for_frame. exact Hg1.
Qed.

Lemma appended_history_same (object_id : Z) (c : Z * Z) (g g' : globals) :
  object_centroid_history g !! object_id = object_centroid_history g' !! object_id ->
  appended_history cfg object_id c g = appended_history cfg object_id c g'.
Proof. intros H. unfold appended_history. rewrite H. reflexivity. Qed.

Lemma Ret_inj {A : Type} (a b : A) : Ret a = Ret b -> a = b.
Proof. intros H. injection H as H. exact H. Qed.

Lemma results_independent_from (fw fh : Z) (object_id : Z) (cs : list call) :
  Forall (fun c => call_width c = fw /\ call_height c = fh) cs ->
  forall g g' rs rs',
    lines_for_frame fw fh g -> lines_for_frame fw fh g' ->
    object_centroid_history g !! object_id = object_centroid_history g' !! object_id ->
    fst (run_calls cfg cs g) = Ret rs ->
    fst (run_calls cfg (calls_for object_id cs) g') = Ret rs' ->
    results_for object_id cs rs = rs'.
Proof.
  unfold results_for, calls_for.
  induction cs as [|c cs IH]; intros Hdims g g' rs rs' Hg Hg' Hh Hrs Hrs'.
  - simpl in *. injection Hrs as <-. injection Hrs' as <-. reflexivity.
  - apply Forall_cons in Hdims as [[Hw Hhh] Hdims].
    rewrite run_calls_cons in Hrs. cbn [fst] in Hrs.
    destruct (fst (run_calls cfg cs (snd (do_call cfg c g)))) as [vs|e] eqn:Hvs;
      [|discriminate].
    apply Ret_inj in Hrs. subst rs.
    pose proof (do_call_for_frame fw fh c g Hw Hhh Hg) as Hg1.
    rewrite filter_cons in Hrs'. cbn [zip_with]. rewrite filter_cons. cbn [fst].
    destruct (decide (call_id c = object_id)) as [Heq|Hne].
    + rewrite run_calls_cons in Hrs'. cbn [fst] in Hrs'.
      destruct (fst (run_calls cfg (filter (fun c0 => call_id c0 = object_id) cs)
                       (snd (do_call cfg c g')))) as [vs'|e] eqn:Hvs'; [|discriminate].
      apply Ret_inj in Hrs'. subst rs'.
      pose proof (do_call_for_frame fw fh c g' Hw Hhh Hg') as Hg1'.
      cbn [map snd]. f_equal.
      * rewrite Hw, Hhh, !boundary_line_for_frame by assumption.
        rewrite Heq in *. rewrite (appended_history_same _ _ g g' Hh). reflexivity.
      * apply (IH Hdims _ _ _ _ Hg1 Hg1'); [|exact Hvs|exact Hvs'].
        unfold do_call. rewrite !determine_direction_history.
        rewrite Heq in *. rewrite !lookup_insert_eq.
        rewrite (appended_history_same _ _ g g' Hh). reflexivity.
    + apply (IH Hdims _ _ _ _ Hg1 Hg'); [|exact Hvs|exact Hrs'].
      unfold do_call. rewrite determine_direction_history.
      rewrite lookup_insert_ne by exact Hne. exact Hh.
Qed.

(** With one frame size throughout, the verdicts returned for an identity
    are those the classifier would return if the calls for all other
    identities were left out. *)
Theorem verdicts_independent_of_other_tracks (fw fh : Z) (object_id : Z) (cs : list call) :
  Forall (fun c => call_width c = fw /\ call_height c = fh) cs ->
  exists rs rs',
    fst (run_calls cfg cs fresh_globals) = Ret rs /\
    fst (run_calls cfg (calls_for object_id cs) fresh_globals) = Ret rs' /\
    results_for object_id cs rs = rs'.
Proof.
  intros Hdims.
  destruct (run_calls_total cs fresh_globals) as (rs & Hrs & _).
  destruct (run_calls_total (calls_for object_id cs) fresh_globals) as (rs' & Hrs' & _).
  exists rs, rs'. split; [exact Hrs|]. split; [exact Hrs'|].
  apply (results_independent_from fw fh object_id cs Hdims fresh_globals fresh_globals);
    try assumption; try reflexivity; split; left; reflexivity.
Qed.

End Decision.

Lemma verdict_depends_on_endpoints_witness :
  let g1 := snd (run_calls default_config
                   (map scenario_call [(50, 200); (50, 150)]) fresh_globals) in
  let g2 := snd (run_calls default_config
                   (map scenario_call [(50, 200); (70, 10); (3, 280)]) fresh_globals) in
  fst (determine_direction default_config 0 (50, 90) 400 300 g1)
  = fst (determine_direction default_config 0 (50, 90) 400 300 g2).
Proof.
  intros g1 g2.
  apply (verdict_depends_on_endpoints default_config 0 0 (50, 90) (50, 90)
           400 300 400 300 g1 g2).
  - vm_compute. lia.
  - vm_compute. lia.
  - vm_compute. reflexivity.
  - vm_compute. reflexivity.
  - vm_compute. reflexivity.
Defined.

Lemma verdicts_independent_of_other_tracks_witness :
  exists rs rs',
    fst (run_calls default_config
           [scenario_call (50, 200);
            {| call_id := 1; call_centroid := (9, 9); call_width := 400;
               call_height := 300 |};
            scenario_call (50, 90)] fresh_globals) = Ret rs /\
    fst (run_calls default_config
           (calls_for 0
              [scenario_call (50, 200);
               {| call_id := 1; call_centroid := (9, 9); call_width := 400;
                  call_height := 300 |};
               scenario_call (50, 90)]) fresh_globals) = Ret rs' /\
    results_for 0
      [scenario_call (50, 200);
       {| call_id := 1; call_centroid := (9, 9); call_width := 400; call_height := 300 |};
       scenario_call (50, 90)] rs = rs'.
Proof.
  apply (verdicts_independent_of_other_tracks default_config 400 300 0).
  repeat constructor.
Defined.

(** ** Verdicts along a run *)

Section Verdicts.

Variable cfg : config.
Variables frame_width frame_height : Z.

Lemma decision_values (h : list (Z * Z)) (line : Z) :
  decision cfg h line = None \/ decision cfg h line = Some "correct"
  \/ decision cfg h line = Some "wrong".
Proof.
  unfold decision.
  destruct (length h <? 2)%nat; [auto|].
  destruct (Z.abs (displacement cfg h) <=? MIN_MOVEMENT_PIXELS cfg); [auto|].
  destruct (is_vertical cfg || is_horizontal cfg); [|auto].
  destruct (wrong_way_condition cfg h line); auto.
Qed.

(** A call leaves the stored verdicts alone. *)
Lemma determine_direction_status (object_id : Z) (c : Z * Z) (g : globals) :
  object_direction_status
    (snd (determine_direction cfg object_id c frame_width frame_height g))
  = object_direction_status g.
Proof.
  unfold determine_direction.
  destruct (length (items (appended_history cfg object_id c g)) <? 2)%nat; [reflexivity|].
  destruct (head (items (appended_history cfg object_id c g))); [|reflexivity].
  destruct (last (items (appended_history cfg object_id c g))); [|reflexivity].
  cbn [snd]. unfold init_detection_line.
  match goal with |- context [if ?b then _ else _] => destruct b end; [reflexivity|].
  match goal with |- context [if ?b then _ else _] => destruct b end; reflexivity.
Qed.

(** The first call for an identity never decides. *)
Lemma first_call_abstains (object_id : Z) (c : Z * Z) (g : globals) :
  object_centroid_history g !! object_id = None ->
  fst (determine_direction cfg object_id c frame_width frame_height g) = Ret None.
Proof.
  intros Hnew. apply determine_direction_short.
  unfold appended_history. rewrite Hnew. unfold deque_append, deque_new. simpl.
  destruct (HISTORY_BUFFER_SIZE cfg <? 1)%nat; simpl; lia.
Qed.

Lemma classify_tracks_cons (obj_id : Z) (data : obj_data) (rest : dict obj_data)
    (g : globals) :
  classify_tracks cfg frame_width frame_height ((obj_id, data) :: rest) g =
  (do r <- classify_tracks cfg frame_width frame_height rest
      (after_turn cfg frame_width frame_height obj_id data g) in
   Ret ({| track_id := obj_id;
           report_data := data;
           report_verdict := object_direction_status
               (after_turn cfg frame_width frame_height obj_id data g) !! obj_id |}
        :: fst r, snd r)).
Proof.
  unfold after_turn. cbn [classify_tracks].
  pose proof (determine_direction_decision cfg obj_id (obj_centroid data)
                frame_width frame_height g) as Hd.
  destruct (determine_direction cfg obj_id (obj_centroid data) frame_width frame_height g)
    as [r g1]. cbn [fst snd] in *. subst r.
  destruct (decision cfg (items (appended_history cfg obj_id (obj_centroid data) g))
              (boundary_line cfg frame_width frame_height g)) as [s|]; reflexivity.
Qed.

Lemma after_turn_history (obj_id : Z) (data : obj_data) (g : globals) :
  object_centroid_history (after_turn cfg frame_width frame_height obj_id data g) =
  <[obj_id := appended_history cfg obj_id (obj_centroid data) g]>
    (object_centroid_history g).
Proof.
  unfold after_turn. cbv zeta.
  destruct (decision cfg _ _) as [s|]; [destruct (negb (String.eqb s ""))|]; simpl;
    apply determine_direction_history.
Qed.

Lemma after_turn_status (obj_id : Z) (data : obj_data) (g : globals) :
  object_direction_status (after_turn cfg frame_width frame_height obj_id data g) =
  match decision cfg (items (appended_history cfg obj_id (obj_centroid data) g))
          (boundary_line cfg frame_width frame_height g) with
  | Some s => if negb (String.eqb s "")
              then <[obj_id := s]> (object_direction_status g)
              else object_direction_status g
  | None => object_direction_status g
  end.
Proof.
  unfold after_turn. cbv zeta.
  destruct (decision cfg _ _) as [s|]; [destruct (negb (String.eqb s ""))|]; simpl;
    rewrite determine_direction_status; reflexivity.
Qed.

Lemma after_turn_sound (obj_id : Z) (data : obj_data) (g : globals) :
  status_sound g -> status_sound (after_turn cfg frame_width frame_height obj_id data g).
Proof.
  intros Hg id s. rewrite after_turn_status.
  destruct (decision_values (items (appended_history cfg obj_id (obj_centroid data) g))
              (boundary_line cfg frame_width frame_height g)) as [->|[->| ->]];
    simpl; try apply Hg.
  - destruct (decide (obj_id = id)) as [->|Hne].
    + rewrite lookup_insert_eq. intros [= <-]. auto.
    + rewrite lookup_insert_ne by exact Hne. apply Hg.
  - destruct (decide (obj_id = id)) as [->|Hne].
    + rewrite lookup_insert_eq. intros [= <-]. auto.
    + rewrite lookup_insert_ne by exact Hne. apply Hg.
Qed.

Lemma after_turn_other (obj_id : Z) (data : obj_data) (g : globals) (id : Z) :
  obj_id <> id ->
  object_centroid_history (after_turn cfg frame_width frame_height obj_id data g) !! id
    = object_centroid_history g !! id /\
  object_direction_status (after_turn cfg frame_width frame_height obj_id data g) !! id
    = object_direction_status g !! id.
Proof.
  intros Hne. rewrite after_turn_history, after_turn_status.
  rewrite lookup_insert_ne by exact Hne. split; [reflexivity|].
  destruct (decision cfg _ _) as [s|]; [destruct (negb (String.eqb s ""))|];
    rewrite ?lookup_insert_ne by exact Hne; reflexivity.
Qed.

Lemma after_turn_new (obj_id : Z) (data : obj_data) (g : globals) :
  object_centroid_history g !! obj_id = None ->
  object_direction_status (after_turn cfg frame_width frame_height obj_id data g) !! obj_id
  = object_direction_status g !! obj_id.
Proof.
  intros Hnew. rewrite after_turn_status.
  pose proof (first_call_abstains obj_id (obj_centroid data) g Hnew) as Hn.
  rewrite determine_direction_decision in Hn. apply Ret_inj in Hn. rewrite Hn.
  reflexivity.
Qed.

Lemma classify_tracks_frame (tracks : dict obj_data) : forall g reports g',
  classify_tracks cfg frame_width frame_height tracks g = Ret (reports, g') ->
  (status_sound g -> status_sound g' /\ Forall report_ok reports) /\
  (forall id, id ∉ dict_keys tracks ->
     object_centroid_history g' !! id = object_centroid_history g !! id /\
     object_direction_status g' !! id = object_direction_status g !! id) /\
  (NoDup (dict_keys tracks) ->
   forall r, r ∈ reports ->
     object_centroid_history g !! track_id r = None ->
     object_direction_status g !! track_id r = None ->
     report_verdict r = None).
Proof.
  induction tracks as [|[obj_id data] rest IH]; intros g reports g' Hrun.
  - simpl in Hrun. apply Ret_inj in Hrun. injection Hrun as <- <-.
    split; [intros Hg; split; [exact Hg | constructor]|].
    split; [auto|]. intros _ r Hr. apply elem_of_nil in Hr. contradiction.
  - rewrite classify_tracks_cons in Hrun.
    destruct (classify_tracks cfg frame_width frame_height rest
        (after_turn cfg frame_width frame_height obj_id data g))
      as [[rs g'']|e] eqn:Hrest; cbn [py_bind fst snd] in Hrun; [|discriminate].
    apply Ret_inj in Hrun. injection Hrun as <- <-.
    destruct (IH _ _ _ Hrest) as (IHs & IHo & IHn).
    split; [|split].
    + intros Hg. pose proof (after_turn_sound obj_id data g Hg) as Hg1.
      destruct (IHs Hg1) as [Hs Hrs]. split; [exact Hs|].
      constructor; [|exact Hrs]. unfold report_ok. simpl.
      destruct (object_direction_status
          (after_turn cfg frame_width frame_height obj_id data g) !! obj_id) as [s|] eqn:E;
        [|auto].
      destruct (Hg1 _ _ E) as [-> | ->]; auto.
    + intros id Hid. simpl in Hid. apply not_elem_of_cons in Hid as [Hne Hid].
      destruct (IHo id Hid) as [Hh Hs].
      destruct (after_turn_other obj_id data g id) as [Hh1 Hs1]; [congruence|].
      rewrite Hh, Hs. auto.
    + intros Hnd r Hr Hnew Hnone. simpl in Hnd. apply NoDup_cons in Hnd as [Hout Hnd].
      apply elem_of_cons in Hr as [->|Hr].
      * simpl in *. rewrite after_turn_new by exact Hnew. exact Hnone.
      * assert (Hin : track_id r ∈ dict_keys rest).
        { destruct (classify_tracks_total cfg frame_width frame_height rest

                          (after_turn cfg frame_width frame_height obj_id data g))
          as (rs' & g3 & Hrs' & Hids).
          rewrite Hrest in Hrs'. apply Ret_inj in Hrs'. injection Hrs' as <- <-.
          rewrite <- Hids. apply (list_elem_of_fmap_2 track_id). exact Hr. }
        assert (Hne : obj_id <> track_id r) by (intros ->; contradiction).
        destruct (after_turn_other obj_id data g (track_id r) Hne) as [Hh1 Hs1].
        apply (IHn Hnd r Hr); congruence.
Qed.

End Verdicts.

Section RunVerdicts.

Variable cfg : config.
Variables frame_width frame_height : Z.

Lemma fresh_run_invariant : run_invariant (new_tracker, fresh_globals).
Proof.
  split; [apply new_tracker_wf|]. split.
  - intros id [[d Hd]|[s Hs]]; simpl in *; rewrite lookup_empty in *; discriminate.
  - intros id s Hs. simpl in Hs. rewrite lookup_empty in Hs. discriminate.
Qed.

Lemma process_frame_invariant (frame_idx : Z) (boxes : list yolo_box) (t t' : tracker)
    (g g' : globals) (reports : list track_report) :
  run_invariant (t, g) ->
  process_frame cfg frame_width frame_height frame_idx boxes (t, g)
    = Ret (reports, (t', g')) ->
  run_invariant (t', g') /\
  Forall report_ok reports /\
  forall r, r ∈ reports -> next_object_id t <= track_id r -> report_verdict r = None.
Proof.
  intros (Hwf & Hbelow & Hsound) Hrun. unfold process_frame in Hrun. cbn [fst snd] in Hrun.
  destruct (advance frame_idx (map detection_of_box boxes) t) as [t1|e] eqn:Ha;
    cbn [py_bind] in Hrun; [|discriminate].
  destruct (classify_tracks cfg frame_width frame_height (tracked_objects t1) g)
    as [[rs g1]|e] eqn:Hc; cbn [py_bind fst snd] in Hrun; [|discriminate].
  apply Ret_inj in Hrun. injection Hrun as <- <- <-.
  pose proof (advance_wf _ _ _ _ Hwf Ha) as Hwf1.
  destruct (advance_ids _ _ _ _ Hwf Ha) as (kept & _ & _ & Hnext).
  pose proof (births_nonneg frame_idx (map detection_of_box boxes) t) as Hb.
  destruct (classify_tracks_frame cfg frame_width frame_height _ _ _ _ Hc)
    as (Hs & Hother & Hnew).
  destruct (Hs Hsound) as [Hsound1 Hreports].
  split; [split; [exact Hwf1 | split; [|exact Hsound1]]|split; [exact Hreports|]].
  - intros id Hknown. cbn [fst snd] in *.
    destruct (decide (id ∈ dict_keys (tracked_objects t1))) as [Hin|Hout].
    + destruct Hwf1 as (_ & Hlt & _). rewrite Forall_forall in Hlt.
      apply (Hlt id Hin).
    + destruct (Hother id Hout) as [Hh Hst]. rewrite Hh, Hst in Hknown.
      specialize (Hbelow id Hknown). cbn [fst] in Hbelow. lia.
  - intros r Hr Hfresh. apply (Hnew (proj1 Hwf1) r Hr).
    + destruct (object_centroid_history g !! track_id r) as [d|] eqn:E; [|reflexivity].
      assert (Hlt : track_id r < next_object_id t)
        by (apply (Hbelow (track_id r)); left; cbn [snd]; rewrite E; eauto).
      lia.
    + destruct (object_direction_status g !! track_id r) as [s|] eqn:E; [|reflexivity].
      assert (Hlt : track_id r < next_object_id t)
        by (apply (Hbelow (track_id r)); right; cbn [snd]; rewrite E; eauto).
      lia.
Qed.

Lemma process_frames_invariant (frames : list (list yolo_box)) :
  forall frame_idx st reports st',
    run_invariant st ->
    process_frames cfg frame_width frame_height frame_idx frames st = Ret (reports, st') ->
    run_invariant st' /\ Forall (Forall report_ok) reports.
Proof.
  induction frames as [|boxes rest IH]; intros frame_idx st reports st' Hinv Hrun.
  - simpl in Hrun. apply Ret_inj in Hrun. injection Hrun as <- <-.
    split; [exact Hinv | constructor].
  - cbn [process_frames] in Hrun. destruct st as [t g].
    destruct (process_frame cfg frame_width frame_height frame_idx boxes (t, g))
      as [[r [t1 g1]]|e] eqn:Hf; cbn [py_bind fst snd] in Hrun; [|discriminate].
    destruct (process_frames cfg frame_width frame_height (frame_idx + 1) rest (t1, g1))
      as [[rs st2]|e] eqn:Hfs; cbn [py_bind fst snd] in Hrun; [|discriminate].
    apply Ret_inj in Hrun. injection Hrun as <- <-.
    destruct (process_frame_invariant _ _ _ _ _ _ _ Hinv Hf) as (Hinv1 & Hr & _).
    destruct (IH _ _ _ _ Hinv1 Hfs) as [Hinv2 Hrs].
    split; [exact Hinv2 | constructor; assumption].
Qed.

(** Every verdict a run reports or stores is [correct] or [wrong]; a track
    without a verdict is reported with none. *)
Theorem verdicts_are_correct_or_wrong (frames : list (list yolo_box)) (ambient : globals) :
  exists reports st',
    process_video_for_wrong_way cfg frame_width frame_height frames ambient
      = Ret (reports, st') /\
    Forall (Forall report_ok) reports /\
    status_sound (snd st').
Proof.
  unfold process_video_for_wrong_way.
  destruct (process_frames_total cfg frame_width frame_height frames 0 new_tracker
              fresh_globals) as (reports & t' & g' & Hrun & _ & _).
  exists reports, (t', g'). split; [exact Hrun|].
  destruct (process_frames_invariant _ _ _ _ _ fresh_run_invariant Hrun) as [Hinv Hr].
  split; [exact Hr | apply Hinv].
Qed.

(** A track never has a verdict in the frame that spawns it: every report
    whose identity is at or above the counter's value before the frame
    carries no verdict. *)
Theorem new_track_has_no_verdict (frames : list (list yolo_box)) (boxes : list yolo_box)
    (ambient : globals) :
  exists reports t1 g1 rs st2,
    process_video_for_wrong_way cfg frame_width frame_height frames ambient
      = Ret (reports, (t1, g1)) /\
    process_video_for_wrong_way cfg frame_width frame_height (frames ++ [boxes]) ambient
      = Ret (reports ++ [rs], st2) /\
    map track_id rs = dict_keys (tracked_objects (fst st2)) /\
    forall r, r ∈ rs -> next_object_id t1 <= track_id r -> report_verdict r = None.
Proof.
  unfold process_video_for_wrong_way.
  destruct (process_frames_total cfg frame_width frame_height frames 0 new_tracker
              fresh_globals) as (reports & t1 & g1 & Hrun & _ & _).
  destruct (process_frames_invariant _ _ _ _ _ fresh_run_invariant Hrun) as [Hinv _].
  destruct (process_frame_total cfg frame_width frame_height
              (0 + Z.of_nat (length frames)) boxes t1 g1)
    as (rs & t2 & g2 & Hf & _ & Hids).
  destruct (process_frame_invariant _ _ _ _ _ _ _ Hinv Hf) as (_ & _ & Hnew).
  exists reports, t1, g1, rs, (t2, g2).
  split; [exact Hrun|]. split; [|split; [exact Hids | exact Hnew]].
  rewrite process_frames_app, Hrun. cbn [py_bind fst snd process_frames].
  rewrite Hf. reflexivity.
Qed.

End RunVerdicts.

(** ** What a run keeps *)

Section Keeps.

Variable cfg : config.
Variables frame_width frame_height : Z.

Lemma classify_tracks_remembers (tracks : dict obj_data) : forall g reports g' id,
  classify_tracks cfg frame_width frame_height tracks g = Ret (reports, g') ->
  (is_Some (object_centroid_history g !! id) ->
   is_Some (object_centroid_history g' !! id)) /\
  (is_Some (object_direction_status g !! id) ->
   is_Some (object_direction_status g' !! id)).
Proof.
  induction tracks as [|[obj_id data] rest IH]; intros g reports g' id Hrun.
  - simpl in Hrun. apply Ret_inj in Hrun. injection Hrun as <- <-. auto.
  - rewrite classify_tracks_cons in Hrun.
    destruct (classify_tracks cfg frame_width frame_height rest
                (after_turn cfg frame_width frame_height obj_id data g))
      as [[rs g'']|e] eqn:Hrest; cbn [py_bind fst snd] in Hrun; [|discriminate].
    apply Ret_inj in Hrun. injection Hrun as <- <-.
    destruct (IH _ _ _ id Hrest) as [IHh IHs].
    split; intros Hk.
    + apply IHh. rewrite after_turn_history.
      destruct (decide (obj_id = id)) as [->|Hne].
      * rewrite lookup_insert_eq. eauto.
      * rewrite lookup_insert_ne by exact Hne. exact Hk.
    + apply IHs. rewrite after_turn_status.
      destruct (decision cfg _ _) as [s|]; [destruct (negb (String.eqb s ""))|];
        try exact Hk.
      destruct (decide (obj_id = id)) as [->|Hne].
      * rewrite lookup_insert_eq. eauto.
      * rewrite lookup_insert_ne by exact Hne. exact Hk.
Qed.

Lemma process_frames_remembers (frames : list (list yolo_box)) :
  forall frame_idx st reports st' id,
    process_frames cfg frame_width frame_height frame_idx frames st = Ret (reports, st') ->
    (is_Some (object_centroid_history (snd st) !! id) ->
     is_Some (object_centroid_history (snd st') !! id)) /\
    (is_Some (object_direction_status (snd st) !! id) ->
     is_Some (object_direction_status (snd st') !! id)).
Proof.
  induction frames as [|boxes rest IH]; intros frame_idx st reports st' id Hrun.
  - simpl in Hrun. apply Ret_inj in Hrun. injection Hrun as <- <-. auto.
  - cbn [process_frames] in Hrun. unfold process_frame in Hrun.
    destruct (advance frame_idx (map detection_of_box boxes) (fst st)) as [t1|e];
      cbn [py_bind] in Hrun; [|discriminate].
    destruct (classify_tracks cfg frame_width frame_height (tracked_objects t1) (snd st))
      as [[rs g1]|e] eqn:Hc; cbn [py_bind fst snd] in Hrun; [|discriminate].
    destruct (process_frames cfg frame_width frame_height (frame_idx + 1) rest (t1, g1))
      as [[rss st2]|e] eqn:Hfs; cbn [py_bind fst snd] in Hrun; [|discriminate].
    apply Ret_inj in Hrun. injection Hrun as <- <-.
    destruct (classify_tracks_remembers _ _ _ _ id Hc) as [Hh Hs].
    destruct (IH _ _ _ _ id Hfs) as [IHh IHs]. cbn [snd] in *.
    split; auto.
Qed.

(** Nothing is ever forgotten: an identity that has a history (or a
    verdict) after some frames still has one after any further frames, also
    when its track has been destroyed. *)
Theorem state_is_never_released (frames more : list (list yolo_box)) (ambient : globals)
    (id : Z) :
  exists reports st reports' st',
    process_video_for_wrong_way cfg frame_width frame_height frames ambient
      = Ret (reports, st) /\
    process_video_for_wrong_way cfg frame_width frame_height (frames ++ more) ambient
      = Ret (reports', st') /\
    (is_Some (object_centroid_history (snd st) !! id) ->
     is_Some (object_centroid_history (snd st') !! id)) /\
    (is_Some (object_direction_status (snd st) !! id) ->
     is_Some (object_direction_status (snd st') !! id)) /\
    (id ∈ dict_keys (tracked_objects (fst st)) ->
     is_Some (object_centroid_history (snd st) !! id)).
Proof.
  unfold process_video_for_wrong_way.
  destruct (process_frames_total cfg frame_width frame_height frames 0 new_tracker
              fresh_globals) as (reports & t & g & Hrun & _ & _).
  destruct (process_frames_total cfg frame_width frame_height more
              (0 + Z.of_nat (length frames)) t g) as (reports2 & t' & g' & Hrun2 & _ & _).
  exists reports, (t, g), (reports ++ reports2), (t', g').
  split; [exact Hrun|]. split.
  { rewrite process_frames_app, Hrun. cbn [py_bind fst snd]. rewrite Hrun2. reflexivity. }
  destruct (process_frames_remembers _ _ _ _ _ id Hrun2) as [Hh Hs].
  split; [exact Hh|]. split; [exact Hs|].
  (* a live track has been classified in the frame that made it live *)
  clear Hrun2 Hh Hs. cbn [fst snd].
  revert t g reports Hrun.
  induction frames as [|boxes rest IH] using rev_ind; intros t g reports Hrun Hin.
  - simpl in Hrun. apply Ret_inj in Hrun. injection Hrun as <- <- <-.
    simpl in Hin. apply elem_of_nil in Hin. contradiction.
  - rewrite process_frames_app in Hrun.
    destruct (process_frames cfg frame_width frame_height 0 rest (new_tracker, fresh_globals))
      as [[r1 [t1 g1]]|e]; cbn [py_bind fst snd process_frames] in Hrun; [|discriminate].
    unfold process_frame in Hrun. cbn [fst snd] in Hrun.
    destruct (advance (0 + Z.of_nat (length rest)) (map detection_of_box boxes) t1)
      as [t2|e]; cbn [py_bind] in Hrun; [|discriminate].
    destruct (classify_tracks cfg frame_width frame_height (tracked_objects t2) g1)
      as [[rs g2]|e] eqn:Hc; cbn [py_bind fst snd] in Hrun; [|discriminate].
    apply Ret_inj in Hrun. injection Hrun as <- <- <-.
    clear IH. revert g1 rs g2 Hc Hin.
    induction (tracked_objects t2) as [|[obj_id data] tl IHt]; intros g1 rs g2 Hc Hin.
    + simpl in Hin. apply elem_of_nil in Hin. contradiction.
    + rewrite classify_tracks_cons in Hc.
      destruct (classify_tracks cfg frame_width frame_height tl
                  (after_turn cfg frame_width frame_height obj_id data g1))
        as [[rs' g3]|e] eqn:Htl; cbn [py_bind fst snd] in Hc; [|discriminate].
      apply Ret_inj in Hc. injection Hc as <- <-.
      simpl in Hin. apply elem_of_cons in Hin as [->|Hin].
      * apply (classify_tracks_remembers _ _ _ _ obj_id Htl).
        rewrite after_turn_history, lookup_insert_eq. eauto.
      * apply (IHt _ _ _ Htl Hin).
Qed.

End Keeps.

(** ** The live set *)

Lemma sublist_sorted (l1 l2 : list Z) :
  l1 `sublist_of` l2 -> StronglySorted Z.lt l2 -> StronglySorted Z.lt l1.
Proof.
  induction 1 as [|x l1 l2 Hsub IH|x l1 l2 Hsub IH]; intros Hs.
  - constructor.
  - apply StronglySorted_cons in Hs as [Hx Hs]. apply StronglySorted_cons.
    split; [|apply IH; exact Hs].
    rewrite Forall_forall in *. intros y Hy. apply Hx.
    eapply elem_of_sublist; [exact Hy | exact Hsub].
  - apply StronglySorted_cons in Hs as [_ Hs]. apply IH. exact Hs.
Qed.

Lemma seqZ_sorted (n : nat) : forall m, StronglySorted Z.lt (seqZ m (Z.of_nat n)).
Proof.
  induction n as [|n IH]; intros m; [constructor|].
  rewrite seqZ_cons by lia. apply StronglySorted_cons. split.
  - apply Forall_forall. intros k Hk. apply elem_of_seqZ in Hk. lia.
  - replace (Z.pred (Z.of_nat (S n))) with (Z.of_nat n) by lia. apply IH.
Qed.

Lemma advance_sorted (frame_idx : Z) (dets : list detection) (t t' : tracker) :
  tracker_wf t ->
  StronglySorted Z.lt (dict_keys (tracked_objects t)) ->
  advance frame_idx dets t = Ret t' ->
  StronglySorted Z.lt (dict_keys (tracked_objects t')).
Proof.
  intros Hwf Hs Ha.
  destruct (advance_ids _ _ _ _ Hwf Ha) as (kept & Hsub & Hkeys & _).
  rewrite Hkeys. apply StronglySorted_app_2.
  - intros x1 x2 H1 H2. apply elem_of_seqZ in H2.
    destruct Hwf as (_ & Hlt & _). rewrite Forall_forall in Hlt.
    assert (0 <= x1 < next_object_id t)
      by (apply Hlt; eapply elem_of_sublist; [exact H1 | exact Hsub]).
    lia.
  - apply (sublist_sorted _ _ Hsub Hs).
  - unfold births. apply seqZ_sorted.
Qed.

Lemma obj_of_detection_in_step (frame_idx : Z) (b : yolo_box) :
  obj_centroid (obj_of_detection frame_idx (detection_of_box b))
  = calculate_centroid (obj_bbox (obj_of_detection frame_idx (detection_of_box b))).
Proof. reflexivity. Qed.

Lemma survivors_in_step (frame_idx : Z) (boxes : list yolo_box) (tracks : dict obj_data) :
  forall m,
    centroids_in_step tracks ->
    centroids_in_step (survivors frame_idx (map detection_of_box boxes) tracks m).
Proof.
  unfold centroids_in_step.
  induction tracks as [|[obj_id data] rest IH]; intros m Hin; [constructor|].
  apply Forall_cons in Hin as [Hd Hrest]. simpl survivors.
  apply Forall_app. split; [|apply IH; exact Hrest].
  destruct (claim (map detection_of_box boxes) data m) as [idx|]; simpl.
  - destruct (map detection_of_box boxes !! Z.to_nat idx) as [d|] eqn:E; simpl;
      constructor; [|constructor].
    change (map detection_of_box boxes) with (detection_of_box <$> boxes) in E.
    rewrite list_lookup_fmap in E.
    destruct (boxes !! Z.to_nat idx) as [b|]; simpl in E; [|discriminate].
    injection E as <-. reflexivity.
  - destruct (frame_idx - last_seen_frame data <? grace_period); constructor;
      [exact Hd | constructor].
Qed.

Lemma spawned_in_step (frame_idx : Z) (m : gset Z) (boxes : list yolo_box) :
  forall i next,
    centroids_in_step (spawned frame_idx m (map detection_of_box boxes) i next).
Proof.
  unfold centroids_in_step.
  induction boxes as [|b rest IH]; intros i next; simpl; [constructor|].
  destruct (bool_decide (i ∈ m)); [apply IH|]. constructor; [reflexivity | apply IH].
Qed.

Lemma advance_frames_live_set (frames : list (list yolo_box)) : forall frame_idx t t',
  tracker_wf t ->
  StronglySorted Z.lt (dict_keys (tracked_objects t)) ->
  centroids_in_step (tracked_objects t) ->
  advance_frames frame_idx frames t = Ret t' ->
  StronglySorted Z.lt (dict_keys (tracked_objects t')) /\
  centroids_in_step (tracked_objects t').
Proof.
  induction frames as [|boxes rest IH]; intros frame_idx t t' Hwf Hs Hc Hrun.
  - simpl in Hrun. apply Ret_inj in Hrun. subst t'. auto.
  - cbn [advance_frames] in Hrun.
    destruct (advance frame_idx (map detection_of_box boxes) t) as [t1|e] eqn:Ha;
      cbn [py_bind] in Hrun; [|discriminate].
    apply (IH (frame_idx + 1) t1 t'); try assumption.
    + apply (advance_wf _ _ _ _ Hwf Ha).
    + apply (advance_sorted _ _ _ _ Hwf Hs Ha).
    + rewrite advance_spec in Ha by exact Hwf. apply Ret_inj in Ha. subst t1. simpl.
      apply Forall_app. split; [apply survivors_in_step; exact Hc | apply spawned_in_step].
Qed.

(** The live tracks are always in increasing order of identity, so the
    turns of a frame go from the oldest track to the newest; and the stored
    centroid of every live track is the centroid of its stored box. *)
Theorem live_set_sorted_and_in_step (cfg : config) (fw fh : Z)
    (frames : list (list yolo_box)) (ambient : globals) :
  exists t,
    final_tracker (process_video_for_wrong_way cfg fw fh frames ambient) = Some t /\
    StronglySorted Z.lt (dict_keys (tracked_objects t)) /\
    centroids_in_step (tracked_objects t).
Proof.
  destruct (final_tracker_video cfg fw fh frames ambient) as (t & Ha & Hf).
  exists t. split; [exact Hf|].
  apply (advance_frames_live_set frames 0 new_tracker t new_tracker_wf); try assumption;
    constructor.
Qed.

(** * Association over any arithmetic *)

(** The statements of this part hold for every [arithmetic]: they follow
    the comparisons the code makes and use no property of the numbers
    beyond [division_guarded]. *)

Section Dicts.

Context {V : Type}.


Lemma dict_set_keeps (k : Z) (v : V) (d : dict V) (k' : Z) (v' : V) :
  k' <> k -> (k', v') ∈ d -> (k', v') ∈ dict_set k v d.
Proof.
  intros Hne. induction d as [|[k0 v0] d IH]; intros Hin; simpl.
  - apply elem_of_nil in Hin. contradiction.
  - apply elem_of_cons in Hin as [Heq|Hin].
    + injection Heq as <- <-.
      destruct (k' =? k) eqn:E; [apply Z.eqb_eq in E; contradiction | left].
    + destruct (k0 =? k); right; [exact Hin | apply IH, Hin].
Qed.

Lemma dict_set_keys (k : Z) (v : V) (d : dict V) (k' : Z) :
  k' ∈ dict_keys (dict_set k v d) -> k' = k \/ k' ∈ dict_keys d.
Proof.
  induction d as [|[k0 v0] d IH]; simpl; intros Hin.
  - apply list_elem_of_singleton in Hin. left. exact Hin.
  - destruct (k0 =? k) eqn:E; simpl in Hin; apply elem_of_cons in Hin as [->|Hin].
    + right. left.
    + right. right. exact Hin.
    + right. left.
    + destruct (IH Hin) as [->|H]; [left; reflexivity | right; right; exact H].
Qed.

Lemma dict_set_NoDup (k : Z) (v : V) (d : dict V) :
  NoDup (dict_keys d) -> NoDup (dict_keys (dict_set k v d)).
Proof.
  induction d as [|[k0 v0] d IH]; simpl; intros Hnd.
  - apply NoDup_singleton.
  - apply NoDup_cons in Hnd as [Hout Hnd].
    destruct (k0 =? k) eqn:E; simpl.
    + apply NoDup_cons. split; assumption.
    + apply Z.eqb_neq in E. apply NoDup_cons. split; [|apply IH, Hnd].
      intros Hin. apply dict_set_keys in Hin as [->|Hin]; [apply E; reflexivity|].
      exact (Hout Hin).
Qed.

End Dicts.

Section NumericAssociation.

Variable A : arithmetic.
Hypothesis div_guarded : division_guarded A.
Variable frame_idx : Z.
Variable dets : list (Numeric.detection A).

(** The IOU is returned: the division is reached behind its guard only. *)
Lemma numeric_iou_returns (bbox1 bbox2 : Numeric.bbox A) :
  exists v, Numeric.iou bbox1 bbox2 = Ret v.
Proof.
  unfold Numeric.iou.
  destruct (gt A (Numeric.union_area bbox1 bbox2) (int_0 A)) eqn:E.
  - apply div_guarded. exact E.
  - eexists. reflexivity.
Qed.

(** The inner loop returns the pair it started from, or the index of an
    unconsumed detection with the IOU computed for it. *)
Lemma numeric_scan_result (bbox1 : Numeric.bbox A) (m : gset Z)
    (ds : list (Numeric.detection A)) : forall i best,
  exists r,
    Numeric.scan_detections bbox1 m ds i best = Ret r /\
    (r = best \/
     exists (k : nat) d,
       ds !! k = Some d /\ fst r = i + Z.of_nat k /\ (fst r ∉ m) /\
       Numeric.iou bbox1 (Numeric.det_bbox d) = Ret (snd r)).
Proof.
  induction ds as [|d rest IH]; intros i best; simpl.
  - exists best. split; [reflexivity | left; reflexivity].
  - destruct (bool_decide (i ∈ m)) eqn:E.
    + destruct (IH (i + 1) best) as (r & Hr & Hc). exists r. split; [exact Hr|].
      destruct Hc as [->|(k & d' & Hk & Hf & Hm & Hi)]; [left; reflexivity|].
      right. exists (S k), d'. simpl. repeat split; [exact Hk | lia | exact Hm | exact Hi].
    + apply bool_decide_eq_false in E.
      destruct (numeric_iou_returns bbox1 (Numeric.det_bbox d)) as [v Hv].
      rewrite Hv. simpl.
      destruct (IH (i + 1) (if gt A v (snd best) then (i, v) else best))
        as (r & Hr & Hc).
      exists r. split; [exact Hr|].
      destruct Hc as [->|(k & d' & Hk & Hf & Hm & Hi)].
      * destruct (gt A v (snd best)); [|left; reflexivity].
        right. exists 0%nat, d. simpl. repeat split; [lia | exact E | exact Hv].
      * right. exists (S k), d'. simpl.
        repeat split; [exact Hk | lia | exact Hm | exact Hi].
Qed.

Lemma numeric_best_match_result (bbox1 : Numeric.bbox A) (m : gset Z) :
  exists best,
    Numeric.best_match bbox1 m dets = Ret best /\
    (fst best = -1 \/
     exists (k : nat) d,
       dets !! k = Some d /\ fst best = Z.of_nat k /\ (fst best ∉ m) /\
       Numeric.iou bbox1 (Numeric.det_bbox d) = Ret (snd best)).
Proof.
  unfold Numeric.best_match.
  destruct (numeric_scan_result bbox1 m dets 0 (-1, float_0 A)) as (r & Hr & Hc).
  exists r. split; [exact Hr|].
  destruct Hc as [->|(k & d & Hk & Hf & Hm & Hi)]; [left; reflexivity|].
  right. exists k, d. repeat split; [exact Hk | lia | exact Hm | exact Hi].
Qed.

Lemma numeric_is_match_index (best : Z * num A) :
  Numeric.is_match best = true ->
  fst best <> -1 /\ gt A (snd best) (float_0_3 A) = true.
Proof.
  unfold Numeric.is_match. intros H. apply andb_true_iff in H as [H1 H2].
  split; [|exact H2]. apply negb_true_iff, Z.eqb_neq in H1. exact H1.
Qed.

(** The turn of a track whose best candidate passes the test of line 293. *)
Lemma numeric_turn_match (entry : Z * Numeric.obj_data A)
    (nt : dict (Numeric.obj_data A)) (m : gset Z) (best : Z * num A) :
  Numeric.best_match (Numeric.obj_bbox (snd entry)) m dets = Ret best ->
  Numeric.is_match best = true ->
  exists d,
    dets !! Z.to_nat (fst best) = Some d /\ 0 <= fst best /\ (fst best ∉ m) /\
    Numeric.iou (Numeric.obj_bbox (snd entry)) (Numeric.det_bbox d) = Ret (snd best) /\
    Numeric.associate_track frame_idx dets entry (nt, m)
    = Ret (dict_set (fst entry) (Numeric.obj_of_detection frame_idx d) nt,
           {[fst best]} ∪ m).
Proof.
  intros Hbest Hmatch.
  destruct (numeric_best_match_result (Numeric.obj_bbox (snd entry)) m)
    as (best' & Hbest' & Hc).
  rewrite Hbest in Hbest'. injection Hbest' as <-.
  destruct (numeric_is_match_index best Hmatch) as [Hidx _].
  destruct Hc as [Hc|(k & d & Hk & Hf & Hm & Hi)]; [contradiction|].
  exists d. rewrite Hf, Nat2Z.id. split; [exact Hk|]. split; [lia|].
  rewrite <- Hf. split; [exact Hm|]. split; [exact Hi|].
  unfold Numeric.associate_track. simpl fst. simpl snd.
  rewrite Hbest. simpl py_bind. rewrite Hmatch, Hf, (py_index_lookup dets k d Hk).
  reflexivity.
Qed.

(** The turn of a track whose best candidate fails it. *)
Lemma numeric_turn_no_match (entry : Z * Numeric.obj_data A)
    (nt : dict (Numeric.obj_data A)) (m : gset Z) (best : Z * num A) :
  Numeric.best_match (Numeric.obj_bbox (snd entry)) m dets = Ret best ->
  Numeric.is_match best = false ->
  Numeric.associate_track frame_idx dets entry (nt, m)
  = Ret (if frame_idx - Numeric.last_seen_frame (snd entry) <? grace_period
         then dict_set (fst entry) (snd entry) nt else nt, m).
Proof.
  intros Hbest Hmatch. unfold Numeric.associate_track. simpl fst. simpl snd.
  rewrite Hbest. simpl py_bind. rewrite Hmatch.
  destruct (frame_idx - Numeric.last_seen_frame (snd entry) <? grace_period); reflexivity.
Qed.

(** A turn returns; it consumes nothing back, stores under its own identity
    only, and leaves the entries of other identities in place. *)
Lemma numeric_turn_total (entry : Z * Numeric.obj_data A)
    (acc : dict (Numeric.obj_data A) * gset Z) :
  exists acc',
    Numeric.associate_track frame_idx dets entry acc = Ret acc' /\
    snd acc ⊆ snd acc' /\
    (forall k, k ∈ dict_keys (fst acc') -> k = fst entry \/ k ∈ dict_keys (fst acc)) /\
    (forall k v, k <> fst entry -> (k, v) ∈ fst acc -> (k, v) ∈ fst acc') /\
    (NoDup (dict_keys (fst acc)) -> NoDup (dict_keys (fst acc'))).
Proof.
  destruct acc as [nt m].
  destruct (numeric_best_match_result (Numeric.obj_bbox (snd entry)) m)
    as (best & Hbest & _).
  destruct (Numeric.is_match best) eqn:Hmatch.
  - destruct (numeric_turn_match entry nt m best Hbest Hmatch)
      as (d & _ & _ & _ & _ & Hturn).
    eexists. split; [exact Hturn|]. simpl. split; [|split; [|split]].
    + apply union_subseteq_r.
    + intros k Hk. apply dict_set_keys in Hk. exact Hk.
    + intros k v Hne Hin. apply dict_set_keeps; assumption.
    + apply dict_set_NoDup.
  - rewrite (numeric_turn_no_match entry nt m best Hbest Hmatch).
    eexists. split; [reflexivity|]. simpl. split; [reflexivity|].
    destruct (frame_idx - Numeric.last_seen_frame (snd entry) <? grace_period).
    + split; [|split].
      * intros k Hk. apply dict_set_keys in Hk. exact Hk.
      * intros k v Hne Hin. apply dict_set_keeps; assumption.
      * apply dict_set_NoDup.
    + split; [intros k Hk; right; exact Hk|].
      split; [intros k v _ Hin; exact Hin | intros H; exact H].
Qed.

Lemma numeric_turns_total (tracks : dict (Numeric.obj_data A)) : forall acc,
  exists acc',
    Numeric.associate_tracks frame_idx dets tracks acc = Ret acc' /\
    snd acc ⊆ snd acc' /\
    (forall k, k ∈ dict_keys (fst acc') ->
               k ∈ dict_keys tracks \/ k ∈ dict_keys (fst acc)) /\
    (forall k v, k ∉ dict_keys tracks -> (k, v) ∈ fst acc -> (k, v) ∈ fst acc') /\
    (NoDup (dict_keys (fst acc)) -> NoDup (dict_keys (fst acc'))).
Proof.
  induction tracks as [|entry rest IH]; intros acc.
  - exists acc. split; [reflexivity|]. split; [reflexivity|].
    split; [intros k Hk; right; exact Hk|].
    split; [intros k v _ Hin; exact Hin | intros H; exact H].
  - destruct (numeric_turn_total entry acc)
      as (acc1 & Hturn & Hsub1 & Hkeys1 & Hkeep1 & Hnd1).
    destruct (IH acc1) as (acc2 & Hrest & Hsub2 & Hkeys2 & Hkeep2 & Hnd2).
    exists acc2. simpl. rewrite Hturn. simpl py_bind. split; [exact Hrest|].
    split; [etransitivity; eassumption|]. split; [|split].
    + intros k Hk. destruct (Hkeys2 k Hk) as [H|H]; [left; right; exact H|].
      destruct (Hkeys1 k H) as [->|H']; [left; left | right; exact H'].
    + intros k v Hout Hin. apply not_elem_of_cons in Hout as [Hne Hout].
      apply Hkeep2; [exact Hout|]. apply Hkeep1; assumption.
    + intros H. apply Hnd2, Hnd1, H.
Qed.


Lemma numeric_spawned_keys (m : gset Z) (ds : list (Numeric.detection A)) : forall i next,
  dict_keys (numeric_spawned frame_idx m ds i next)
  = seqZ next (Z.of_nat (length (numeric_spawned frame_idx m ds i next))).
Proof.
  induction ds as [|d rest IH]; intros i next; [reflexivity|].
  simpl. destruct (bool_decide (i ∈ m)); [apply IH|].
  simpl length. rewrite seqZ_cons by lia. simpl. f_equal.
  rewrite IH. f_equal; lia.
Qed.

(** With every identity in use below the counter, the last loop appends. *)
Lemma numeric_spawn_spec (m : gset Z) (ds : list (Numeric.detection A)) :
  forall i nt next,
    Forall (fun k => k < next) (dict_keys nt) ->
    Numeric.spawn_tracks frame_idx m ds i (nt, next) =
    (nt ++ numeric_spawned frame_idx m ds i next,
     next + Z.of_nat (length (numeric_spawned frame_idx m ds i next))).
Proof.
  induction ds as [|d rest IH]; intros i nt next Hlt.
  - simpl. rewrite app_nil_r. f_equal. lia.
  - simpl. destruct (bool_decide (i ∈ m)); [apply IH; exact Hlt|].
    simpl fst. simpl snd. rewrite dict_set_fresh.
    + rewrite IH.
      * rewrite <- app_assoc. simpl. f_equal. lia.
      * rewrite dict_keys_app. apply Forall_app. split.
        -- eapply Forall_impl; [exact Hlt|]. simpl. intros; lia.
        -- simpl. constructor; [lia|constructor].
    + intros Hin. rewrite Forall_forall in Hlt. specialize (Hlt _ Hin). simpl in Hlt. lia.
Qed.

Lemma numeric_spawned_lookup (m : gset Z) (ds : list (Numeric.detection A)) :
  forall i next k d,
    ds !! k = Some d -> i + Z.of_nat k ∉ m ->
    exists id,
      next <= id < next + Z.of_nat (length (numeric_spawned frame_idx m ds i next)) /\
      (id, Numeric.obj_of_detection frame_idx d) ∈ numeric_spawned frame_idx m ds i next.
Proof.
  induction ds as [|d0 rest IH]; intros i next k d Hk Hnm; [discriminate|].
  simpl. destruct k as [|k]; simpl in Hk.
  - injection Hk as ->. replace (i + Z.of_nat 0) with i in Hnm by lia.
    rewrite bool_decide_eq_false_2 by exact Hnm.
    exists next. split; [simpl length; lia | left].
  - replace (i + Z.of_nat (S k)) with (i + 1 + Z.of_nat k) in Hnm by lia.
    destruct (bool_decide (i ∈ m)).
    + apply (IH (i + 1) next k d Hk Hnm).
    + destruct (IH (i + 1) (next + 1) k d Hk Hnm) as (id & Hid & Hin).
      exists id. split; [simpl length; lia | right; exact Hin].
Qed.

(** One frame of association on a well-formed tracker: what the outer loop
    stored, then one new track per unconsumed detection. *)
Lemma numeric_advance_spec (t : Numeric.tracker A) :
  numeric_wf t ->
  exists nt m,
    Numeric.associate_tracks frame_idx dets (Numeric.tracked_objects t) ([], ∅)
      = Ret (nt, m) /\
    (forall k, k ∈ dict_keys nt -> k ∈ dict_keys (Numeric.tracked_objects t)) /\
    NoDup (dict_keys nt) /\
    Numeric.advance frame_idx dets t =
    Ret {| Numeric.next_object_id :=
             Numeric.next_object_id t
             + Z.of_nat (length (numeric_spawned frame_idx m dets 0
                                   (Numeric.next_object_id t)));
           Numeric.tracked_objects :=
             nt ++ numeric_spawned frame_idx m dets 0 (Numeric.next_object_id t) |}.
Proof.
  intros (Hnd & Hlt & Hpos).
  destruct (numeric_turns_total (Numeric.tracked_objects t) ([], ∅))
    as ([nt m] & Hrun & _ & Hkeys & _ & Hnd').
  exists nt, m. split; [exact Hrun|].
  assert (Hold : forall k, k ∈ dict_keys nt -> k ∈ dict_keys (Numeric.tracked_objects t)).
  { intros k Hk. destruct (Hkeys k Hk) as [H|H]; [exact H|].
    simpl in H. apply elem_of_nil in H. contradiction. }
  split; [exact Hold|]. split; [apply Hnd'; constructor|].
  unfold Numeric.advance. rewrite Hrun. simpl py_bind. cbn [fst snd].
  rewrite numeric_spawn_spec; [reflexivity|].
  rewrite Forall_forall in *. intros k Hk. specialize (Hlt k (Hold k Hk)).
  simpl in Hlt. lia.
Qed.

(** When no turn matches, the outer loop keeps the tracks within the grace
    period, in their order, and consumes nothing. *)
Lemma numeric_turns_unmatched (tracks : dict (Numeric.obj_data A)) : forall nt m,
  NoDup (dict_keys nt ++ dict_keys tracks) ->
  (forall e best, e ∈ tracks ->
     Numeric.best_match (Numeric.obj_bbox (snd e)) m dets = Ret best ->
     Numeric.is_match best = false) ->
  Numeric.associate_tracks frame_idx dets tracks (nt, m)
  = Ret (nt ++ numeric_within_grace frame_idx tracks, m).
Proof.
  unfold numeric_within_grace.
  induction tracks as [|entry rest IH]; intros nt m Hnd Hall.
  - simpl. rewrite app_nil_r. reflexivity.
  - destruct (numeric_best_match_result (Numeric.obj_bbox (snd entry)) m)
      as (best & Hbest & _).
    assert (Hno : Numeric.is_match best = false)
      by (apply (Hall entry best); [left | exact Hbest]).
    simpl Numeric.associate_tracks.
    rewrite (numeric_turn_no_match entry nt m best Hbest Hno). simpl py_bind.
    simpl in Hnd. apply NoDup_app in Hnd as (Hnt & Hdisj & Hrest).
    apply NoDup_cons in Hrest as [Hid Hrest].
    assert (Hfresh : fst entry ∉ dict_keys nt).
    { intros Hin. apply (Hdisj _ Hin). left. }
    assert (Hall' : forall e best', e ∈ rest ->
              Numeric.best_match (Numeric.obj_bbox (snd e)) m dets = Ret best' ->
              Numeric.is_match best' = false)
      by (intros e best' He; apply Hall; right; exact He).
    rewrite filter_cons.
    destruct (frame_idx - Numeric.last_seen_frame (snd entry) <? grace_period) eqn:E.
    + apply Z.ltb_lt in E. rewrite decide_True by exact E.
      rewrite dict_set_fresh by exact Hfresh. rewrite IH.
      * rewrite <- app_assoc. destruct entry. reflexivity.
      * rewrite dict_keys_app. simpl. apply NoDup_app. split; [|split].
        -- apply NoDup_app. split; [exact Hnt|]. split; [|apply NoDup_singleton].
           intros x Hx Hx'. apply list_elem_of_singleton in Hx'. subst. contradiction.
        -- intros x Hx Hx'. apply elem_of_app in Hx as [Hx|Hx].
           ++ apply (Hdisj _ Hx). right. exact Hx'.
           ++ apply list_elem_of_singleton in Hx. subst. contradiction.
        -- exact Hrest.
      * exact Hall'.
    + apply Z.ltb_ge in E. rewrite decide_False by lia. rewrite IH; [reflexivity| |exact Hall'].
      apply NoDup_app. split; [exact Hnt|]. split; [|exact Hrest].
      intros x Hx Hx'. apply (Hdisj _ Hx). right. exact Hx'.
Qed.

Lemma numeric_spawned_none_consumed (ds : list (Numeric.detection A)) : forall i next,
  numeric_spawned frame_idx ∅ ds i next = numeric_all_spawned frame_idx ds next.
Proof.
  unfold numeric_all_spawned.
  induction ds as [|d rest IH]; intros i next; [reflexivity|].
  simpl numeric_spawned. rewrite bool_decide_eq_false_2 by apply not_elem_of_empty.
  simpl length. rewrite seqZ_cons by lia. simpl. f_equal.
  rewrite IH. f_equal. f_equal; lia.
Qed.

Lemma numeric_all_spawned_length (ds : list (Numeric.detection A)) (next : Z) :
  length (numeric_all_spawned frame_idx ds next) = length ds.
Proof.
  unfold numeric_all_spawned. rewrite length_zip_with, length_seqZ, length_map. lia.
Qed.

(** One frame of association keeps the tracker well formed. *)
Lemma numeric_advance_wf (t t' : Numeric.tracker A) :
  numeric_wf t -> Numeric.advance frame_idx dets t = Ret t' -> numeric_wf t'.
Proof.
  intros Hwf Ht'.
  destruct (numeric_advance_spec t Hwf) as (nt & m & _ & Hold & Hnd & Hstep).
  rewrite Hstep in Ht'. injection Ht' as <-.
  destruct Hwf as (_ & Hlt & Hpos). rewrite Forall_forall in Hlt.
  unfold numeric_wf. simpl. rewrite dict_keys_app, numeric_spawned_keys.
  split; [|split].
  - apply NoDup_app. split; [exact Hnd|]. split; [|apply NoDup_seqZ].
    intros k Hk Hk'. apply elem_of_seqZ in Hk'. specialize (Hlt k (Hold k Hk)).
    simpl in Hlt. lia.
  - apply Forall_app. split; apply Forall_forall; intros k Hk.
    + specialize (Hlt k (Hold k Hk)). simpl in Hlt. lia.
    + apply elem_of_seqZ in Hk. lia.
  - lia.
Qed.

End NumericAssociation.

(** In exact arithmetic the guarded division returns. *)
Lemma exact_division_guarded : division_guarded exact_arithmetic.
Proof.
  intros a b Hb. simpl in *. unfold py_div.
  destruct (Qeq_bool b 0) eqn:E.
  - apply Qeq_bool_iff in E. apply Qltb_lt in Hb. rewrite E in Hb.
    exfalso. exact (Qlt_irrefl 0 Hb).
  - eexists. reflexivity.
Qed.

(** ** The exact model is the instance at [exact_arithmetic] *)

Lemma exact_scan_detections (bbox1 : bbox) (m : gset Z) (dets : list detection) :
  forall i best,
    Numeric.scan_detections (exact_of_bbox bbox1) m (map exact_of_detection dets) i best
    = scan_detections bbox1 m dets i best.
Proof.
  induction dets as [|d rest IH]; intros i best; [reflexivity|].
  simpl. destruct (bool_decide (i ∈ m)); [apply IH|].
  change (Numeric.iou (exact_of_bbox bbox1) (exact_of_bbox (det_bbox d)))
    with (iou bbox1 (det_bbox d)).
  destruct (iou bbox1 (det_bbox d)) as [v|e]; [|reflexivity].
  simpl. apply IH.
Qed.

Lemma exact_best_match (bbox1 : bbox) (m : gset Z) (dets : list detection) :
  Numeric.best_match (exact_of_bbox bbox1) m (map exact_of_detection dets)
  = best_match bbox1 m dets.
Proof. apply exact_scan_detections. Qed.

Lemma exact_dict_set {X Y : Type} (f : X -> Y) (k : Z) (x : X) (d : dict X) :
  dict_set k (f x) (map (fun e => (fst e, f (snd e))) d)
  = map (fun e => (fst e, f (snd e))) (dict_set k x d).
Proof.
  induction d as [|[k' x'] d IH]; [reflexivity|].
  simpl. destruct (k' =? k); simpl; [reflexivity|]. rewrite IH. reflexivity.
Qed.

Lemma exact_py_index {X Y : Type} (f : X -> Y) (l : list X) (i : Z) :
  py_index (map f l) i = py_map f (py_index l i).
Proof.
  unfold py_index. rewrite length_map.
  cbv zeta. set (j := if i <? 0 then i + Z.of_nat (length l) else i).
  destruct ((j <? 0) || (Z.of_nat (length l) <=? j)); [reflexivity|].
  rewrite list_lookup_fmap. destruct (l !! Z.to_nat j); reflexivity.
Qed.

Lemma exact_associate_track (frame_idx : Z) (dets : list detection)
    (entry : Z * obj_data) (nt : dict obj_data) (m : gset Z) :
  Numeric.associate_track frame_idx (map exact_of_detection dets)
    (fst entry, exact_of_obj (snd entry)) (exact_of_tracks nt, m)
  = py_map (fun acc => (exact_of_tracks (fst acc), snd acc))
      (associate_track frame_idx dets entry (nt, m)).
Proof.
  unfold Numeric.associate_track, associate_track. cbn [fst snd].
  change (Numeric.obj_bbox (exact_of_obj (snd entry)))
    with (exact_of_bbox (obj_bbox (snd entry))).
  rewrite exact_best_match.
  destruct (best_match (obj_bbox (snd entry)) m dets) as [best|e]; [|reflexivity].
  simpl py_bind.
  change (Numeric.is_match (A := exact_arithmetic) best)
    with (negb (fst best =? -1) && Qltb match_threshold (snd best)).
  destruct (negb (fst best =? -1) && Qltb match_threshold (snd best)).
  - rewrite exact_py_index. destruct (py_index dets (fst best)) as [d|e]; [|reflexivity].
    simpl. unfold exact_of_tracks.
    rewrite <- (exact_dict_set exact_of_obj). reflexivity.
  - change (Numeric.last_seen_frame (exact_of_obj (snd entry)))
      with (last_seen_frame (snd entry)).
    destruct (frame_idx - last_seen_frame (snd entry) <? grace_period); [|reflexivity].
    simpl. unfold exact_of_tracks. rewrite <- (exact_dict_set exact_of_obj). reflexivity.
Qed.

Lemma exact_associate_tracks (frame_idx : Z) (dets : list detection)
    (tracks : dict obj_data) : forall nt m,
  Numeric.associate_tracks frame_idx (map exact_of_detection dets)
    (exact_of_tracks tracks) (exact_of_tracks nt, m)
  = py_map (fun acc => (exact_of_tracks (fst acc), snd acc))
      (associate_tracks frame_idx dets tracks (nt, m)).
Proof.
  induction tracks as [|entry rest IH]; intros nt m; [reflexivity|].
  simpl. rewrite exact_associate_track. unfold assoc_state, dict.
  destruct (associate_track frame_idx dets entry (nt, m)) as [[nt' m']|e]; [|reflexivity].
  simpl. apply IH.
Qed.

Lemma exact_spawn_tracks (frame_idx : Z) (m : gset Z) (dets : list detection) :
  forall i nt next,
    Numeric.spawn_tracks frame_idx m (map exact_of_detection dets) i
      (exact_of_tracks nt, next)
    = (exact_of_tracks (fst (spawn_tracks frame_idx m dets i (nt, next))),
       snd (spawn_tracks frame_idx m dets i (nt, next))).
Proof.
  induction dets as [|d rest IH]; intros i nt next; [reflexivity|].
  simpl. destruct (bool_decide (i ∈ m)); [apply IH|].
  cbn [fst snd]. rewrite <- IH. f_equal. f_equal.
  unfold exact_of_tracks. rewrite <- (exact_dict_set exact_of_obj). reflexivity.
Qed.

(** One frame of association in the exact model is one frame of the model
    over [exact_arithmetic]. *)
Lemma exact_advance (frame_idx : Z) (dets : list detection) (t : tracker) :
  Numeric.advance frame_idx (map exact_of_detection dets) (exact_of_tracker t)
  = py_map exact_of_tracker (advance frame_idx dets t).
Proof.
  unfold Numeric.advance, advance. simpl Numeric.tracked_objects.
  change (@nil (Z * Numeric.obj_data exact_arithmetic)) with (exact_of_tracks []).
  rewrite exact_associate_tracks.
  destruct (associate_tracks frame_idx dets (tracked_objects t) ([], ∅)) as [[nt m]|e];
    [|reflexivity].
  simpl py_map. simpl py_bind. cbn [fst snd]. simpl Numeric.next_object_id.
  rewrite exact_spawn_tracks. reflexivity.
Qed.

(** C10. A track's turn adds an index to [matched_current_indices] only
    when the test of line 293 passes for its best candidate, and then only
    that index; a turn whose best candidate fails the test leaves the set
    as it was, so the tracks after it scan the same candidates. Every
    detection still unconsumed when the turns are over spawns a track with
    a fresh identity. This holds whatever the arithmetic of the IOU is. *)
Theorem consumed_only_on_match (A : arithmetic) (frame_idx : Z)
    (dets : list (Numeric.detection A)) (entry : Z * Numeric.obj_data A)
    (nt : dict (Numeric.obj_data A)) (m : gset Z) (t : Numeric.tracker A) :
  division_guarded A ->
  numeric_wf t ->
  (exists best nt',
     Numeric.best_match (Numeric.obj_bbox (snd entry)) m dets = Ret best /\
     Numeric.associate_track frame_idx dets entry (nt, m)
       = Ret (nt', if Numeric.is_match best then {[fst best]} ∪ m else m) /\
     (Numeric.is_match best = true ->
      (fst best ∉ m) /\
      exists d, dets !! Z.to_nat (fst best) = Some d /\
                nt' = dict_set (fst entry) (Numeric.obj_of_detection frame_idx d) nt) /\
     (Numeric.is_match best = false ->
      forall rest,
        Numeric.associate_tracks frame_idx dets (entry :: rest) (nt, m)
        = Numeric.associate_tracks frame_idx dets rest (nt', m))) /\
  (exists nt_end m_end t',
     Numeric.associate_tracks frame_idx dets (Numeric.tracked_objects t) ([], ∅)
       = Ret (nt_end, m_end) /\
     Numeric.advance frame_idx dets t = Ret t' /\
     numeric_wf t' /\
     forall k d,
       dets !! k = Some d ->
       Z.of_nat k ∉ m_end ->
       exists id,
         Numeric.next_object_id t <= id < Numeric.next_object_id t' /\
         (id ∉ dict_keys (Numeric.tracked_objects t)) /\
         (id, Numeric.obj_of_detection frame_idx d) ∈ Numeric.tracked_objects t').
Proof.
  intros Hdiv Hwf. split.
  - destruct (numeric_best_match_result A Hdiv dets (Numeric.obj_bbox (snd entry)) m)
      as (best & Hbest & _).
    exists best. destruct (Numeric.is_match best) eqn:Hmatch.
    + destruct (numeric_turn_match A Hdiv frame_idx dets entry nt m best Hbest Hmatch)
        as (d & Hd & _ & Hnm & _ & Hturn).
      exists (dict_set (fst entry) (Numeric.obj_of_detection frame_idx d) nt).
      split; [exact Hbest|]. split; [exact Hturn|].
      split; [|discriminate].
      intros _. split; [exact Hnm|]. exists d. split; [exact Hd | reflexivity].
    + pose proof (numeric_turn_no_match A frame_idx dets entry nt m best Hbest Hmatch)
        as Hturn.
      eexists. split; [exact Hbest|]. split; [exact Hturn|].
      split; [discriminate|]. intros _ rest. simpl. rewrite Hturn. reflexivity.
  - destruct (numeric_advance_spec A Hdiv frame_idx dets t Hwf)
      as (nt_end & m_end & Hrun & _ & _ & Hstep).
    eexists nt_end, m_end, _. split; [exact Hrun|]. split; [exact Hstep|].
    split; [apply (numeric_advance_wf A Hdiv frame_idx dets t _ Hwf Hstep)|].
    intros k d Hk Hnm. simpl.
    destruct (numeric_spawned_lookup A frame_idx m_end dets 0
                (Numeric.next_object_id t) k d Hk) as (id & Hid & Hin).
    { simpl. exact Hnm. }
    exists id. split; [exact Hid|]. split.
    + destruct Hwf as (_ & Hlt & _). rewrite Forall_forall in Hlt.
      intros Hold. specialize (Hlt _ Hold). simpl in Hlt. lia.
    + apply elem_of_app. right. exact Hin.
Qed.

Lemma consumed_only_on_match_witness :
  let dets := [exact_detection 0 0 10 10] in
  let entry := (0, exact_track 100 100 110 110) in
  let t := {| Numeric.next_object_id := 2;
              Numeric.tracked_objects := [entry; (1, exact_track 0 0 10 10)] |} in
  (exists best nt',
     Numeric.best_match (Numeric.obj_bbox (snd entry)) ∅ dets = Ret best /\
     Numeric.associate_track 1 dets entry ([], ∅)
       = Ret (nt', if Numeric.is_match best then {[fst best]} ∪ ∅ else ∅) /\
     (Numeric.is_match best = true ->
      (fst best ∉ (∅ : gset Z)) /\
      exists d, dets !! Z.to_nat (fst best) = Some d /\
                nt' = dict_set (fst entry) (Numeric.obj_of_detection 1 d) []) /\
     (Numeric.is_match best = false ->
      forall rest,
        Numeric.associate_tracks 1 dets (entry :: rest) ([], ∅)
        = Numeric.associate_tracks 1 dets rest (nt', ∅))) /\
  (exists nt_end m_end t',
     Numeric.associate_tracks 1 dets (Numeric.tracked_objects t) ([], ∅)
       = Ret (nt_end, m_end) /\
     Numeric.advance 1 dets t = Ret t' /\
     numeric_wf t' /\
     forall k d,
       dets !! k = Some d ->
       Z.of_nat k ∉ m_end ->
       exists id,
         Numeric.next_object_id t <= id < Numeric.next_object_id t' /\
         (id ∉ dict_keys (Numeric.tracked_objects t)) /\
         (id, Numeric.obj_of_detection 1 d) ∈ Numeric.tracked_objects t').
Proof.
  intros dets entry t.
  apply (consumed_only_on_match exact_arithmetic 1 dets entry [] ∅ t).
  - exact exact_division_guarded.
  - unfold numeric_wf. simpl. split; [|split; [|lia]].
    + apply NoDup_cons. split; [|apply NoDup_singleton].
      intros H. apply list_elem_of_singleton in H. discriminate.
    + repeat constructor; lia.
Defined.



(** When the test [iou > 0.3] of line 293 fails for every track and every
    detection, every detection starts a track of its own, in detection
    order, and the old tracks are kept or dropped by the grace period
    alone. *)
Theorem no_overlap_all_spawn (A : arithmetic) (frame_idx : Z)
    (dets : list (Numeric.detection A)) (t : Numeric.tracker A) :
  division_guarded A ->
  numeric_wf t ->
  (forall obj_id data d v,
     (obj_id, data) ∈ Numeric.tracked_objects t -> d ∈ dets ->
     Numeric.iou (Numeric.obj_bbox data) (Numeric.det_bbox d) = Ret v ->
     gt A v (float_0_3 A) = false) ->
  Numeric.advance frame_idx dets t =
  Ret {| Numeric.next_object_id := Numeric.next_object_id t + Z.of_nat (length dets);
         Numeric.tracked_objects :=
           numeric_within_grace frame_idx (Numeric.tracked_objects t)
           ++ numeric_all_spawned frame_idx dets (Numeric.next_object_id t) |}.
Proof.
  intros Hdiv Hwf Hfar.
  destruct (numeric_advance_spec A Hdiv frame_idx dets t Hwf)
    as (nt & m & Hrun & _ & _ & Hstep).
  rewrite (numeric_turns_unmatched A Hdiv frame_idx dets (Numeric.tracked_objects t) [] ∅)
    in Hrun.
  - injection Hrun as <- <-. rewrite Hstep.
    rewrite numeric_spawned_none_consumed, numeric_all_spawned_length. reflexivity.
  - simpl. destruct Hwf as (Hnd & _). exact Hnd.
  - intros [obj_id data] best He Hbest.
    destruct (numeric_best_match_result A Hdiv dets (Numeric.obj_bbox data) ∅)
      as (best' & Hbest' & Hc).
    simpl in Hbest. rewrite Hbest in Hbest'. injection Hbest' as <-.
    unfold Numeric.is_match.
    destruct Hc as [Hc|(j & d & Hj & _ & _ & Hiou)].
    + rewrite Hc. reflexivity.
    + rewrite (Hfar obj_id data d (snd best) He); [apply andb_false_r| |exact Hiou].
      apply list_elem_of_lookup. exists j. exact Hj.
Qed.

Lemma no_overlap_all_spawn_witness :
  let dets := [exact_detection 100 100 110 110] in
  let t := {| Numeric.next_object_id := 1;
              Numeric.tracked_objects := [(0, exact_track 0 0 10 10)] |} in
  Numeric.advance 1 dets t =
  Ret {| Numeric.next_object_id := 1 + Z.of_nat (length dets);
         Numeric.tracked_objects :=
           numeric_within_grace 1 (Numeric.tracked_objects t)
           ++ numeric_all_spawned 1 dets 1 |}.
Proof.
  intros dets t.
  apply (no_overlap_all_spawn exact_arithmetic 1 dets t).
  - exact exact_division_guarded.
  - unfold numeric_wf. simpl. split; [apply NoDup_singleton|].
    split; [repeat constructor; lia | lia].
  - simpl. intros obj_id data d v Ht Hd Hv.
    apply list_elem_of_singleton in Ht. apply list_elem_of_singleton in Hd.
    injection Ht as -> ->. subst d. vm_compute in Hv. injection Hv as <-.
    vm_compute. reflexivity.
Defined.
